(** * librbd control plane (src/librbd/internal.cc): a shallow embedding

    The development follows the layout of internal.cc:
    - [Errno], the error codes the functions return (negated, as in C);
    - [Coordinator], the exclusive-lock coordinator
      ([prepare_image_update], [invoke_async_request]) and the public
      [snap_create] / [snap_remove] entry points that go through it;
    - [Image], the device handle ([ImageCtx]), the refresh engine
      ([ictx_check], [ictx_refresh], [refresh_parent]), the parent
      resolver ([open_parent], [open_image], [close_image]) and
      [snap_rollback];
    - [Snapshots], the snapshot life cycle against the shared header
      ([snap_create_helper], [snap_remove_helper], [snap_protect],
      [snap_unprotect]) and [update_features];
    - [Creation], the creation of an image ([detect_format], [create],
      [create_v1], [create_v2]). *)

From stdpp Require Import base option list gmap strings fin_maps sorting.
From Stdlib Require Import ZArith Lia.

Local Open Scope Z_scope.

(** ** Error codes (errno.h, Linux values) and Ceph constants *)

Module Errno.
Definition ENOENT : Z := 2.
Definition EIO : Z := 5.
Definition EBUSY : Z := 16.
Definition EEXIST : Z := 17.
Definition EINVAL : Z := 22.
Definition EROFS : Z := 30.
Definition EDOM : Z := 33.
Definition ENOSYS : Z := 38.
Definition ERESTART : Z := 85.
Definition EOPNOTSUPP : Z := 95.
Definition ETIMEDOUT : Z := 110.
Definition ESTALE : Z := 116.
End Errno.
Import Errno.

(** [CEPH_NOSNAP] is [((__u64)(-2))]. *)
Definition CEPH_NOSNAP : Z := 18446744073709551614.

(** ** The exclusive-lock coordinator *)

Module Coordinator.

(** What one thread does to the guards and to its collaborators, in
    program order.  [owner_lock] is the topology/ownership guard,
    [snap_lock] the metadata guard read in [invoke_async_request]. *)
Inductive event : Type :=
| OwnerLockGetRead
| OwnerLockPutRead
| OwnerLockGetWrite
| OwnerLockPutWrite
| SnapLockGetRead
| SnapLockPutRead
| QueryLockSupported (b : bool)
| QueryLockOwner (b : bool)
| CallTryLock (r : Z)
| CallFlushAsyncOperations
| CallRemoteRequest (r : Z)
| CallLocalRequest (r : Z)
| CallHelperNoCtx (r : Z)
| CallCtxWait (r : Z)
| CallIctxCheck (r : Z)
| CallNotifyChange
| CallPerfcounterInc.

Global Instance event_eq_dec : EqDecision event.
Proof. solve_decision. Defined.

(** How a call ends: with the C return value, with the loop budget of
    the model used up, or in the dereference of a null
    [ictx->image_watcher]. *)
Inductive outcome : Type :=
| Returned (r : Z)
| OutOfFuel
| NullWatcher.

(** How the ownership loop of [invoke_async_request] is left: on to
    the local request (condition false, or [break]), out of the
    function with a return value, or with the budget used up. *)
Inductive loop_exit : Type :=
| Proceed
| Leave (r : Z)
| Exhausted.

Declare Scope coord_scope.

Section WithWorld.
(** Everything outside the calling thread: the image watcher, the
    peer that owns the lock, the other threads of the process.  Each
    collaborator answers from the world and moves it on, so any
    sequence of answers can be produced. *)
Context {W : Type}.

Record Env : Type := {
  image_watcher_present : W → bool;
  read_only : W → bool;
  snap_id : W → Z;
  features_fast_diff : W → bool;
  get_snap_id : string → W → Z;
  is_lock_supported : W → bool * W;
  is_lock_owner : W → bool * W;
  try_lock : W → Z * W;
  flush_async_operations : W → W;
  remote_request : W → Z * W;
  (* the bound handler; the flag tells whether a completion context
     is passed (false: the Context* argument is NULL) *)
  local_request : bool → W → Z * W;
  ctx_wait : W → Z * W;
  ictx_check : W → Z * W;
  notify_change : W → W;
}.

Variable env : Env.

(** State (the world) and writer (the events) in one monad. *)
Definition M (A : Type) : Type := W → A * W * list event.

Definition ret {A} (a : A) : M A := λ w, (a, w, []).
Definition bind {A B} (m : M A) (k : A → M B) : M B :=
  λ w, let '(a, w1, t1) := m w in
       let '(b, w2, t2) := k a w1 in
       (b, w2, t1 ++ t2).
Definition emit (e : event) : M unit := λ w, (tt, w, [e]).
Definition peek {A} (f : W → A) : M A := λ w, (f w, w, []).
Definition call {A} (f : W → A * W) (e : A → event) : M A :=
  λ w, let '(a, w') := f w in (a, w', [e a]).
Definition act (f : W → W) (e : event) : M unit :=
  λ w, (tt, f w, [e]).

Notation "x ← y ; z" := (bind y (λ x, z))
  (at level 20, y at level 100, z at level 200, only parsing) : coord_scope.
Notation "y ;; z" := (bind y (λ _, z))
  (at level 100, z at level 200, only parsing, right associativity)
  : coord_scope.
Local Open Scope coord_scope.

Definition q_lock_supported : M bool :=
  call (is_lock_supported env) QueryLockSupported.
Definition q_lock_owner : M bool :=
  call (is_lock_owner env) QueryLockOwner.

(** [prepare_image_update], lines 107-134. *)
Definition prepare_image_update : M Z :=
  present ← peek (image_watcher_present env) ;
  if negb present then ret (- EROFS) else
  supported ← q_lock_supported ;
  if negb supported then ret 0 else
  owner ← q_lock_owner ;
  if owner then ret 0 else
  (* need to upgrade to a write lock *)
  emit OwnerLockPutRead ;;
  emit OwnerLockGetWrite ;;
  owner' ← q_lock_owner ;
  ra ← (if negb owner'
        then r ← call (try_lock env) CallTryLock ;
             acquired ← q_lock_owner ;
             ret (r, acquired)
        else ret (0, false)) ;
  emit OwnerLockPutWrite ;;
  (if snd ra : bool
   then act (flush_async_operations env) CallFlushAsyncOperations
   else ret tt) ;;
  emit OwnerLockGetRead ;;
  ret (fst ra).

(** The [while (is_lock_supported())] loop of
    [invoke_async_request], lines 153-167. *)
Fixpoint lock_loop (fuel : nat) : M loop_exit :=
  match fuel with
  | O => ret Exhausted
  | S fuel' =>
    supported ← q_lock_supported ;
    if negb supported then ret Proceed else
    r ← prepare_image_update ;
    if r <? 0 then ret (Leave (- EROFS)) else
    owner ← q_lock_owner ;
    if owner then ret Proceed else
    r ← call (remote_request env) CallRemoteRequest ;
    if negb (r =? - ETIMEDOUT) && negb (r =? - ERESTART)
    then ret (Leave r)
    else lock_loop fuel'
  end.

(** [invoke_async_request], lines 136-182.  The scoped lockers
    release their lock on every way out of their block.  A run that
    uses up its budget stops where it is: its trace is a prefix of
    the trace of the C function. *)
Fixpoint invoke_async_request (permit_snapshot : bool) (fuel : nat)
  : M outcome :=
  match fuel with
  | O => ret OutOfFuel
  | S fuel' =>
    emit OwnerLockGetRead ;;
    emit SnapLockGetRead ;;
    ro ← peek (read_only env) ;
    sid ← peek (snap_id env) ;
    emit SnapLockPutRead ;;
    if ro || (negb permit_snapshot && negb (sid =? CEPH_NOSNAP))
    then emit OwnerLockPutRead ;; ret (Returned (- EROFS)) else
    present ← peek (image_watcher_present env) ;
    if negb present then ret NullWatcher else
    o ← lock_loop fuel' ;
    match o with
    | Exhausted => ret OutOfFuel
    | Leave r => emit OwnerLockPutRead ;; ret (Returned r)
    | Proceed =>
      r ← call (local_request env true) CallLocalRequest ;
      emit OwnerLockPutRead ;;
      if r <? 0 then ret (Returned r) else
      r ← call (ctx_wait env) CallCtxWait ;
      if r =? - ERESTART
      then invoke_async_request permit_snapshot fuel'
      else ret (Returned r)
    end
  end.

(** [snap_create], lines 580-611. *)
Definition snap_create (snap_name : string) (fuel : nat) : M outcome :=
  ro ← peek (read_only env) ;
  if ro then ret (Returned (- EROFS)) else
  r ← call (ictx_check env) CallIctxCheck ;
  if r <? 0 then ret (Returned r) else
  emit SnapLockGetRead ;;
  sid ← peek (get_snap_id env snap_name) ;
  emit SnapLockPutRead ;;
  if negb (sid =? CEPH_NOSNAP) then ret (Returned (- EEXIST)) else
  o ← invoke_async_request true fuel ;
  match o with
  | Returned r =>
    if (r <? 0) && negb (r =? - EEXIST) then ret (Returned r) else
    emit CallPerfcounterInc ;;
    act (notify_change env) CallNotifyChange ;;
    ret (Returned 0)
  | _ => ret o
  end.

(** [snap_remove], lines 666-707. *)
Definition snap_remove (snap_name : string) (fuel : nat) : M outcome :=
  ro ← peek (read_only env) ;
  if ro then ret (Returned (- EROFS)) else
  r ← call (ictx_check env) CallIctxCheck ;
  if r <? 0 then ret (Returned r) else
  emit SnapLockGetRead ;;
  sid ← peek (get_snap_id env snap_name) ;
  fast_diff_enabled ← peek (features_fast_diff env) ;
  emit SnapLockPutRead ;;
  if sid =? CEPH_NOSNAP then ret (Returned (- ENOENT)) else
  o ← (if fast_diff_enabled : bool
       then
         o ← invoke_async_request true fuel ;
         match o with
         | Returned r =>
           if (r <? 0) && negb (r =? - EEXIST)
           then ret (Some (Returned r)) else ret None
         | _ => ret (Some o)
         end
       else
         emit OwnerLockGetRead ;;
         r ← call (local_request env false) CallHelperNoCtx ;
         emit OwnerLockPutRead ;;
         if r <? 0 then ret (Some (Returned r)) else ret None) ;
  match o with
  | Some out => ret out
  | None =>
    act (notify_change env) CallNotifyChange ;;
    emit CallPerfcounterInc ;;
    ret (Returned 0)
  end.

(** *** Trace monitors *)

Fixpoint run {S : Type} (step : S → event → option S) (s : S)
  (t : list event) : option S :=
  match t with
  | [] => Some s
  | e :: t' =>
    match step s e with
    | Some s' => run step s' t'
    | None => None
    end
  end.

(** The hold monitor: is [owner_lock] held in read mode without
    interruption since its acquisition, and was the last thing the
    thread did to observe itself as the lock owner?  A local request
    dispatched otherwise stops the monitor. *)
Record hold : Type := Hold { held : bool; owner_seen : bool }.

Definition owner_lock_event (e : event) : bool :=
  match e with
  | OwnerLockGetRead | OwnerLockPutRead
  | OwnerLockGetWrite | OwnerLockPutWrite => true
  | _ => false
  end.

Definition hold_step (h : hold) (e : event) : option hold :=
  match e with
  | OwnerLockGetRead => Some (Hold true false)
  | OwnerLockPutRead | OwnerLockGetWrite | OwnerLockPutWrite =>
    Some (Hold false false)
  | QueryLockOwner b => Some (Hold (held h) b)
  | CallLocalRequest _ =>
    if held h && owner_seen h then Some (Hold (held h) false) else None
  | _ => Some (Hold (held h) false)
  end.

(** Every dispatch of the local request comes directly after an
    observation "this client owns the lock", and both lie in one
    read-mode hold of [owner_lock]: no event on that lock between
    the acquisition and the dispatch. *)
Definition dispatch_guarded (t : list event) : Prop :=
  ∀ pre r post, t = pre ++ CallLocalRequest r :: post →
    ∃ pre1 mid,
      pre = pre1 ++ OwnerLockGetRead :: mid ++ [QueryLockOwner true] ∧
      forallb (λ e, negb (owner_lock_event e)) mid = true.

(** The retry monitor.  After a Timeout or Restart answer of the
    remote request the loop condition is evaluated again; after any
    other answer, and after a negative result of the dispatch, the lock
    is released and the function is over; after a Restart outcome of
    the awaited handler the lock is taken again; after any other
    awaited outcome the function is over. *)
Definition retry_signal (r : Z) : bool :=
  (r =? - ETIMEDOUT) || (r =? - ERESTART).

Inductive phase : Type :=
| Running
| Requery
| Releasing (r : Z)
| Reacquire
| Finished (r : Z).

Definition retry_step (p : phase) (e : event) : option phase :=
  match p with
  | Running =>
    match e with
    | CallRemoteRequest r =>
      Some (if retry_signal r then Requery else Releasing r)
    | CallLocalRequest r => Some (if r <? 0 then Releasing r else Running)
    | CallCtxWait r =>
      Some (if r =? - ERESTART then Reacquire else Finished r)
    | _ => Some Running
    end
  | Requery =>
    match e with QueryLockSupported _ => Some Running | _ => None end
  | Releasing r =>
    match e with OwnerLockPutRead => Some (Finished r) | _ => None end
  | Reacquire =>
    match e with OwnerLockGetRead => Some Running | _ => None end
  | Finished _ => None
  end.

Definition ends_well (p : phase) (o : outcome) : Prop :=
  match p with
  | Running => o = OutOfFuel ∨ o = NullWatcher ∨ o = Returned (- EROFS)
  | Requery | Reacquire => o = OutOfFuel
  | Releasing _ => False
  | Finished x => o = Returned x
  end.

(** What is retried and what is returned, read off a trace [t] of
    [invoke_async_request] that ended with [o]. *)
Definition retry_discipline (t : list event) (o : outcome) : Prop :=
  (∀ pre r post, t = pre ++ CallRemoteRequest r :: post →
     if retry_signal r
     then (post = [] ∧ o = OutOfFuel) ∨
          (∃ b post', post = QueryLockSupported b :: post')
     else post = [OwnerLockPutRead] ∧ o = Returned r) ∧
  (∀ pre r post, t = pre ++ CallLocalRequest r :: post → r < 0 →
     post = [OwnerLockPutRead] ∧ o = Returned r) ∧
  (∀ pre r post, t = pre ++ CallCtxWait r :: post →
     if r =? - ERESTART
     then (post = [] ∧ o = OutOfFuel) ∨
          (∃ post', post = OwnerLockGetRead :: post')
     else post = [] ∧ o = Returned r) ∧
  (∀ x, o = Returned x →
     x = - EROFS ∨
     (∃ pre, t = pre ++ [CallRemoteRequest x; OwnerLockPutRead]) ∨
     (∃ pre, t = pre ++ [CallLocalRequest x; OwnerLockPutRead]) ∨
     (∃ pre, t = pre ++ [CallCtxWait x])).

End WithWorld.

(** A world that is a script: every collaborator answers with the next
    number of the list (0 when the list is used up); a query answers
    "yes" on a number other than 0. *)
Definition pop (w : list Z) : Z * list Z :=
  match w with
  | [] => (0, [])
  | x :: w' => (x, w')
  end.

Definition pop_bool (w : list Z) : bool * list Z :=
  match w with
  | [] => (false, [])
  | x :: w' => (negb (x =? 0), w')
  end.

Definition scripted_env (lock_supported fast_diff : bool) (named : Z)
  : @Env (list Z) :=
  {| image_watcher_present := λ _, true;
     read_only := λ _, false;
     snap_id := λ _, CEPH_NOSNAP;
     features_fast_diff := λ _, fast_diff;
     get_snap_id := λ _ _, named;
     is_lock_supported := λ w, (lock_supported, w);
     is_lock_owner := pop_bool;
     try_lock := pop;
     flush_async_operations := λ w, w;
     remote_request := pop;
     local_request := λ _, pop;
     ctx_wait := pop;
     ictx_check := pop;
     notify_change := λ w, w |}.

End Coordinator.


(** ** The device handle, the refresh engine and the parent resolver *)

Module Image.

(** Constants of the headers included by internal.cc: feature bits and
    image flags (include/rbd/features.h, include/rbd/librbd.h),
    protection states (cls/rbd/cls_rbd.h), lock types (cls/lock) and
    read flags (librados). *)
Definition RBD_FEATURE_LAYERING : Z := 1.
Definition RBD_FEATURE_FAST_DIFF : Z := 16.
Definition RBD_FEATURES_ALL : Z := 31.
Definition RBD_FLAG_OBJECT_MAP_INVALID : Z := 1.
Definition RBD_FLAG_FAST_DIFF_INVALID : Z := 2.
Definition RBD_PROTECTION_STATUS_UNPROTECTED : Z := 0.
Definition RBD_PROTECTION_STATUS_UNPROTECTING : Z := 1.
Definition RBD_PROTECTION_STATUS_PROTECTED : Z := 2.
Definition LOCK_NONE : Z := 0.
Definition LOCK_EXCLUSIVE : Z := 1.
Definition OPERATION_BALANCE_READS : Z := 1.
Definition OPERATION_LOCALIZE_READS : Z := 2.
Definition CEPH_MAXSNAP : Z := 18446744073709551613.

(** [has_parent], lines 228-231. *)
Definition has_parent (parent_pool_id off overlap : Z) : bool :=
  negb (parent_pool_id =? -1) && (off <=? overlap).

(** *** Data model (librbd/parent_types.h, librbd/SnapInfo.h,
    librbd/ImageCtx.h) *)

Record parent_spec : Type := ParentSpec {
  pool_id : Z;
  image_id : string;
  spec_snap_id : Z
}.

Global Instance parent_spec_eq_dec : EqDecision parent_spec.
Proof. solve_decision. Defined.

Record parent_info : Type := ParentInfo {
  spec : parent_spec;
  overlap : Z
}.

(** A default-constructed [parent_info]: no parent. *)
Definition no_parent : parent_info :=
  ParentInfo (ParentSpec (-1) "" CEPH_NOSNAP) 0.

Record SnapInfo : Type := mkSnapInfo {
  si_name : string;
  si_size : Z;
  si_parent : parent_info;
  si_protection_status : Z;
  si_flags : Z
}.

Record SnapContext : Type := mkSnapContext {
  seq : Z;
  snapc_snaps : list Z
}.

Record rbd_obj_header_ondisk : Type := mkHeader {
  image_size : Z;
  options_order : Z;
  block_name : string
}.

(** The fields of [ImageCtx] that internal.cc reads or writes in the
    functions embedded below.  [md_ctx] stands for [md_ctx.get_id()],
    the pool of the image; [object_cacher] and [image_watcher] tell
    whether the pointer is set. *)
#[warnings="-register-all"]
Inductive ImageCtx : Type := mkImageCtx {
  md_ctx : Z;
  id : string;
  header_oid : string;
  old_format : bool;
  read_only : bool;
  read_flags : Z;
  balance_parent_reads : bool;
  localize_parent_reads : bool;
  object_cacher : bool;
  image_watcher : bool;
  header : rbd_obj_header_ondisk;
  order : Z;
  object_prefix : string;
  size : Z;
  features : Z;
  flags : Z;
  lockers : list string;
  exclusive_locked : bool;
  lock_tag : string;
  snapc : SnapContext;
  snaps : list Z;
  snap_info : gmap Z SnapInfo;
  snap_ids : gmap string Z;
  parent_md : parent_info;
  parent : option ImageCtx;
  snap_id : Z;
  snap_name : string;
  snap_exists : bool;
  last_refresh : Z;
  refresh_seq : Z
}.

(** *** The object store as the handle reads it

    The calls of cls_client, librados and the members of [ImageCtx]
    that talk to the cluster, as functions of what they are asked.  A
    value of [Cluster] is one state of the shared records: as long as
    nobody writes, every call answers the same. *)

Record mutable_metadata : Type := mkMutableMetadata {
  mm_size : Z;
  mm_features : Z;
  mm_incompatible_features : Z;
  mm_lockers : list string;
  mm_exclusive_locked : bool;
  mm_lock_tag : string;
  mm_snapc : SnapContext;
  mm_parent_md : parent_info
}.

Record init_result : Type := mkInitResult {
  ir_id : string;
  ir_old_format : bool;
  ir_header_oid : string;
  ir_object_prefix : string;
  ir_order : Z;
  ir_object_cacher : bool
}.

Record Cluster : Type := {
  (* Rados *)
  pool_reverse_lookup : Z → Z * string;
  ioctx_create : string → Z * Z;
  (* ImageCtx::init and ImageCtx::register_watch, by pool and image id *)
  init : Z → string → Z * init_result;
  register_watch : Z → string → Z;
  (* header reads, by pool and header object *)
  read_header : Z → string → Z * rbd_obj_header_ondisk;
  old_snapshot_list : Z → string → Z * (list string * list Z * SnapContext);
  get_lock_info : Z → string → Z * (list string * Z * string);
  get_mutable_metadata : Z → string → bool → Z * mutable_metadata;
  get_flags : Z → string → list Z → Z * (Z * list Z);
  snapshot_list :
    Z → string → list Z →
    Z * (list string * list Z * list parent_info * list Z);
  (* flushing buffered writes (flush_cache, aio_flush, shutdown_cache) *)
  flush_writes : Z → string → Z;
  (* the image watcher of an open handle *)
  watcher_is_lock_supported : Z → string → bool;
  watcher_is_lock_owner : Z → string → bool;
  watcher_unlock : Z → string → Z;
  (* try_lock: its result, and whether the lock is owned afterwards *)
  watcher_try_lock : Z → string → Z * bool;
  (* what snap_rollback asks for once its guards are passed *)
  invalidate_object_cache : Z → string → Z;
  resize_to : Z → string → Z → Z;
  rollback_objects : Z → string → Z → Z
}.

(** What a call does besides changing the handle. *)
Inductive action : Type :=
| NewImageCtx (pool : Z) (image : string)
| DeleteImageCtx (pool : Z) (image : string)
| Flush
| Quiesce
| ClearNonexistenceCache
| ObjectMapRefresh (snap : Z)
| SnapSetRead (snap : Z)
| SetWriteCtx (s : Z) (snaps : list Z)
| InitLayout
| PrepareUnlock
| Unlock (r : Z)
| UnregisterWatch
| InvalidateCache
| Resize (new_size : Z)
| RollbackImage (snap : Z)
| NotifyChange.

Global Instance action_eq_dec : EqDecision action.
Proof. solve_decision. Defined.

(** Handles allocated minus handles deleted. *)
Fixpoint live (l : list action) : Z :=
  match l with
  | [] => 0
  | NewImageCtx _ _ :: l' => 1 + live l'
  | DeleteImageCtx _ _ :: l' => live l' - 1
  | _ :: l' => live l'
  end.

(** *** Updating the handle *)

Definition set_lockers (v : list string) (i : ImageCtx) : ImageCtx :=
  {| md_ctx := md_ctx i; id := id i; header_oid := header_oid i;
     old_format := old_format i; read_only := read_only i;
     read_flags := read_flags i;
     balance_parent_reads := balance_parent_reads i;
     localize_parent_reads := localize_parent_reads i;
     object_cacher := object_cacher i; image_watcher := image_watcher i;
     header := header i; order := order i; object_prefix := object_prefix i;
     size := size i; features := features i; flags := flags i; lockers := v;
     exclusive_locked := exclusive_locked i; lock_tag := lock_tag i;
     snapc := snapc i; snaps := snaps i; snap_info := snap_info i;
     snap_ids := snap_ids i; parent_md := parent_md i; parent := parent i;
     snap_id := snap_id i; snap_name := snap_name i;
     snap_exists := snap_exists i; last_refresh := last_refresh i;
     refresh_seq := refresh_seq i |}.

Definition set_header (v : rbd_obj_header_ondisk) (i : ImageCtx) : ImageCtx :=
  {| md_ctx := md_ctx i; id := id i; header_oid := header_oid i;
     old_format := old_format i; read_only := read_only i;
     read_flags := read_flags i;
     balance_parent_reads := balance_parent_reads i;
     localize_parent_reads := localize_parent_reads i;
     object_cacher := object_cacher i; image_watcher := image_watcher i;
     header := v; order := order i; object_prefix := object_prefix i;
     size := size i; features := features i; flags := flags i;
     lockers := lockers i; exclusive_locked := exclusive_locked i;
     lock_tag := lock_tag i; snapc := snapc i; snaps := snaps i;
     snap_info := snap_info i; snap_ids := snap_ids i;
     parent_md := parent_md i; parent := parent i; snap_id := snap_id i;
     snap_name := snap_name i; snap_exists := snap_exists i;
     last_refresh := last_refresh i; refresh_seq := refresh_seq i |}.

(** The outputs of [get_lock_info] other than the lock type. *)
Definition set_lock_info (l : list string) (tag : string) (i : ImageCtx) : ImageCtx :=
  {| md_ctx := md_ctx i; id := id i; header_oid := header_oid i;
     old_format := old_format i; read_only := read_only i;
     read_flags := read_flags i;
     balance_parent_reads := balance_parent_reads i;
     localize_parent_reads := localize_parent_reads i;
     object_cacher := object_cacher i; image_watcher := image_watcher i;
     header := header i; order := order i; object_prefix := object_prefix i;
     size := size i; features := features i; flags := flags i; lockers := l;
     exclusive_locked := exclusive_locked i; lock_tag := tag;
     snapc := snapc i; snaps := snaps i; snap_info := snap_info i;
     snap_ids := snap_ids i; parent_md := parent_md i; parent := parent i;
     snap_id := snap_id i; snap_name := snap_name i;
     snap_exists := snap_exists i; last_refresh := last_refresh i;
     refresh_seq := refresh_seq i |}.

Definition set_old_format_cache (excl : bool) (o : Z) (sz : Z) (prefix : string) (i : ImageCtx) : ImageCtx :=
  {| md_ctx := md_ctx i; id := id i; header_oid := header_oid i;
     old_format := old_format i; read_only := read_only i;
     read_flags := read_flags i;
     balance_parent_reads := balance_parent_reads i;
     localize_parent_reads := localize_parent_reads i;
     object_cacher := object_cacher i; image_watcher := image_watcher i;
     header := header i; order := o; object_prefix := prefix; size := sz;
     features := features i; flags := flags i; lockers := lockers i;
     exclusive_locked := excl; lock_tag := lock_tag i; snapc := snapc i;
     snaps := snaps i; snap_info := snap_info i; snap_ids := snap_ids i;
     parent_md := parent_md i; parent := parent i; snap_id := snap_id i;
     snap_name := snap_name i; snap_exists := snap_exists i;
     last_refresh := last_refresh i; refresh_seq := refresh_seq i |}.

(** The outputs of [get_mutable_metadata] that point into the handle. *)
Definition set_mutable_metadata (mm : mutable_metadata) (i : ImageCtx) : ImageCtx :=
  {| md_ctx := md_ctx i; id := id i; header_oid := header_oid i;
     old_format := old_format i; read_only := read_only i;
     read_flags := read_flags i;
     balance_parent_reads := balance_parent_reads i;
     localize_parent_reads := localize_parent_reads i;
     object_cacher := object_cacher i; image_watcher := image_watcher i;
     header := header i; order := order i; object_prefix := object_prefix i;
     size := mm_size mm; features := mm_features mm; flags := flags i;
     lockers := mm_lockers mm; exclusive_locked := mm_exclusive_locked mm;
     lock_tag := mm_lock_tag mm; snapc := snapc i; snaps := snaps i;
     snap_info := snap_info i; snap_ids := snap_ids i;
     parent_md := mm_parent_md mm; parent := parent i; snap_id := snap_id i;
     snap_name := snap_name i; snap_exists := snap_exists i;
     last_refresh := last_refresh i; refresh_seq := refresh_seq i |}.

Definition set_flags (v : Z) (i : ImageCtx) : ImageCtx :=
  {| md_ctx := md_ctx i; id := id i; header_oid := header_oid i;
     old_format := old_format i; read_only := read_only i;
     read_flags := read_flags i;
     balance_parent_reads := balance_parent_reads i;
     localize_parent_reads := localize_parent_reads i;
     object_cacher := object_cacher i; image_watcher := image_watcher i;
     header := header i; order := order i; object_prefix := object_prefix i;
     size := size i; features := features i; flags := v;
     lockers := lockers i; exclusive_locked := exclusive_locked i;
     lock_tag := lock_tag i; snapc := snapc i; snaps := snaps i;
     snap_info := snap_info i; snap_ids := snap_ids i;
     parent_md := parent_md i; parent := parent i; snap_id := snap_id i;
     snap_name := snap_name i; snap_exists := snap_exists i;
     last_refresh := last_refresh i; refresh_seq := refresh_seq i |}.

Definition set_snap_table (s : list Z) (info : gmap Z SnapInfo) (ids : gmap string Z) (i : ImageCtx) : ImageCtx :=
  {| md_ctx := md_ctx i; id := id i; header_oid := header_oid i;
     old_format := old_format i; read_only := read_only i;
     read_flags := read_flags i;
     balance_parent_reads := balance_parent_reads i;
     localize_parent_reads := localize_parent_reads i;
     object_cacher := object_cacher i; image_watcher := image_watcher i;
     header := header i; order := order i; object_prefix := object_prefix i;
     size := size i; features := features i; flags := flags i;
     lockers := lockers i; exclusive_locked := exclusive_locked i;
     lock_tag := lock_tag i; snapc := snapc i; snaps := s;
     snap_info := info; snap_ids := ids; parent_md := parent_md i;
     parent := parent i; snap_id := snap_id i; snap_name := snap_name i;
     snap_exists := snap_exists i; last_refresh := last_refresh i;
     refresh_seq := refresh_seq i |}.

Definition set_parent (v : option ImageCtx) (i : ImageCtx) : ImageCtx :=
  {| md_ctx := md_ctx i; id := id i; header_oid := header_oid i;
     old_format := old_format i; read_only := read_only i;
     read_flags := read_flags i;
     balance_parent_reads := balance_parent_reads i;
     localize_parent_reads := localize_parent_reads i;
     object_cacher := object_cacher i; image_watcher := image_watcher i;
     header := header i; order := order i; object_prefix := object_prefix i;
     size := size i; features := features i; flags := flags i;
     lockers := lockers i; exclusive_locked := exclusive_locked i;
     lock_tag := lock_tag i; snapc := snapc i; snaps := snaps i;
     snap_info := snap_info i; snap_ids := snap_ids i;
     parent_md := parent_md i; parent := v; snap_id := snap_id i;
     snap_name := snap_name i; snap_exists := snap_exists i;
     last_refresh := last_refresh i; refresh_seq := refresh_seq i |}.

Definition set_snapc (v : SnapContext) (i : ImageCtx) : ImageCtx :=
  {| md_ctx := md_ctx i; id := id i; header_oid := header_oid i;
     old_format := old_format i; read_only := read_only i;
     read_flags := read_flags i;
     balance_parent_reads := balance_parent_reads i;
     localize_parent_reads := localize_parent_reads i;
     object_cacher := object_cacher i; image_watcher := image_watcher i;
     header := header i; order := order i; object_prefix := object_prefix i;
     size := size i; features := features i; flags := flags i;
     lockers := lockers i; exclusive_locked := exclusive_locked i;
     lock_tag := lock_tag i; snapc := v; snaps := snaps i;
     snap_info := snap_info i; snap_ids := snap_ids i;
     parent_md := parent_md i; parent := parent i; snap_id := snap_id i;
     snap_name := snap_name i; snap_exists := snap_exists i;
     last_refresh := last_refresh i; refresh_seq := refresh_seq i |}.

Definition set_snap_exists (v : bool) (i : ImageCtx) : ImageCtx :=
  {| md_ctx := md_ctx i; id := id i; header_oid := header_oid i;
     old_format := old_format i; read_only := read_only i;
     read_flags := read_flags i;
     balance_parent_reads := balance_parent_reads i;
     localize_parent_reads := localize_parent_reads i;
     object_cacher := object_cacher i; image_watcher := image_watcher i;
     header := header i; order := order i; object_prefix := object_prefix i;
     size := size i; features := features i; flags := flags i;
     lockers := lockers i; exclusive_locked := exclusive_locked i;
     lock_tag := lock_tag i; snapc := snapc i; snaps := snaps i;
     snap_info := snap_info i; snap_ids := snap_ids i;
     parent_md := parent_md i; parent := parent i; snap_id := snap_id i;
     snap_name := snap_name i; snap_exists := v;
     last_refresh := last_refresh i; refresh_seq := refresh_seq i |}.

Definition set_snap_name (v : string) (i : ImageCtx) : ImageCtx :=
  {| md_ctx := md_ctx i; id := id i; header_oid := header_oid i;
     old_format := old_format i; read_only := read_only i;
     read_flags := read_flags i;
     balance_parent_reads := balance_parent_reads i;
     localize_parent_reads := localize_parent_reads i;
     object_cacher := object_cacher i; image_watcher := image_watcher i;
     header := header i; order := order i; object_prefix := object_prefix i;
     size := size i; features := features i; flags := flags i;
     lockers := lockers i; exclusive_locked := exclusive_locked i;
     lock_tag := lock_tag i; snapc := snapc i; snaps := snaps i;
     snap_info := snap_info i; snap_ids := snap_ids i;
     parent_md := parent_md i; parent := parent i; snap_id := snap_id i;
     snap_name := v; snap_exists := snap_exists i;
     last_refresh := last_refresh i; refresh_seq := refresh_seq i |}.

Definition set_view (sid : Z) (sname : string) (ex : bool) (i : ImageCtx) : ImageCtx :=
  {| md_ctx := md_ctx i; id := id i; header_oid := header_oid i;
     old_format := old_format i; read_only := read_only i;
     read_flags := read_flags i;
     balance_parent_reads := balance_parent_reads i;
     localize_parent_reads := localize_parent_reads i;
     object_cacher := object_cacher i; image_watcher := image_watcher i;
     header := header i; order := order i; object_prefix := object_prefix i;
     size := size i; features := features i; flags := flags i;
     lockers := lockers i; exclusive_locked := exclusive_locked i;
     lock_tag := lock_tag i; snapc := snapc i; snaps := snaps i;
     snap_info := snap_info i; snap_ids := snap_ids i;
     parent_md := parent_md i; parent := parent i; snap_id := sid;
     snap_name := sname; snap_exists := ex; last_refresh := last_refresh i;
     refresh_seq := refresh_seq i |}.

Definition set_last_refresh (v : Z) (i : ImageCtx) : ImageCtx :=
  {| md_ctx := md_ctx i; id := id i; header_oid := header_oid i;
     old_format := old_format i; read_only := read_only i;
     read_flags := read_flags i;
     balance_parent_reads := balance_parent_reads i;
     localize_parent_reads := localize_parent_reads i;
     object_cacher := object_cacher i; image_watcher := image_watcher i;
     header := header i; order := order i; object_prefix := object_prefix i;
     size := size i; features := features i; flags := flags i;
     lockers := lockers i; exclusive_locked := exclusive_locked i;
     lock_tag := lock_tag i; snapc := snapc i; snaps := snaps i;
     snap_info := snap_info i; snap_ids := snap_ids i;
     parent_md := parent_md i; parent := parent i; snap_id := snap_id i;
     snap_name := snap_name i; snap_exists := snap_exists i;
     last_refresh := v; refresh_seq := refresh_seq i |}.

Definition set_refresh_seq (v : Z) (i : ImageCtx) : ImageCtx :=
  {| md_ctx := md_ctx i; id := id i; header_oid := header_oid i;
     old_format := old_format i; read_only := read_only i;
     read_flags := read_flags i;
     balance_parent_reads := balance_parent_reads i;
     localize_parent_reads := localize_parent_reads i;
     object_cacher := object_cacher i; image_watcher := image_watcher i;
     header := header i; order := order i; object_prefix := object_prefix i;
     size := size i; features := features i; flags := flags i;
     lockers := lockers i; exclusive_locked := exclusive_locked i;
     lock_tag := lock_tag i; snapc := snapc i; snaps := snaps i;
     snap_info := snap_info i; snap_ids := snap_ids i;
     parent_md := parent_md i; parent := parent i; snap_id := snap_id i;
     snap_name := snap_name i; snap_exists := snap_exists i;
     last_refresh := last_refresh i; refresh_seq := v |}.

Definition set_read_flags (v : Z) (i : ImageCtx) : ImageCtx :=
  {| md_ctx := md_ctx i; id := id i; header_oid := header_oid i;
     old_format := old_format i; read_only := read_only i; read_flags := v;
     balance_parent_reads := balance_parent_reads i;
     localize_parent_reads := localize_parent_reads i;
     object_cacher := object_cacher i; image_watcher := image_watcher i;
     header := header i; order := order i; object_prefix := object_prefix i;
     size := size i; features := features i; flags := flags i;
     lockers := lockers i; exclusive_locked := exclusive_locked i;
     lock_tag := lock_tag i; snapc := snapc i; snaps := snaps i;
     snap_info := snap_info i; snap_ids := snap_ids i;
     parent_md := parent_md i; parent := parent i; snap_id := snap_id i;
     snap_name := snap_name i; snap_exists := snap_exists i;
     last_refresh := last_refresh i; refresh_seq := refresh_seq i |}.

Definition set_image_watcher (v : bool) (i : ImageCtx) : ImageCtx :=
  {| md_ctx := md_ctx i; id := id i; header_oid := header_oid i;
     old_format := old_format i; read_only := read_only i;
     read_flags := read_flags i;
     balance_parent_reads := balance_parent_reads i;
     localize_parent_reads := localize_parent_reads i;
     object_cacher := object_cacher i; image_watcher := v;
     header := header i; order := order i; object_prefix := object_prefix i;
     size := size i; features := features i; flags := flags i;
     lockers := lockers i; exclusive_locked := exclusive_locked i;
     lock_tag := lock_tag i; snapc := snapc i; snaps := snaps i;
     snap_info := snap_info i; snap_ids := snap_ids i;
     parent_md := parent_md i; parent := parent i; snap_id := snap_id i;
     snap_name := snap_name i; snap_exists := snap_exists i;
     last_refresh := last_refresh i; refresh_seq := refresh_seq i |}.

(** What [ImageCtx::init] fills in. *)
Definition set_init (r : init_result) (i : ImageCtx) : ImageCtx :=
  {| md_ctx := md_ctx i; id := ir_id r; header_oid := ir_header_oid r;
     old_format := ir_old_format r; read_only := read_only i;
     read_flags := read_flags i;
     balance_parent_reads := balance_parent_reads i;
     localize_parent_reads := localize_parent_reads i;
     object_cacher := ir_object_cacher r; image_watcher := image_watcher i;
     header := header i; order := ir_order r;
     object_prefix := ir_object_prefix r; size := size i;
     features := features i; flags := flags i; lockers := lockers i;
     exclusive_locked := exclusive_locked i; lock_tag := lock_tag i;
     snapc := snapc i; snaps := snaps i; snap_info := snap_info i;
     snap_ids := snap_ids i; parent_md := parent_md i; parent := parent i;
     snap_id := snap_id i; snap_name := snap_name i;
     snap_exists := snap_exists i; last_refresh := last_refresh i;
     refresh_seq := refresh_seq i |}.

(** *** Members of [ImageCtx]

    Modelled from the spec: librbd/ImageCtx.cc is not part of the
    sources at hand.  The snapshot table maps ids to records and names
    to ids ("lookup is by name or id"), and a linkage with pool -1 is
    "no parent". *)

Definition get_snap_id (in_snap_name : string) (i : ImageCtx) : Z :=
  default CEPH_NOSNAP (snap_ids i !! in_snap_name).

Definition get_snap_info (in_snap_id : Z) (i : ImageCtx) : option SnapInfo :=
  snap_info i !! in_snap_id.

Definition get_snap_name (in_snap_id : Z) (i : ImageCtx) : Z * string :=
  match get_snap_info in_snap_id i with
  | Some info => (0, si_name info)
  | None => (- ENOENT, "")
  end.

Definition get_image_size (in_snap_id : Z) (i : ImageCtx) : Z :=
  if in_snap_id =? CEPH_NOSNAP then size i
  else match get_snap_info in_snap_id i with
       | Some info => si_size info
       | None => 0
       end.

Definition get_parent_info (in_snap_id : Z) (i : ImageCtx)
  : option parent_info :=
  if in_snap_id =? CEPH_NOSNAP then Some (parent_md i)
  else si_parent <$> get_snap_info in_snap_id i.

Definition get_parent_pool_id (in_snap_id : Z) (i : ImageCtx) : Z :=
  match get_parent_info in_snap_id i with
  | Some info => pool_id (spec info)
  | None => -1
  end.

Definition get_parent_image_id (in_snap_id : Z) (i : ImageCtx) : string :=
  match get_parent_info in_snap_id i with
  | Some info => image_id (spec info)
  | None => ""
  end.

Definition get_parent_snap_id (in_snap_id : Z) (i : ImageCtx) : Z :=
  match get_parent_info in_snap_id i with
  | Some info => spec_snap_id (spec info)
  | None => CEPH_NOSNAP
  end.

(** Result and, on success, the overlap. *)
Definition get_parent_overlap (in_snap_id : Z) (i : ImageCtx) : Z * Z :=
  match get_parent_info in_snap_id i with
  | Some info => (0, overlap info)
  | None => (- ENOENT, 0)
  end.

Definition get_parent_spec (in_snap_id : Z) (i : ImageCtx)
  : Z * parent_spec :=
  match get_parent_info in_snap_id i with
  | Some info => (0, spec info)
  | None => (- ENOENT, spec no_parent)
  end.

Definition is_snap_protected (in_snap_id : Z) (i : ImageCtx) : Z * bool :=
  match get_snap_info in_snap_id i with
  | Some info =>
    (0, si_protection_status info =? RBD_PROTECTION_STATUS_PROTECTED)
  | None => (- ENOENT, false)
  end.

Definition is_snap_unprotected (in_snap_id : Z) (i : ImageCtx) : Z * bool :=
  match get_snap_info in_snap_id i with
  | Some info =>
    (0, si_protection_status info =? RBD_PROTECTION_STATUS_UNPROTECTED)
  | None => (- ENOENT, false)
  end.

(** [std::map::insert] keeps the binding that is already there. *)
Definition add_snap (in_snap_name : string) (id : Z) (in_size : Z)
  (parent : parent_info) (protection_status : Z) (flags : Z)
  (i : ImageCtx) : ImageCtx :=
  set_snap_table
    (snaps i ++ [id])
    (snap_info i ∪
       {[ id := mkSnapInfo in_snap_name in_size parent protection_status
                  flags ]})
    (snap_ids i ∪ {[ in_snap_name := id ]})
    i.

Definition rm_snap (in_snap_name : string) (id : Z) (i : ImageCtx)
  : ImageCtx :=
  set_snap_table
    (filter (λ s, s ≠ id) (snaps i))
    (delete id (snap_info i))
    (delete in_snap_name (snap_ids i))
    i.

(** [SnapContext::is_valid]: the sequence number is a snapshot id and
    not below the first id, and the ids are strictly descending. *)
Fixpoint descending (t : Z) (l : list Z) : bool :=
  match l with
  | [] => true
  | s :: l' => negb ((t <=? s) || (t =? 0)) && descending s l'
  end.

Definition is_valid (sc : SnapContext) : bool :=
  if CEPH_MAXSNAP <? seq sc then false
  else match snapc_snaps sc with
       | [] => true
       | s0 :: rest => negb (seq sc <? s0) && descending s0 rest
       end.

(** *** Handle state, log of actions, bounded recursion

    A computation works on one handle, appends to the log, and has no
    result ([None]) when the budget of the model is used up or when it
    is asked to work on a parent handle that is not installed. *)

Definition M (A : Type) : Type :=
  ImageCtx → option (A * ImageCtx * list action).

Definition ret {A} (a : A) : M A := λ i, Some (a, i, []).

Definition bind {A B} (m : M A) (k : A → M B) : M B :=
  λ i, match m i with
       | None => None
       | Some (a, i1, l1) =>
         match k a i1 with
         | None => None
         | Some (b, i2, l2) => Some (b, i2, l1 ++ l2)
         end
       end.

Definition get {A} (f : ImageCtx → A) : M A := λ i, Some (f i, i, []).
Definition modify (f : ImageCtx → ImageCtx) : M unit :=
  λ i, Some (tt, f i, []).
Definition log (a : action) : M unit := λ i, Some (tt, i, [a]).
Definition stuck {A} : M A := λ _, None.

(** [f(ictx->parent)]: run [m] on the installed parent handle. *)
Definition on_parent {A} (m : M A) : M A :=
  λ i, match parent i with
       | None => None
       | Some p =>
         match m p with
         | None => None
         | Some (a, p', l) => Some (a, set_parent (Some p') i, l)
         end
       end.

Declare Scope img_scope.
Notation "x ← y ; z" := (bind y (λ x, z))
  (at level 20, y at level 100, z at level 200, only parsing) : img_scope.
Notation "y ;; z" := (bind y (λ _, z))
  (at level 100, z at level 200, only parsing, right associativity)
  : img_scope.
Local Open Scope img_scope.

(** [ImageCtx::snap_set] and [ImageCtx::snap_unset].
    Modelled from the spec: select a live snapshot by name as the
    active view, or go back to the live view. *)
Definition ImageCtx_snap_set (in_snap_name : string) : M Z :=
  in_snap_id ← get (get_snap_id in_snap_name) ;
  if negb (in_snap_id =? CEPH_NOSNAP) then
    modify (set_view in_snap_id in_snap_name true) ;;
    log (SnapSetRead in_snap_id) ;;
    log (ObjectMapRefresh in_snap_id) ;;
    ret 0
  else ret (- ENOENT).

Definition ImageCtx_snap_unset : M unit :=
  modify (set_view CEPH_NOSNAP "" true) ;;
  log (SnapSetRead CEPH_NOSNAP) ;;
  log (ObjectMapRefresh CEPH_NOSNAP).

(** [notify_change], lines 358-371: the handle's own target
    generation moves on, and the peers are told. *)
Definition notify_change : M Z :=
  modify (λ i, set_refresh_seq (refresh_seq i + 1) i) ;;
  log NotifyChange ;;
  ret 0.

(** The locals of [ictx_refresh] that the header reads fill. *)
Record refresh_locals : Type := mkLocals {
  new_snapc : SnapContext;
  snap_names : list string;
  snap_sizes : list Z;
  snap_parents : list parent_info;
  snap_protection : list Z;
  snap_flags : list Z
}.

Section WithCluster.
Variable c : Cluster.

(** [_flush], lines 3429-3446. *)
Definition _flush : M Z :=
  pool ← get md_ctx ;
  image ← get id ;
  log Flush ;;
  ret (flush_writes c pool image).

(** The old-format branch of [ictx_refresh], lines 2197-2231.
    [inl r]: the function returns [r]. *)
Definition read_old_format : M (Z + refresh_locals) :=
  pool ← get md_ctx ;
  oid ← get header_oid ;
  let '(r, h) := read_header c pool oid in
  if r <? 0 then ret (inl r) else
  modify (set_header h) ;;
  let '(r, (names, sizes, snapc')) := old_snapshot_list c pool oid in
  if r <? 0 then ret (inl r) else
  let '(r, (lockers', lock_type, tag)) := get_lock_info c pool oid in
  if (r <? 0) && (negb (r =? - EOPNOTSUPP) && negb (r =? - EIO))
  then ret (inl r) else
  let lock_type := if r <? 0 then LOCK_NONE else lock_type in
  (if r <? 0 then ret tt else modify (set_lock_info lockers' tag)) ;;
  modify (set_old_format_cache (lock_type =? LOCK_EXCLUSIVE)
            (options_order h) (image_size h) (block_name h)) ;;
  log InitLayout ;;
  ret (inr (mkLocals snapc' names sizes [] [] [])).

(** The [do ... while (r == -ENOENT)] loop of [ictx_refresh], lines
    2233-2292. *)
Fixpoint read_new_format (fuel : nat) : M (Z + refresh_locals) :=
  match fuel with
  | O => stuck
  | S fuel' =>
    pool ← get md_ctx ;
    oid ← get header_oid ;
    ro ← get (λ i, read_only i || negb (snap_id i =? CEPH_NOSNAP)) ;
    let '(r, mm) := get_mutable_metadata c pool oid ro in
    if r <? 0 then ret (inl r) else
    modify (set_mutable_metadata mm) ;;
    let snapc' := mm_snapc mm in
    let unsupported :=
      Z.land (mm_incompatible_features mm) (Z.lnot RBD_FEATURES_ALL) in
    if negb (unsupported =? 0) then ret (inl (- ENOSYS)) else
    let finish (sf : list Z) : M (Z + refresh_locals) :=
      let '(r, (names, sizes, parents, protection)) :=
        snapshot_list c pool oid (snapc_snaps snapc') in
      (* -ENOENT here means we raced with snapshot deletion *)
      if (r <? 0) && negb (r =? - ENOENT) then ret (inl r) else
      if r =? - ENOENT then read_new_format fuel' else
      ret (inr (mkLocals snapc' names sizes parents protection sf)) in
    let '(r, (flags', snap_flags')) :=
      get_flags c pool oid (snapc_snaps snapc') in
    if (r =? - EOPNOTSUPP) || (r =? - EIO) then
      (* older OSD: assume the worst *)
      feat ← get features ;
      let fl :=
        if negb (Z.land feat RBD_FEATURE_FAST_DIFF =? 0)
        then Z.lor RBD_FLAG_OBJECT_MAP_INVALID RBD_FLAG_FAST_DIFF_INVALID
        else RBD_FLAG_OBJECT_MAP_INVALID in
      modify (set_flags fl) ;;
      finish (replicate (length (snapc_snaps snapc')) fl)
    else if r =? - ENOENT then read_new_format fuel'
    else if r <? 0 then ret (inl r)
    else
      modify (set_flags flags') ;;
      finish snap_flags'
  end.

(** The loop of lines 2313-2322: one [add_snap] per id of the new
    snapshot context, with the entries of the vectors at its index. *)
Definition add_snaps (old : bool) (loc : refresh_locals) (i : ImageCtx)
  : ImageCtx :=
  foldl
    (λ i k,
       let flags := if old then 0 else nth k (snap_flags loc) 0 in
       let protection_status :=
         if old then RBD_PROTECTION_STATUS_UNPROTECTED
         else nth k (snap_protection loc) 0 in
       let parent :=
         if old then no_parent else nth k (snap_parents loc) no_parent in
       add_snap (nth k (snap_names loc) "") (nth k (snapc_snaps (new_snapc loc)) 0)
                (nth k (snap_sizes loc) 0) parent protection_status flags i)
    i (List.seq 0 (length (snapc_snaps (new_snapc loc)))).

End WithCluster.

(** [new ImageCtx("", image_id, NULL, p_ioctx, true)]: the handle the
    constructor returns for a parent, opened read-only by id.
    Modelled from the spec: a handle starts on the live view, with an
    empty snapshot table, no parent linkage and both generation
    counters equal. *)
Definition new_ImageCtx (image : string) (p_ioctx : Z) (ro : bool)
  : ImageCtx :=
  {| md_ctx := p_ioctx; id := image; header_oid := ""; old_format := false;
     read_only := ro; read_flags := 0; balance_parent_reads := false;
     localize_parent_reads := false; object_cacher := false;
     image_watcher := false; header := mkHeader 0 0 ""; order := 0;
     object_prefix := ""; size := 0; features := 0; flags := 0;
     lockers := []; exclusive_locked := false; lock_tag := "";
     snapc := mkSnapContext 0 []; snaps := []; snap_info := ∅;
     snap_ids := ∅; parent_md := no_parent; parent := None;
     snap_id := CEPH_NOSNAP; snap_name := ""; snap_exists := true;
     last_refresh := 0; refresh_seq := 0 |}.

(** The functions that call each other along the chain of parents:
    [open_parent] opens the parent with [open_image], which refreshes
    it, which opens the parent's parent; [close_image] flushes, which
    may refresh.  Here they are written with the calls that go one
    handle up the chain ([open_parent], and [close_image] of a handle)
    as parameters; the budgeted functions below tie the knot. *)
Module Body.
Section Knot.
Variable c : Cluster.
Variable open_parent : M Z.
Variable close_image : ImageCtx → option (Z * list action).

(** [close_image(h)] for a handle [h] that is not the state. *)
Definition close_handle (h : ImageCtx) : M Z :=
  λ i, match close_image h with
       | None => None
       | Some (r, l) => Some (r, i, l)
       end.

(** [close_image(ictx->parent)]; the pointer is left as it is. *)
Definition close_parent : M Z :=
  p ← get parent ;
  match p with
  | Some p' => close_handle p'
  | None => stuck
  end.

(** [refresh_parent], lines 2132-2167. *)
Definition refresh_parent : M Z :=
  (* close the parent if it changed or this image no longer needs
     to read from it *)
  p ← get parent ;
  early ←
    match p with
    | Some p' =>
      sid ← get snap_id ;
      ro ← get (get_parent_overlap sid) ;
      let '(r, overlap) := ro in
      if (r <? 0) && negb (r =? - ENOENT) then ret (Some r) else
      pool ← get (get_parent_pool_id sid) ;
      image ← get (get_parent_image_id sid) ;
      psnap ← get (get_parent_snap_id sid) ;
      if (r =? - ENOENT) || (overlap =? 0) ||
         negb (md_ctx p' =? pool) ||
         negb (String.eqb (id p') image) ||
         negb (snap_id p' =? psnap)
      then
        log ClearNonexistenceCache ;;
        close_parent ;;
        modify (set_parent None) ;;
        ret None
      else ret None
    | None => ret None
    end ;
  match early with
  | Some r => ret r
  | None =>
    sid ← get snap_id ;
    pool ← get (get_parent_pool_id sid) ;
    p ← get parent ;
    if (-1 <? pool) && negb (bool_decide (is_Some p)) then
      r ← open_parent ;
      if r <? 0 then ret r else ret 0
    else ret 0
  end.

(** [ictx_refresh], lines 2169-2357. *)
Definition ictx_refresh (fuel : nat) : M Z :=
  refresh_seq' ← get refresh_seq ;
  modify (set_lockers []) ;;
  old ← get old_format ;
  rd ← (if old then read_old_format c else read_new_format c fuel) ;
  match rd with
  | inl r => ret r
  | inr loc =>
    prev ← get snaps ;
    let new_snap :=
      existsb (λ s, negb (bool_decide (s ∈ prev)))
              (snapc_snaps (new_snapc loc)) in
    modify (set_snap_table [] ∅ ∅) ;;
    modify (add_snaps old loc) ;;
    r ← refresh_parent ;
    if r <? 0 then ret r else
    if negb (is_valid (new_snapc loc)) then ret (- EIO) else
    modify (set_snapc (new_snapc loc)) ;;
    sid ← get snap_id ;
    sname ← get snap_name ;
    found ← get (get_snap_id sname) ;
    (if negb (sid =? CEPH_NOSNAP) && negb (found =? sid)
     then modify (set_snap_exists false) else ret tt) ;;
    log (ObjectMapRefresh sid) ;;
    sc ← get snapc ;
    sn ← get snaps ;
    log (SetWriteCtx (seq sc) sn) ;;
    (if new_snap then _flush c ;; ret tt else ret tt) ;;
    modify (set_last_refresh refresh_seq') ;;
    ret 0
  end.

(** [ictx_check], lines 2106-2130.  [owner_locked] only decides who
    takes [owner_lock]. *)
Definition ictx_check (owner_locked : bool) (fuel : nat) : M Z :=
  last ← get last_refresh ;
  target ← get refresh_seq ;
  let needs_refresh := negb (last =? target) in
  if needs_refresh then
    r ← ictx_refresh fuel ;
    if r <? 0 then ret r else ret 0
  else ret 0.

(** [flush], lines 3410-3427. *)
Definition flush (fuel : nat) : M Z :=
  r ← ictx_check false fuel ;
  if r <? 0 then ret r else
  _flush c.

(** [close_image], lines 2709-2771, on the handle that is the state;
    the handle is gone afterwards. *)
Definition close_image_body (fuel : nat) : M Z :=
  pool ← get md_ctx ;
  image ← get id ;
  w ← get image_watcher ;
  (if w && watcher_is_lock_owner c pool image
   then log PrepareUnlock else ret tt) ;;
  log Quiesce ;;
  oc ← get object_cacher ;
  r ← (if oc : bool
       then log Flush ;; ret (flush_writes c pool image)
       else flush fuel) ;
  p ← get parent ;
  r ← match p with
      | Some p' =>
        close_r ← close_handle p' ;
        modify (set_parent None) ;;
        ret (if (r =? 0) && (close_r <? 0) then close_r else r)
      | None => ret r
      end ;
  w ← get image_watcher ;
  r ← (if w : bool then
         r ← (if watcher_is_lock_owner c pool image then
                let unlock_r := watcher_unlock c pool image in
                log (Unlock unlock_r) ;;
                ret (if (unlock_r <? 0) && (r =? 0) then unlock_r else r)
              else ret r) ;
         log UnregisterWatch ;;
         ret r
       else ret r) ;
  log (DeleteImageCtx pool image) ;;
  ret r.

(** [_snap_set], lines 2600-2619. *)
Definition _snap_set (snap_name : string) : M Z :=
  r ← (if negb (String.eqb snap_name "")
       then ImageCtx_snap_set snap_name
       else ImageCtx_snap_unset ;; ret 0) ;
  if r <? 0 then ret r else
  refresh_parent ;;
  ret 0.

(** [open_image], lines 2672-2707.  On every failure the handle is
    closed before the error is returned. *)
Definition open_image (fuel : nat) : M Z :=
  let err_close (r : Z) : M Z :=
    this ← get (λ i, i) ;
    close_handle this ;;
    ret r in
  pool ← get md_ctx ;
  image ← get id ;
  let '(r, ir) := init c pool image in
  if r <? 0 then err_close r else
  modify (set_init ir) ;;
  ro ← get read_only ;
  r ← (if negb ro
       then
         modify (set_image_watcher true) ;;
         image' ← get id ;
         ret (register_watch c pool image')
       else ret r) ;
  if r <? 0 then err_close r else
  r ← ictx_refresh fuel ;
  if r <? 0 then err_close r else
  sname ← get snap_name ;
  r ← _snap_set sname ;
  if r <? 0 then err_close r else
  ret 0.

(** [open_parent], lines 1641-1720.  The assertion on the parent's
    snapshot id stops the program when it fails. *)
Definition open_parent_body (fuel : nat) : M Z :=
  sid ← get snap_id ;
  pool_id ← get (get_parent_pool_id sid) ;
  parent_image_id ← get (get_parent_image_id sid) ;
  parent_snap_id ← get (get_parent_snap_id sid) ;
  if parent_snap_id =? CEPH_NOSNAP then stuck else
  if pool_id <? 0 then ret (- ENOENT) else
  let '(r, pool_name) := pool_reverse_lookup c pool_id in
  if r <? 0 then ret r else
  let '(r, p_ioctx) := ioctx_create c pool_name in
  if r <? 0 then ret r else
  (* since we don't know the image and snapshot name, set their ids and
     reset the snap_name and snap_exists fields after we read the header *)
  modify (set_parent (Some (new_ImageCtx parent_image_id p_ioctx true))) ;;
  log (NewImageCtx p_ioctx parent_image_id) ;;
  (* set rados flags for reading the parent image *)
  balance ← get balance_parent_reads ;
  localize ← get localize_parent_reads ;
  (if balance : bool then
     on_parent (modify (λ p, set_read_flags
                               (Z.lor (read_flags p) OPERATION_BALANCE_READS) p))
   else if localize : bool then
     on_parent (modify (λ p, set_read_flags
                               (Z.lor (read_flags p) OPERATION_LOCALIZE_READS) p))
   else ret tt) ;;
  r ← on_parent (open_image fuel) ;
  if r <? 0 then
    modify (set_parent None) ;;
    ret r
  else
  rn ← on_parent (get (get_snap_name parent_snap_id)) ;
  let '(r, name) := rn in
  if r <? 0 then
    close_parent ;;
    modify (set_parent None) ;;
    ret r
  else
  on_parent (modify (set_snap_name name)) ;;
  on_parent (ImageCtx_snap_set name) ;;
  r ← on_parent refresh_parent ;
  if r <? 0 then
    close_parent ;;
    modify (set_parent None) ;;
    ret r
  else
  ret 0.

End Knot.
End Body.

Section WithCluster.
Variable c : Cluster.

(** One unit of budget for every step up the chain of parents. *)
Fixpoint open_parent (fuel : nat) : M Z :=
  match fuel with
  | O => stuck
  | S fuel' =>
    Body.open_parent_body c (open_parent fuel') (close_image fuel') fuel'
  end
with close_image (fuel : nat) (h : ImageCtx) : option (Z * list action) :=
  match fuel with
  | O => None
  | S fuel' =>
    match Body.close_image_body c (open_parent fuel') (close_image fuel')
            fuel' h with
    | None => None
    | Some (r, _, l) => Some (r, l)
    end
  end.

Definition refresh_parent (fuel : nat) : M Z :=
  Body.refresh_parent (open_parent fuel) (close_image fuel).

Definition ictx_refresh (fuel : nat) : M Z :=
  Body.ictx_refresh c (open_parent fuel) (close_image fuel) fuel.

Definition ictx_check (owner_locked : bool) (fuel : nat) : M Z :=
  Body.ictx_check c (open_parent fuel) (close_image fuel) owner_locked fuel.

Definition open_image (fuel : nat) : M Z :=
  Body.open_image c (open_parent fuel) (close_image fuel) fuel.

(** [snap_is_protected], lines 947-967.  The second component is what
    is stored in [*is_protected]; it is indeterminate ([None]) when
    [is_snap_unprotected] fails and leaves its output unset. *)
Definition snap_is_protected (snap_name : string) (fuel : nat)
  : M (Z * option bool) :=
  r ← ictx_check false fuel ;
  if r <? 0 then ret (r, None) else
  snap_id' ← get (get_snap_id snap_name) ;
  if snap_id' =? CEPH_NOSNAP then ret (- ENOENT, None) else
  ru ← get (is_snap_unprotected snap_id') ;
  let '(r, is_unprotected) := ru in
  (* consider both PROTECTED or UNPROTECTING to be 'protected',
     since in either state they can't be deleted *)
  ret (r, if r <? 0 then None else Some (negb is_unprotected)).

(** [prepare_image_update], lines 107-133, with whether the lock is
    owned when it returns: a handle without a watcher is refused, and
    the lock is tried for when it is supported and not owned. *)
Definition prepare_image_update : M (Z * bool) :=
  pool ← get md_ctx ;
  image ← get id ;
  w ← get image_watcher ;
  if negb w then ret (- EROFS, false) else
  let owner := watcher_is_lock_owner c pool image in
  if negb (watcher_is_lock_supported c pool image) || owner
  then ret (0, owner)
  else
    let '(r, acquired_lock) := watcher_try_lock c pool image in
    (* finish any AIO that was previously waiting on acquiring the
       exclusive lock *)
    (if acquired_lock : bool then log Quiesce else ret tt) ;;
    ret (r, acquired_lock).

(** [snap_rollback], lines 2359-2438. *)
Definition snap_rollback (snap_name : string) (fuel : nat) : M Z :=
  r ← ictx_check false fuel ;
  if r <? 0 then ret r else
  pool ← get md_ctx ;
  image ← get id ;
  ex ← get snap_exists ;
  if negb ex then ret (- ENOENT) else
  sid ← get snap_id ;
  ro ← get read_only ;
  if negb (sid =? CEPH_NOSNAP) || ro then ret (- EROFS) else
  snap_id' ← get (get_snap_id snap_name) ;
  if snap_id' =? CEPH_NOSNAP then ret (- ENOENT) else
  ru ← prepare_image_update ;
  let '(r, owner) := ru in
  if r <? 0 then ret (- EROFS) else
  if watcher_is_lock_supported c pool image && negb owner
  then ret (- EROFS) else
  new_size ← get (get_image_size snap_id') ;
  (* need to flush any pending writes before resizing and rolling back *)
  log Quiesce ;;
  log InvalidateCache ;;
  let r := invalidate_object_cache c pool image in
  if r <? 0 then ret r else
  log (Resize new_size) ;;
  let r := resize_to c pool image new_size in
  if r <? 0 then ret r else
  log (RollbackImage snap_id') ;;
  let r := rollback_objects c pool image snap_id' in
  if r <? 0 then ret r else
  notify_change ;;
  ret r.

End WithCluster.

(** *** An example cluster

    Pool 1 holds the clone "child" with snapshots 5 ("s5", protected)
    and 3 ("s3"); its parent is snapshot 7 of "base" in pool 2
    ("base-pool"), with 64 bytes of overlap.  [base_has_snap] tells
    whether snapshot 7 ("golden") of "base" still exists. *)
Definition demo_parent_md : parent_info :=
  ParentInfo (ParentSpec 2 "base" 7) 64.

Definition demo_cluster (base_has_snap : bool) : Cluster :=
  {| pool_reverse_lookup := λ p,
       if p =? 2 then (0, "base-pool") else (- ENOENT, "");
     ioctx_create := λ n,
       if String.eqb n "base-pool" then (0, 2) else (- ENOENT, 0);
     init := λ _ image,
       (0, mkInitResult image false ("rbd_header." +:+ image) "rbd_data"
             22 false);
     register_watch := λ _ _, 0;
     read_header := λ _ _, (- ENOENT, mkHeader 0 0 "");
     old_snapshot_list := λ _ _, (- ENOENT, ([], [], mkSnapContext 0 []));
     get_lock_info := λ _ _, (0, ([], LOCK_NONE, ""));
     get_mutable_metadata := λ pool _ _,
       if pool =? 1 then
         (0, mkMutableMetadata 100 RBD_FEATURE_LAYERING 0 [] false ""
               (mkSnapContext 5 [5; 3]) demo_parent_md)
       else
         (0, mkMutableMetadata 64 RBD_FEATURE_LAYERING 0 [] false ""
               (mkSnapContext 7 (if base_has_snap then [7] else []))
               no_parent);
     get_flags := λ _ _ snaps, (0, (0, replicate (length snaps) 0));
     snapshot_list := λ pool _ _,
       if pool =? 1 then
         (0, (["s5"; "s3"], [100; 50], [demo_parent_md; demo_parent_md],
              [RBD_PROTECTION_STATUS_PROTECTED;
               RBD_PROTECTION_STATUS_UNPROTECTING]))
       else if base_has_snap then
         (0, (["golden"], [64], [no_parent],
              [RBD_PROTECTION_STATUS_PROTECTED]))
       else (0, ([], [], [], []));
     flush_writes := λ _ _, 0;
     watcher_is_lock_supported := λ _ _, false;
     watcher_is_lock_owner := λ _ _, false;
     watcher_unlock := λ _ _, 0;
     watcher_try_lock := λ _ _, (0, true);
     invalidate_object_cache := λ _ _, 0;
     resize_to := λ _ _ _, 0;
     rollback_objects := λ _ _ _, 0 |}.

(** The handle of "child" as [ImageCtx::init] leaves it, told once
    that the header has changed. *)
Definition demo_child : ImageCtx :=
  set_refresh_seq 1
    (set_init
       (mkInitResult "child" false "rbd_header.child" "rbd_data" 22 false)
       (new_ImageCtx "child" 1 false)).

(** *** Reasoning about handle computations *)

(** Length of the chain of handles that starts at [h]. *)
Fixpoint depth (h : ImageCtx) : Z :=
  match parent h with
  | Some p => 1 + depth p
  | None => 1
  end.

Definition depth_opt (o : option ImageCtx) : Z :=
  match o with
  | Some p => depth p
  | None => 0
  end.

(** No handle of the chain is stale: [ictx_check] finds nothing to do. *)
Fixpoint fresh_chain (h : ImageCtx) : Prop :=
  last_refresh h = refresh_seq h ∧
  match parent h with
  | Some p => fresh_chain p
  | None => True
  end.

(** Weakest precondition: [Q] holds of the result of [m] at [i], if
    there is one. *)
Definition wp {A} (m : M A) (Q : A → ImageCtx → list action → Prop)
  (i : ImageCtx) : Prop :=
  match m i with
  | Some (a, i', l) => Q a i' l
  | None => True
  end.

(** An observation of the handle that does not look at the cached
    header fields. *)
Definition cache_blind {X : Type} (f : ImageCtx → X) : Prop :=
  (∀ v i, f (set_header v i) = f i) ∧
  (∀ l t i, f (set_lock_info l t i) = f i) ∧
  (∀ e o s x i, f (set_old_format_cache e o s x i) = f i) ∧
  (∀ mm i, f (set_mutable_metadata mm i) = f i) ∧
  (∀ v i, f (set_flags v i) = f i).

Definition but_parent (i : ImageCtx) : ImageCtx := set_parent None i.

(** A handle that [op] may have installed: nothing in its chain is
    stale, and the chain is no longer than [n]. *)
Definition good (n : Z) (o : option ImageCtx) : Prop :=
  match o with
  | Some p => fresh_chain p ∧ depth p ≤ n
  | None => True
  end.

Definition op_post (n : Z) (i : ImageCtx) (r : Z) (i' : ImageCtx)
  (l : list action) : Prop :=
  but_parent i' = but_parent i ∧
  live l = depth_opt (parent i') ∧
  (r < 0 → parent i' = None) ∧
  (0 ≤ r → is_Some (parent i')) ∧
  good n (parent i').

(** The fields no function of the refresh engine writes. *)
Definition ident (i : ImageCtx) :=
  (md_ctx i, id i, header_oid i, old_format i, read_only i, read_flags i,
   balance_parent_reads i, localize_parent_reads i, object_cacher i,
   image_watcher i, snap_id i, snap_name i, refresh_seq i).

(** What a refresh does: handles are accounted for, the identity and
    the selected view stay, a view marked as gone stays marked, and on
    success the handle is up to date and a view whose name no longer
    resolves to its id is marked as gone. *)
Definition refresh_post (N : Z) (i : ImageCtx) (r : Z) (i' : ImageCtx)
  (l : list action) : Prop :=
  live l = depth_opt (parent i') - depth_opt (parent i) ∧
  ident i' = ident i ∧
  (snap_exists i = false → snap_exists i' = false) ∧
  (0 ≤ r →
   last_refresh i' = refresh_seq i' ∧
   (snap_id i ≠ CEPH_NOSNAP →
    get_snap_id (snap_name i) i' ≠ snap_id i →
    snap_exists i' = false)) ∧
  (good N (parent i) → good N (parent i')).

(** The staleness gate: a refresh or nothing. *)
Definition check_post (N : Z) (i : ImageCtx) (r : Z) (i' : ImageCtx)
  (l : list action) : Prop :=
  live l = depth_opt (parent i') - depth_opt (parent i) ∧
  ident i' = ident i ∧
  (snap_exists i = false → snap_exists i' = false) ∧
  (0 ≤ r → last_refresh i' = refresh_seq i') ∧
  (good N (parent i) → good N (parent i')) ∧
  (last_refresh i = refresh_seq i → r = 0 ∧ i' = i ∧ l = []).

(** The parent handle that [open_parent] builds: a new handle for the
    parent image on the I/O context of the parent pool, with the read
    flag that the child's configuration asks for. *)
Definition built_parent (i : ImageCtx) (p_ioctx : Z) : ImageCtx :=
  let p := new_ImageCtx (get_parent_image_id (snap_id i) i) p_ioctx true in
  if balance_parent_reads i then
    set_read_flags (Z.lor (read_flags p) OPERATION_BALANCE_READS) p
  else if localize_parent_reads i then
    set_read_flags (Z.lor (read_flags p) OPERATION_LOCALIZE_READS) p
  else p.

(** Where an error [r] returned by [open_parent] on the handle [i]
    comes from.  The steps are taken in order, each on what the steps
    before it produced: the parent pool id of [i], its lookup, the
    creation of the I/O context, [open_image] on the handle built for
    the parent, [get_snap_name] on the handle that [open_image] left,
    [refresh_parent] on that handle with the snapshot selected.  [r]
    is the result of the step reached after all the steps before it
    succeeded. *)
Definition open_parent_error_source (c : Cluster) (fuel : nat)
  (i : ImageCtx) (r : Z) : Prop :=
  let sid := snap_id i in
  let pool := get_parent_pool_id sid i in
  let lookup := pool_reverse_lookup c pool in
  let ioctx := ioctx_create c lookup.2 in
  (pool < 0 ∧ r = - ENOENT) ∨
  (0 ≤ pool ∧ r = lookup.1) ∨
  (0 ≤ pool ∧ 0 ≤ lookup.1 ∧ r = ioctx.1) ∨
  (0 ≤ pool ∧ 0 ≤ lookup.1 ∧ 0 ≤ ioctx.1 ∧
   ∃ r1 p1 l1,
     open_image c fuel (built_parent i ioctx.2) = Some (r1, p1, l1) ∧
     (r = r1 ∨
      0 ≤ r1 ∧
      let rn := get_snap_name (get_parent_snap_id sid i) p1 in
      (r = rn.1 ∨
       0 ≤ rn.1 ∧
       ∃ u p2 l2 p3 l3,
         ImageCtx_snap_set rn.2 (set_snap_name rn.2 p1)
         = Some (u, p2, l2) ∧
         refresh_parent c fuel p2 = Some (r, p3, l3)))).

(** "child" with its header read and no parent handle installed yet. *)
Definition demo_child_linked : ImageCtx :=
  set_mutable_metadata
    (mkMutableMetadata 100 RBD_FEATURE_LAYERING 0 [] false ""
       (mkSnapContext 5 [5; 3]) demo_parent_md)
    demo_child.

(** "child" opened on a snapshot "gone" (id 9) that the header no
    longer lists. *)
Definition demo_child_on_gone : ImageCtx :=
  set_view 9 "gone" true demo_child.

(** The handle a refresh leaves behind. *)
Definition handle_after_refresh (c : Cluster) (fuel : nat) (i : ImageCtx)
  : ImageCtx :=
  match ictx_refresh c fuel i with
  | Some (_, i', _) => i'
  | None => i
  end.

(** "child" with its parent open, after the header has come to report
    an overlap of zero while still naming the parent. *)
Definition demo_child_zero_overlap : ImageCtx :=
  set_mutable_metadata
    (mkMutableMetadata 100 RBD_FEATURE_LAYERING 0 [] false ""
       (mkSnapContext 5 [5; 3]) (ParentInfo (spec demo_parent_md) 0))
    (handle_after_refresh (demo_cluster true) 3 demo_child).

(** The handle a computation leaves behind. *)
Definition after {A} (m : M A) (i : ImageCtx) : ImageCtx :=
  match m i with
  | Some (_, i', _) => i'
  | None => i
  end.

(** [clip_io], lines 3351-3373: the result and what is left in [*len].
    [off] and [*len] are [uint64_t], so their sum wraps around. *)
Definition clip_io (off len : Z) (i : ImageCtx) : Z * Z :=
  let image_size := get_image_size (snap_id i) i in
  if negb (snap_exists i) then (- ENOENT, len) else
  (* special-case len == 0 requests: always valid *)
  if len =? 0 then (0, len) else
  (* can't start past end *)
  if image_size <=? off then (- EINVAL, len) else
  (* clip requests that extend past end to just end *)
  if image_size <? (off + len) mod 2 ^ 64 then (0, image_size - off)
  else (0, len).

End Image.
(** * Snapshot lifecycle and features

    [snap_create_helper], [snap_remove_helper], [snap_protect],
    [snap_unprotect] and [update_features] change the cluster: the
    header object of the image, its object maps, the [rbd_children]
    index of a pool and the self-managed snapshots of the data pool.
    These are calls into [cls_client], [ObjectMap] and [librados]; the
    model takes them from an environment over an abstract world, each
    as a function from the world to a result and the next world.  The
    handle is the [ImageCtx] of the previous part and is refreshed by
    [Image.ictx_check] against the cluster as the world shows it.

    [owner_lock], [md_lock], [snap_lock] and [parent_lock] are not part
    of this model. *)
Module Snapshots.
Import Image.

(** Feature bits and the set of those that [update_features] may
    change (include/rbd/features.h). *)
Definition RBD_FEATURE_EXCLUSIVE_LOCK : Z := 4.
Definition RBD_FEATURE_OBJECT_MAP : Z := 8.
Definition RBD_FEATURES_MUTABLE : Z :=
  Z.lor RBD_FEATURE_EXCLUSIVE_LOCK
    (Z.lor RBD_FEATURE_OBJECT_MAP RBD_FEATURE_FAST_DIFF).

Inductive event : Type :=
| Handle (a : Image.action)
| SetProtectionStatus (snap : Z) (status : Z) (r : Z)
| WaitForLatestOsdmap
| PoolList2 (r : Z)
| PoolGetBaseTier (pool : Z) (r : Z) (base_tier : Z)
| IoctxCreate2 (pool : Z) (r : Z)
| GetChildren (pool : Z) (r : Z)
| ObjectMapSnapshotRemove (snap : Z) (r : Z)
| RemoveChild (pspec : parent_spec) (child : string) (r : Z)
| SnapshotRemove (snap : Z) (r : Z)
| OldSnapshotRemove (name : string) (r : Z)
| SelfmanagedSnapRemove (snap : Z) (r : Z)
| SelfmanagedSnapCreate (r : Z) (snap : Z)
| SnapshotAdd (snap : Z) (name : string) (r : Z)
| OldSnapshotAdd (snap : Z) (name : string) (r : Z)
| ObjectMapSnapshotAdd (snap : Z)
| SetFlags (snap : Z) (flags : Z) (mask : Z) (r : Z)
| RemoveObjectMapObject (snap : Z) (r : Z)
| SetFeatures (features : Z) (mask : Z) (r : Z)
| Complete (r : Z).

(** [scan_for_parents], lines 647-664: the loop over [snap_info]; the
    answer is whether it left by [break]. *)
Fixpoint scan_loop (pspec : parent_spec) (oursnap_id : Z)
  (its : list (Z * SnapInfo)) : bool :=
  match its with
  | [] => false
  | (k, info) :: rest =>
    (* skip our snap id *)
    if k =? oursnap_id then scan_loop pspec oursnap_id rest
    else if bool_decide (spec (si_parent info) = pspec) then true
    else scan_loop pspec oursnap_id rest
  end.

Definition scan_for_parents (i : ImageCtx) (pspec : parent_spec)
  (oursnap_id : Z) : Z :=
  if negb (pool_id pspec =? -1) then
    if scan_loop pspec oursnap_id (map_to_list (snap_info i))
    then 0 else - ENOENT
  else 0.

(** The test that guards [cls_client::remove_child] in
    [snap_remove_helper]. *)
Definition deregisters (i : ImageCtx) (our_pspec : parent_spec)
  (snap_id : Z) : bool :=
  bool_decide (spec (parent_md i) ≠ our_pspec) &&
  (scan_for_parents i our_pspec snap_id =? - ENOENT).

Section WithWorld.
Context {W : Type}.

Record Env : Type := {
  (* what the handle reads when it refreshes *)
  cluster : W → Cluster;
  (* cls_client, on the header object of the image *)
  set_protection_status : Z → Z → W → Z * W;
  snapshot_remove : Z → W → Z * W;
  old_snapshot_remove : string → W → Z * W;
  (* cls_client, on the rbd_children object of a pool *)
  remove_child : parent_spec → string → W → Z * W;
  get_children : Z → parent_spec → W → (Z * list string) * W;
  (* ObjectMap *)
  object_map_snapshot_remove : Z → W → Z * W;
  (* librados *)
  selfmanaged_snap_remove : Z → W → Z * W;
  pool_list2 : W → (Z * list (Z * string)) * W;
  pool_get_base_tier : Z → W → (Z * Z) * W;
  ioctx_create2 : Z → W → Z * W;
  selfmanaged_snap_create : W → (Z * Z) * W;
  (* cls_client, on the header object; the flag tells whether the
     operation asserts that the header is locked *)
  snapshot_add : bool → Z → string → W → Z * W;
  old_snapshot_add : Z → string → W → Z * W;
  set_flags : Z → Z → Z → W → Z * W;
  set_features : Z → Z → W → Z * W;
  (* ObjectMap::snapshot_add, and the removal of the object map
     object of a snapshot *)
  object_map_snapshot_add : Z → W → W;
  remove_object_map_object : Z → W → Z * W
}.

Variable env : Env.

(** Computations over the world and the handle; [None] as in
    [Image.M], and for an assertion that fails. *)
Definition M (A : Type) : Type :=
  W → ImageCtx → option (A * W * ImageCtx * list event).

Definition ret {A} (a : A) : M A := λ w i, Some (a, w, i, []).

Definition bind {A B} (m : M A) (k : A → M B) : M B :=
  λ w i, match m w i with
         | None => None
         | Some (a, w1, i1, t1) =>
           match k a w1 i1 with
           | None => None
           | Some (b, w2, i2, t2) => Some (b, w2, i2, t1 ++ t2)
           end
         end.

Definition emit (e : event) : M unit := λ w i, Some (tt, w, i, [e]).
Definition get {A} (f : ImageCtx → A) : M A := λ w i, Some (f i, w, i, []).
Definition modify (f : ImageCtx → ImageCtx) : M unit :=
  λ w i, Some (tt, w, f i, []).
Definition call {A} (f : W → A * W) (e : A → event) : M A :=
  λ w i, let '(a, w') := f w in Some (a, w', i, [e a]).
Definition assert (b : bool) : M unit :=
  λ w i, if b then Some (tt, w, i, []) else None.

(** A computation of the handle, run against the cluster of the
    moment. *)
Definition on_handle {A} (m : Cluster → Image.M A) : M A :=
  λ w i, match m (cluster env w) i with
         | None => None
         | Some (a, i', l) => Some (a, w, i', Handle <$> l)
         end.

Definition ask {A} (f : Cluster → Z → string → A) : M A :=
  λ w i, Some (f (cluster env w) (md_ctx i) (id i), w, i, []).

(** A question to [ictx->image_watcher]: the pointer is dereferenced
    unchecked, so a handle without a watcher stops the program. *)
Definition watcher {A} (f : Cluster → Z → string → A) : M A :=
  λ w i, if image_watcher i
         then Some (f (cluster env w) (md_ctx i) (id i), w, i, [])
         else None.

Declare Scope snap_scope.
Notation "x ← y ; z" := (bind y (λ x, z))
  (at level 20, y at level 100, z at level 200, only parsing) : snap_scope.
Notation "y ;; z" := (bind y (λ _, z))
  (at level 100, z at level 200, only parsing, right associativity)
  : snap_scope.
Local Open Scope snap_scope.

Definition notify_change : M Z := on_handle (λ _, Image.notify_change).

(** [rm_snap], lines 2082-2104. *)
Definition rm_snap (snap_name : string) (snap_id : Z) : M Z :=
  old ← get old_format ;
  r ← (if old : bool then
         call (old_snapshot_remove env snap_name) (OldSnapshotRemove snap_name)
       else
         r ← call (snapshot_remove env snap_id) (SnapshotRemove snap_id) ;
         (if r =? 0 then modify (Image.rm_snap snap_name snap_id)
          else ret tt) ;;
         ret r) ;
  if r <? 0 then ret r else ret 0.

(** [snap_remove_helper], lines 709-781; [ctx] tells whether a
    completion was passed. *)
Definition snap_remove_helper (ctx : bool) (snap_name : string)
  (fuel : nat) : M Z :=
  feats ← get features ;
  (if negb (Z.land feats RBD_FEATURE_FAST_DIFF =? 0) then
     supported ← watcher watcher_is_lock_supported ;
     owner ← watcher watcher_is_lock_owner ;
     assert (negb supported || owner)
   else ret tt) ;;
  r ← on_handle (λ c, ictx_check c true fuel) ;
  if r <? 0 then ret r else
  snap_id ← get (get_snap_id snap_name) ;
  if snap_id =? CEPH_NOSNAP then ret (- ENOENT) else
  r ← call (object_map_snapshot_remove env snap_id)
        (ObjectMapSnapshotRemove snap_id) ;
  if r <? 0 then ret r else
  rp ← get (get_parent_spec snap_id) ;
  let '(r, our_pspec) := rp in
  if r <? 0 then ret r else
  dereg ← get (λ i, deregisters i our_pspec snap_id) ;
  failed ← (if dereg : bool then
              child ← get id ;
              r ← call (remove_child env our_pspec child)
                    (RemoveChild our_pspec child) ;
              if (r <? 0) && negb (r =? - ENOENT) then ret (Some r)
              else ret None
            else ret None) ;
  match failed with
  | Some r => ret r
  | None =>
    r ← rm_snap snap_name snap_id ;
    if r <? 0 then ret r else
    r ← call (selfmanaged_snap_remove env snap_id)
          (SelfmanagedSnapRemove snap_id) ;
    if r <? 0 then ret r else
    (if ctx then emit (Complete 0) else ret tt) ;;
    ret 0
  end.

Definition stuck {A} : M A := λ _ _, None.
Definition act (f : W → W) (e : event) : M unit :=
  λ w i, Some (tt, f w, i, [e]).

(** [add_snap], lines 2025-2080. *)
Definition add_snap (snap_name : string) : M Z :=
  lock_owner ← watcher watcher_is_lock_owner ;
  supported ← watcher watcher_is_lock_supported ;
  (if supported : bool then assert lock_owner else ret tt) ;;
  rs ← call (selfmanaged_snap_create env)
         (λ rs, SelfmanagedSnapCreate rs.1 rs.2) ;
  let '(r, snap_id) := rs in
  if r <? 0 then ret r else
  old ← get old_format ;
  r ← (if old : bool then
         call (old_snapshot_add env snap_id snap_name)
           (OldSnapshotAdd snap_id snap_name)
       else
         call (snapshot_add env lock_owner snap_id snap_name)
           (SnapshotAdd snap_id snap_name)) ;
  if r <? 0 then
    call (selfmanaged_snap_remove env snap_id)
      (SelfmanagedSnapRemove snap_id) ;;
    ret r
  else
  (if negb old then
     act (object_map_snapshot_add env snap_id)
       (ObjectMapSnapshotAdd snap_id) ;;
     if lock_owner : bool then
       (* immediately start using the new snap context if we own the
          exclusive lock *)
       modify (λ i, set_snapc
                      (mkSnapContext snap_id
                         (snap_id :: snapc_snaps (snapc i))) i) ;;
       on_handle (λ _,
         Image.bind (Image.get (λ i, seq (snapc i)))
           (λ s, Image.bind (Image.get snaps)
              (λ sn, Image.log (SetWriteCtx s sn))))
     else ret tt
   else ret tt) ;;
  ret 0.

(** [do { r = add_snap(...); } while (r == -ESTALE);] *)
Fixpoint add_snap_retry (snap_name : string) (fuel : nat) : M Z :=
  match fuel with
  | O => stuck
  | S fuel' =>
    r ← add_snap snap_name ;
    if r =? - ESTALE then add_snap_retry snap_name fuel' else ret r
  end.

(** [snap_create_helper], lines 613-645. *)
Definition snap_create_helper (ctx : bool) (snap_name : string)
  (fuel : nat) : M Z :=
  supported ← watcher watcher_is_lock_supported ;
  owner ← watcher watcher_is_lock_owner ;
  assert (negb supported || owner) ;;
  r ← on_handle (λ c, ictx_check c true fuel) ;
  if r <? 0 then ret r else
  r ← on_handle _flush ;
  if r <? 0 then ret r else
  r ← add_snap_retry snap_name fuel ;
  if r <? 0 then ret r else
  (if ctx then emit (Complete 0) else ret tt) ;;
  ret 0.

(** [snap_protect], lines 783-822. *)
Definition snap_protect (snap_name : string) (fuel : nat) : M Z :=
  ro ← get read_only ;
  if ro : bool then ret (- EROFS) else
  r ← on_handle (λ c, ictx_check c false fuel) ;
  if r <? 0 then ret r else
  feats ← get features ;
  if Z.land feats RBD_FEATURE_LAYERING =? 0 then ret (- ENOSYS) else
  snap_id ← get (get_snap_id snap_name) ;
  if snap_id =? CEPH_NOSNAP then ret (- ENOENT) else
  rp ← get (is_snap_protected snap_id) ;
  let '(r, is_protected) := rp in
  if r <? 0 then ret r else
  if is_protected : bool then ret (- EBUSY) else
  r ← call (set_protection_status env snap_id
              RBD_PROTECTION_STATUS_PROTECTED)
        (SetProtectionStatus snap_id RBD_PROTECTION_STATUS_PROTECTED) ;
  if r <? 0 then ret r else
  notify_change ;;
  ret 0.

(** The keys of [snap_info] in the order in which a [std::map] is
    iterated. *)
Definition snap_info_keys (i : ImageCtx) : list Z :=
  merge_sort Z.le (map_to_list (snap_info i)).*1.

(** The loop of [remove_object_map]; [Some r] is [return r]. *)
Fixpoint remove_object_maps (ids : list Z) : M (option Z) :=
  match ids with
  | [] => ret None
  | s :: rest =>
    r ← call (remove_object_map_object env s) (RemoveObjectMapObject s) ;
    if (r <? 0) && negb (r =? - ENOENT) then ret (Some r)
    else remove_object_maps rest
  end.

(** [remove_object_map], lines 58-79. *)
Definition remove_object_map : M Z :=
  ids ← get snap_info_keys ;
  failed ← remove_object_maps ids ;
  match failed with
  | Some r => ret r
  | None =>
    call (remove_object_map_object env CEPH_NOSNAP)
      (RemoveObjectMapObject CEPH_NOSNAP) ;;
    ret 0
  end.

(** The second loop of [update_all_flags]. *)
Fixpoint set_flags_each (ids : list Z) (flags mask : Z) : M Z :=
  match ids with
  | [] => ret 0
  | s :: rest =>
    r ← call (set_flags env s flags mask) (SetFlags s flags mask) ;
    if r <? 0 then ret r else set_flags_each rest flags mask
  end.

(** [update_all_flags], lines 81-104. *)
Definition update_all_flags (flags mask : Z) : M Z :=
  keys ← get snap_info_keys ;
  set_flags_each (CEPH_NOSNAP :: keys) flags mask.

(** The branch of [update_features] that enables features; [inl r] is
    [return r], [inr] the mask for [set_features]. *)
Definition enable_features (features new_features : Z) : M (Z + Z) :=
  let features_mask := features in
  let enable_flags := 0 in
  let object_map := negb (Z.land features RBD_FEATURE_OBJECT_MAP =? 0) in
  if object_map && (Z.land new_features RBD_FEATURE_EXCLUSIVE_LOCK =? 0)
  then ret (inl (- EINVAL)) else
  let enable_flags :=
    if object_map then Z.lor enable_flags RBD_FLAG_OBJECT_MAP_INVALID
    else enable_flags in
  let features_mask :=
    if object_map then Z.lor features_mask RBD_FEATURE_EXCLUSIVE_LOCK
    else features_mask in
  let fast_diff := negb (Z.land features RBD_FEATURE_FAST_DIFF =? 0) in
  if fast_diff && (Z.land new_features RBD_FEATURE_OBJECT_MAP =? 0)
  then ret (inl (- EINVAL)) else
  let enable_flags :=
    if fast_diff then Z.lor enable_flags RBD_FLAG_FAST_DIFF_INVALID
    else enable_flags in
  let features_mask :=
    if fast_diff
    then Z.lor features_mask
           (Z.lor RBD_FEATURE_OBJECT_MAP RBD_FEATURE_EXCLUSIVE_LOCK)
    else features_mask in
  if negb (enable_flags =? 0) then
    r ← update_all_flags enable_flags enable_flags ;
    if r <? 0 then ret (inl r) else ret (inr features_mask)
  else ret (inr features_mask).

(** The branch that disables features; [inr] carries the mask and
    [disable_flags]. *)
Definition disable_features (features new_features : Z)
  : M (Z + Z * Z) :=
  let features_mask := features in
  let disable_flags := 0 in
  let exclusive_lock :=
    negb (Z.land features RBD_FEATURE_EXCLUSIVE_LOCK =? 0) in
  if exclusive_lock && negb (Z.land new_features RBD_FEATURE_OBJECT_MAP =? 0)
  then ret (inl (- EINVAL)) else
  let features_mask :=
    if exclusive_lock then Z.lor features_mask RBD_FEATURE_OBJECT_MAP
    else features_mask in
  let object_map := negb (Z.land features RBD_FEATURE_OBJECT_MAP =? 0) in
  if object_map && negb (Z.land new_features RBD_FEATURE_FAST_DIFF =? 0)
  then ret (inl (- EINVAL)) else
  r ← (if object_map then remove_object_map else ret 0) ;
  if object_map && (r <? 0) then ret (inl r) else
  let disable_flags :=
    if object_map then RBD_FLAG_OBJECT_MAP_INVALID else disable_flags in
  let disable_flags :=
    if negb (Z.land features RBD_FEATURE_FAST_DIFF =? 0)
    then RBD_FLAG_FAST_DIFF_INVALID else disable_flags in
  ret (inr (features_mask, disable_flags)).

(** [update_features], lines 1524-1629. *)
Definition update_features (features : Z) (enabled : bool) (fuel : nat)
  : M Z :=
  r ← on_handle (λ c, ictx_check c false fuel) ;
  if r <? 0 then ret r else
  ro ← get read_only ;
  if ro : bool then ret (- EROFS) else
  old ← get old_format ;
  if old : bool then ret (- EINVAL) else
  if negb (Z.land features RBD_FEATURES_MUTABLE =? features)
  then ret (- EINVAL) else
  if features =? 0 then ret (- EINVAL) else
  cur ← get Image.features ;
  let new_features :=
    if enabled then Z.lor cur features
    else Z.land cur (Z.lnot features) in
  if cur =? new_features then ret 0 else
  plan ← (if enabled then
            m ← enable_features features new_features ;
            ret (match m with
                 | inl r => inl r
                 | inr mask => inr (mask, 0)
                 end)
          else disable_features features new_features) ;
  match plan with
  | inl r => ret r
  | inr (features_mask, disable_flags) =>
    (* a failure of set_features is logged, no more *)
    call (set_features env new_features features_mask)
      (SetFeatures new_features features_mask) ;;
    failed ← (if negb (disable_flags =? 0) then
                r ← update_all_flags 0 disable_flags ;
                ret (if r <? 0 then Some r else None)
              else ret None) ;
    match failed with
    | Some r => ret r
    | None =>
      notify_change ;;
      ret 0
    end
  end.

(** The loop over the pools in [snap_unprotect]; [Some r] is
    [goto reprotect_and_return_err] with [r]. *)
Fixpoint scan_pools (pspec : parent_spec) (pools : list (Z * string))
  : M (option Z) :=
  match pools with
  | [] => ret None
  | (pool, _) :: rest =>
    rb ← call (pool_get_base_tier env pool)
           (λ rb, PoolGetBaseTier pool rb.1 rb.2) ;
    let '(r, base_tier) := rb in
    if r =? - ENOENT then scan_pools pspec rest else
    if r <? 0 then ret (Some r) else
    if negb (pool =? base_tier) then
      (* pool is a cache; skip it *)
      scan_pools pspec rest
    else
    r ← call (ioctx_create2 env pool) (IoctxCreate2 pool) ;
    if r =? - ENOENT then scan_pools pspec rest else
    if r <? 0 then ret (Some r) else
    rc ← call (get_children env pool pspec) (λ rc, GetChildren pool rc.1) ;
    let r := rc.1 in
    if (r <? 0) && negb (r =? - ENOENT) then ret (Some r) else
    (* if we found a child, can't unprotect *)
    if r =? 0 then ret (Some (- EBUSY)) else
    scan_pools pspec rest
  end.

Definition reprotect_and_return_err (snap_id : Z) (r : Z) : M Z :=
  call (set_protection_status env snap_id RBD_PROTECTION_STATUS_PROTECTED)
    (SetProtectionStatus snap_id RBD_PROTECTION_STATUS_PROTECTED) ;;
  notify_change ;;
  ret r.

(** [snap_unprotect], lines 824-945. *)
Definition snap_unprotect (snap_name : string) (fuel : nat) : M Z :=
  ro ← get read_only ;
  if ro : bool then ret (- EROFS) else
  r ← on_handle (λ c, ictx_check c false fuel) ;
  if r <? 0 then ret r else
  feats ← get features ;
  if Z.land feats RBD_FEATURE_LAYERING =? 0 then ret (- ENOSYS) else
  snap_id ← get (get_snap_id snap_name) ;
  if snap_id =? CEPH_NOSNAP then ret (- ENOENT) else
  ru ← get (is_snap_unprotected snap_id) ;
  let '(r, is_unprotected) := ru in
  if r <? 0 then ret r else
  if is_unprotected : bool then ret (- EINVAL) else
  r ← call (set_protection_status env snap_id
              RBD_PROTECTION_STATUS_UNPROTECTING)
        (SetProtectionStatus snap_id RBD_PROTECTION_STATUS_UNPROTECTING) ;
  if r <? 0 then ret r else
  notify_change ;;
  pool ← get md_ctx ;
  image ← get id ;
  let pspec := ParentSpec pool image snap_id in
  (* search all pools for children depending on this snapshot *)
  emit WaitForLatestOsdmap ;;
  pl ← call (pool_list2 env) (λ pl, PoolList2 pl.1) ;
  verdict ← scan_pools pspec pl.2 ;
  match verdict with
  | Some r => reprotect_and_return_err snap_id r
  | None =>
    (* didn't find any child in any pool, go ahead with unprotect *)
    r ← call (set_protection_status env snap_id
                RBD_PROTECTION_STATUS_UNPROTECTED)
          (SetProtectionStatus snap_id RBD_PROTECTION_STATUS_UNPROTECTED) ;
    if r <? 0 then reprotect_and_return_err snap_id r else
    notify_change ;;
    ret 0
  end.

End WithWorld.

Arguments Env : clear implicits.

(** ** Reasoning about the operations *)

(** [m] returns from [w] and [i], and what it returns satisfies [Q]. *)
Definition wps {W A} (m : @M W A)
  (Q : A → W → ImageCtx → list event → Prop) (w : W) (i : ImageCtx) : Prop :=
  match m w i with
  | Some (a, w', i', t) => Q a w' i' t
  | None => False
  end.

(** The snapshot ids that a trace, started with [held], has allocated
    and not released: an id is released by a [selfmanaged_snap_remove]
    that succeeds, and stays allocated when the removal fails. *)
Fixpoint drop_id (s : Z) (held : list Z) : list Z :=
  match held with
  | [] => []
  | x :: rest => if x =? s then rest else x :: drop_id s rest
  end.

Fixpoint ids_held (held : list Z) (t : list event) : list Z :=
  match t with
  | [] => held
  | SelfmanagedSnapCreate r s :: t' =>
    ids_held (if r <? 0 then held else s :: held) t'
  | SelfmanagedSnapRemove s r :: t' =>
    ids_held (if r <? 0 then held else drop_id s held) t'
  | _ :: t' => ids_held held t'
  end.

(** The snapshot ids whose release a trace has asked for and been
    refused, in the order of the trace. *)
Fixpoint release_refused (t : list event) : list Z :=
  match t with
  | [] => []
  | SelfmanagedSnapRemove s r :: t' =>
    if r <? 0 then s :: release_refused t' else release_refused t'
  | _ :: t' => release_refused t'
  end.

(** The snapshot ids that a trace has put into the header. *)
Fixpoint ids_added (t : list event) : list Z :=
  match t with
  | [] => []
  | SnapshotAdd s _ r :: t' | OldSnapshotAdd s _ r :: t' =>
    if r <? 0 then ids_added t' else s :: ids_added t'
  | _ :: t' => ids_added t'
  end.

(** Whether a trace has completed the context. *)
Definition completed (t : list event) : bool :=
  existsb (λ e, match e with Complete _ => true | _ => false end) t.

(** What [update_all_flags] does over the ids it visits: every id in
    turn until a call fails. *)
Inductive flags_set (flags mask : Z) : list Z → list event → Z → Prop :=
| flags_set_all :
    flags_set flags mask [] [] 0
| flags_set_failed s rest r :
    r < 0 →
    flags_set flags mask (s :: rest) [SetFlags s flags mask r] r
| flags_set_next s rest r t v :
    0 ≤ r →
    flags_set flags mask rest t v →
    flags_set flags mask (s :: rest) (SetFlags s flags mask r :: t) v.

(** What the loop of [remove_object_map] does: every snapshot in turn
    until a removal fails with something other than [-ENOENT]. *)
Inductive maps_removed : list Z → list event → option Z → Prop :=
| maps_removed_all :
    maps_removed [] [] None
| maps_removed_failed s rest r :
    r < 0 → r ≠ - ENOENT →
    maps_removed (s :: rest) [RemoveObjectMapObject s r] (Some r)
| maps_removed_next s rest r t v :
    0 ≤ r ∨ r = - ENOENT →
    maps_removed rest t v →
    maps_removed (s :: rest) (RemoveObjectMapObject s r :: t) v.

(** The dependencies between the features that [update_features]
    checks: the object map needs the exclusive lock, and fast diff the
    object map. *)
Definition dependencies_hold (f : Z) : Prop :=
  (Z.land f RBD_FEATURE_OBJECT_MAP ≠ 0 →
   Z.land f RBD_FEATURE_EXCLUSIVE_LOCK ≠ 0) ∧
  (Z.land f RBD_FEATURE_FAST_DIFF ≠ 0 →
   Z.land f RBD_FEATURE_OBJECT_MAP ≠ 0).

(** ** The scan and its close, as a protocol over the trace *)

(** What the trace of the pool scan looks like, pool by pool, and the
    verdict it reaches: [Some r] when the scan stops with [r], [None]
    when it comes to the end of the list. *)
Inductive scanned : list (Z * string) → list event → option Z → Prop :=
| scanned_done :
    scanned [] [] None
| scanned_pool_gone pool name rest b t v :
    scanned rest t v →
    scanned ((pool, name) :: rest)
      (PoolGetBaseTier pool (- ENOENT) b :: t) v
| scanned_tier_failed pool name rest r b :
    r < 0 → r ≠ - ENOENT →
    scanned ((pool, name) :: rest) [PoolGetBaseTier pool r b] (Some r)
| scanned_cache_tier pool name rest r b t v :
    0 ≤ r → b ≠ pool →
    scanned rest t v →
    scanned ((pool, name) :: rest) (PoolGetBaseTier pool r b :: t) v
| scanned_ioctx_gone pool name rest r t v :
    0 ≤ r →
    scanned rest t v →
    scanned ((pool, name) :: rest)
      (PoolGetBaseTier pool r pool :: IoctxCreate2 pool (- ENOENT) :: t) v
| scanned_ioctx_failed pool name rest r r' :
    0 ≤ r → r' < 0 → r' ≠ - ENOENT →
    scanned ((pool, name) :: rest)
      [PoolGetBaseTier pool r pool; IoctxCreate2 pool r'] (Some r')
| scanned_children_failed pool name rest r r' r'' :
    0 ≤ r → 0 ≤ r' → r'' < 0 → r'' ≠ - ENOENT →
    scanned ((pool, name) :: rest)
      [PoolGetBaseTier pool r pool; IoctxCreate2 pool r';
       GetChildren pool r'']
      (Some r'')
| scanned_child_found pool name rest r r' :
    0 ≤ r → 0 ≤ r' →
    scanned ((pool, name) :: rest)
      [PoolGetBaseTier pool r pool; IoctxCreate2 pool r';
       GetChildren pool 0]
      (Some (- EBUSY))
| scanned_no_child pool name rest r r' r'' t v :
    0 ≤ r → 0 ≤ r' → r'' = - ENOENT ∨ 0 < r'' →
    scanned rest t v →
    scanned ((pool, name) :: rest)
      (PoolGetBaseTier pool r pool :: IoctxCreate2 pool r' ::
       GetChildren pool r'' :: t) v.

(** How [snap_unprotect] ends after the scan: the events and the
    value returned. *)
Inductive closing (snap : Z) : option Z → list event → Z → Prop :=
| closing_rollback r proterr :
    closing snap (Some r)
      [SetProtectionStatus snap RBD_PROTECTION_STATUS_PROTECTED proterr;
       Handle NotifyChange] r
| closing_commit r :
    0 ≤ r →
    closing snap None
      [SetProtectionStatus snap RBD_PROTECTION_STATUS_UNPROTECTED r;
       Handle NotifyChange] 0
| closing_commit_failed r proterr :
    r < 0 →
    closing snap None
      [SetProtectionStatus snap RBD_PROTECTION_STATUS_UNPROTECTED r;
       SetProtectionStatus snap RBD_PROTECTION_STATUS_PROTECTED proterr;
       Handle NotifyChange] r.

(** ** The removal of a snapshot, as a protocol over the trace *)

(** The events of the deregistration step of [snap_remove_helper]
    when it lets the removal go on: nothing if the parent spec of the
    snapshot is still referred to, else the one call, which succeeded
    or found nothing to remove. *)
Inductive deregistration (i1 : ImageCtx) (pspec : parent_spec) (snap : Z)
  : list event → Prop :=
| deregistration_skipped :
    deregisters i1 pspec snap = false →
    deregistration i1 pspec snap []
| deregistration_done rd :
    deregisters i1 pspec snap = true →
    0 ≤ rd ∨ rd = - ENOENT →
    deregistration i1 pspec snap [RemoveChild pspec (id i1) rd].

(** The call that deletes the header record, by format. *)
Definition header_deletion (old : bool) (snap : Z) (name : string) (r : Z)
  : event :=
  if old then OldSnapshotRemove name r else SnapshotRemove snap r.

(** The handle after the header deletion returned [r]: only the call
    for the new format, and only the result 0, makes [rm_snap] update
    the local table. *)
Definition local_after (i1 : ImageCtx) (name : string) (snap : Z) (r : Z)
  : ImageCtx :=
  if old_format i1 then i1
  else if r =? 0 then Image.rm_snap name snap i1 else i1.

(** What [snap_remove_helper] does for a live snapshot once the
    handle is refreshed to [i1]: the events, the value returned and the
    handle it leaves. *)
Inductive removed (i1 : ImageCtx) (name : string) (snap : Z)
  (pspec : parent_spec) (ctx : bool) : list event → Z → ImageCtx → Prop :=
| removed_object_map_failed ro :
    ro < 0 →
    removed i1 name snap pspec ctx [ObjectMapSnapshotRemove snap ro] ro i1
| removed_deregister_failed ro rd :
    0 ≤ ro →
    deregisters i1 pspec snap = true →
    rd < 0 → rd ≠ - ENOENT →
    removed i1 name snap pspec ctx
      [ObjectMapSnapshotRemove snap ro; RemoveChild pspec (id i1) rd] rd i1
| removed_header_refused ro dereg r :
    0 ≤ ro →
    deregistration i1 pspec snap dereg →
    r < 0 →
    removed i1 name snap pspec ctx
      (ObjectMapSnapshotRemove snap ro :: dereg ++
       [header_deletion (old_format i1) snap name r]) r i1
| removed_release_failed ro dereg r x :
    0 ≤ ro →
    deregistration i1 pspec snap dereg →
    0 ≤ r → x < 0 →
    removed i1 name snap pspec ctx
      (ObjectMapSnapshotRemove snap ro :: dereg ++
       [header_deletion (old_format i1) snap name r;
        SelfmanagedSnapRemove snap x]) x (local_after i1 name snap r)
| removed_done ro dereg r x :
    0 ≤ ro →
    deregistration i1 pspec snap dereg →
    0 ≤ r → 0 ≤ x →
    removed i1 name snap pspec ctx
      (ObjectMapSnapshotRemove snap ro :: dereg ++
       [header_deletion (old_format i1) snap name r;
        SelfmanagedSnapRemove snap x] ++
       (if ctx then [Complete 0] else [])) 0 (local_after i1 name snap r).

(** The assertion at the head of [snap_remove_helper] and of
    [snap_create_helper]'s [add_snap] passes: the handle has the
    watcher that the assertion asks, and the lock is held if it is
    supported. *)
Definition lock_held_if_supported (c : Cluster) (i : ImageCtx) : bool :=
  image_watcher i &&
  (negb (watcher_is_lock_supported c (md_ctx i) (id i)) ||
   watcher_is_lock_owner c (md_ctx i) (id i)).

(** The event is an update of the protection status. *)
Definition is_status_update (e : event) : bool :=
  match e with SetProtectionStatus _ _ _ => true | _ => false end.

(** The event takes the record of a snapshot out of the header, or
    releases its id in the data pool. *)
Definition deletes_snapshot (e : event) : bool :=
  match e with
  | SnapshotRemove _ r | OldSnapshotRemove _ r => 0 <=? r
  | SelfmanagedSnapRemove _ _ => true
  | _ => false
  end.

(** ** A store to run the operations on

    One image, "child" in pool 1, as in the example cluster of the
    previous part, with the state that the operations change. *)
Record HeaderSnap : Type := mkHeaderSnap {
  hs_id : Z;
  hs_name : string;
  hs_size : Z;
  hs_parent : parent_info;
  hs_status : Z
}.

Record Store : Type := mkStore {
  (* header of "child": parent of the head and snapshot records,
     newest first *)
  head_parent : parent_info;
  header_snaps : list HeaderSnap;
  (* snapshots of "child" that have an object map *)
  object_maps : list Z;
  (* rbd_children of each pool: (pool, parent spec, child image id) *)
  children : list (Z * parent_spec * string);
  (* self-managed snapshots of the data pool *)
  rados_snaps : list Z
}.

Definition with_header_snaps (hs : list HeaderSnap) (s : Store) : Store :=
  mkStore (head_parent s) hs (object_maps s) (children s) (rados_snaps s).
Definition with_object_maps (om : list Z) (s : Store) : Store :=
  mkStore (head_parent s) (header_snaps s) om (children s) (rados_snaps s).
Definition with_children (ch : list (Z * parent_spec * string)) (s : Store)
  : Store :=
  mkStore (head_parent s) (header_snaps s) (object_maps s) ch (rados_snaps s).
Definition with_rados_snaps (rs : list Z) (s : Store) : Store :=
  mkStore (head_parent s) (header_snaps s) (object_maps s) (children s) rs.

Definition status_of (snap : Z) (s : Store) : option Z :=
  hs_status <$> List.find (λ h, hs_id h =? snap) (header_snaps s).

(** The example cluster with the header of "child" read from the
    store. *)
Definition store_cluster (s : Store) : Cluster :=
  let base := demo_cluster true in
  {| pool_reverse_lookup := pool_reverse_lookup base;
     ioctx_create := ioctx_create base;
     init := init base;
     register_watch := register_watch base;
     read_header := read_header base;
     old_snapshot_list := old_snapshot_list base;
     get_lock_info := get_lock_info base;
     get_mutable_metadata := λ pool oid ro,
       if pool =? 1 then
         (0, mkMutableMetadata 100 RBD_FEATURE_LAYERING 0 [] false ""
               (mkSnapContext (hd 0 (hs_id <$> header_snaps s))
                  (hs_id <$> header_snaps s))
               (head_parent s))
       else get_mutable_metadata base pool oid ro;
     get_flags := get_flags base;
     snapshot_list := λ pool oid ids,
       if pool =? 1 then
         (0, (hs_name <$> header_snaps s, hs_size <$> header_snaps s,
              hs_parent <$> header_snaps s, hs_status <$> header_snaps s))
       else snapshot_list base pool oid ids;
     flush_writes := flush_writes base;
     watcher_is_lock_supported := watcher_is_lock_supported base;
     watcher_is_lock_owner := watcher_is_lock_owner base;
     watcher_unlock := watcher_unlock base;
     watcher_try_lock := watcher_try_lock base;
     invalidate_object_cache := invalidate_object_cache base;
     resize_to := resize_to base;
     rollback_objects := rollback_objects base |}.

(** Modelled from the spec: the header object refuses to delete the
    record of a snapshot that is not unprotected; a pool's child index
    answers NotFound when nothing is registered under the parent spec;
    a snapshot is added to the header only under a fresh id and name;
    flags and features are not kept in this store, so their updates
    succeed and change nothing; the other calls do what their names
    say.  [pools] and [base_tier]
    are what librados reports about the pools, and [status_error]
    makes a status update fail, by the status asked for. *)
Definition store_env (pools : list (Z * string)) (base_tier : Z → Z * Z)
  (status_error : Z → Z) : Env Store :=
  {| cluster := store_cluster;
     set_protection_status := λ snap status s,
       if status_error status <? 0 then (status_error status, s)
       else if existsb (λ h, hs_id h =? snap) (header_snaps s) then
         (0, with_header_snaps
               ((λ h, if hs_id h =? snap
                      then mkHeaderSnap (hs_id h) (hs_name h) (hs_size h)
                             (hs_parent h) status
                      else h) <$> header_snaps s) s)
       else (- ENOENT, s);
     snapshot_remove := λ snap s,
       match status_of snap s with
       | None => (- ENOENT, s)
       | Some st =>
         if st =? RBD_PROTECTION_STATUS_UNPROTECTED then
           (0, with_header_snaps
                 (List.filter (λ h, negb (hs_id h =? snap)) (header_snaps s))
                 s)
         else (- EBUSY, s)
       end;
     old_snapshot_remove := λ _ s, (- EOPNOTSUPP, s);
     remove_child := λ pspec child s,
       if existsb (λ c, bool_decide (c = (1, pspec, child))) (children s)
       then (0, with_children
                  (List.filter (λ c, negb (bool_decide (c = (1, pspec, child))))
                     (children s)) s)
       else (- ENOENT, s);
     get_children := λ pool pspec s,
       let found :=
         List.filter (λ c, (c.1.1 =? pool) && bool_decide (c.1.2 = pspec))
           (children s) in
       match found with
       | [] => ((- ENOENT, []), s)
       | _ => ((0, snd <$> found), s)
       end;
     object_map_snapshot_remove := λ snap s,
       (0, with_object_maps
             (List.filter (λ x, negb (x =? snap)) (object_maps s)) s);
     selfmanaged_snap_remove := λ snap s,
       (0, with_rados_snaps
             (List.filter (λ x, negb (x =? snap)) (rados_snaps s)) s);
     pool_list2 := λ s, ((0, pools), s);
     pool_get_base_tier := λ pool s, (base_tier pool, s);
     ioctx_create2 := λ pool s,
       if existsb (λ p, p.1 =? pool) pools then (0, s) else (- ENOENT, s);
     selfmanaged_snap_create := λ s,
       let next := 1 + foldr Z.max 0 (rados_snaps s) in
       ((0, next), with_rados_snaps (next :: rados_snaps s) s);
     snapshot_add := λ _ snap name s,
       if existsb (λ h, (hs_id h =? snap) || String.eqb (hs_name h) name)
            (header_snaps s)
       then (- EEXIST, s)
       else (0, with_header_snaps
                  (mkHeaderSnap snap name 100 (head_parent s)
                     RBD_PROTECTION_STATUS_UNPROTECTED :: header_snaps s) s);
     old_snapshot_add := λ _ _ s, (- EOPNOTSUPP, s);
     set_flags := λ _ _ _ s, (0, s);
     set_features := λ _ _ s, (0, s);
     object_map_snapshot_add := λ snap s,
       with_object_maps (snap :: object_maps s) s;
     remove_object_map_object := λ snap s,
       if existsb (λ x, x =? snap) (object_maps s)
       then (0, with_object_maps
                  (List.filter (λ x, negb (x =? snap)) (object_maps s)) s)
       else (- ENOENT, s) |}.

(** "child", once a clone of snapshot 7 of "base" and since flattened;
    its snapshot 5 ("s5"), taken before, is protected and still has
    "base" as its parent.  "child" is registered as a child of "base"
    in pool 1, and "grandchild" in pool 4 is a clone of "s5". *)
Definition demo_store : Store :=
  {| head_parent := no_parent;
     header_snaps :=
       [mkHeaderSnap 5 "s5" 100 demo_parent_md
          RBD_PROTECTION_STATUS_PROTECTED];
     object_maps := [5];
     children := [(1, spec demo_parent_md, "child");
                  (4, ParentSpec 1 "child" 5, "grandchild")];
     rados_snaps := [5] |}.

(** The same without the clone of "s5". *)
Definition demo_store_no_clone : Store :=
  with_children [(1, spec demo_parent_md, "child")] demo_store.

(** Pools 1, 2 and 4; pool 3 is in the list but gone by the time its
    base tier is asked for; pool 6 is a cache tier of pool 2. *)
Definition demo_pools : list (Z * string) :=
  [(1, "rbd"); (2, "base-pool"); (3, "scratch"); (6, "base-cache");
   (4, "clones")].

Definition demo_base_tier (pool : Z) : Z * Z :=
  if pool =? 3 then (- ENOENT, 0)
  else if pool =? 6 then (0, 2)
  else (0, pool).

(** The store as an environment in which every status update goes
    through. *)
Definition demo_env : Env Store :=
  store_env demo_pools demo_base_tier (λ _, 0).

(** The same environment with a header that answers every
    [set_features] with [r] and changes nothing. *)
Definition refusing_features (r : Z) : Env Store :=
  {| cluster := cluster demo_env;
     set_protection_status := set_protection_status demo_env;
     snapshot_remove := snapshot_remove demo_env;
     old_snapshot_remove := old_snapshot_remove demo_env;
     remove_child := remove_child demo_env;
     get_children := get_children demo_env;
     object_map_snapshot_remove := object_map_snapshot_remove demo_env;
     selfmanaged_snap_remove := selfmanaged_snap_remove demo_env;
     pool_list2 := pool_list2 demo_env;
     pool_get_base_tier := pool_get_base_tier demo_env;
     ioctx_create2 := ioctx_create2 demo_env;
     selfmanaged_snap_create := selfmanaged_snap_create demo_env;
     snapshot_add := snapshot_add demo_env;
     old_snapshot_add := old_snapshot_add demo_env;
     set_flags := set_flags demo_env;
     set_features := λ _ _ s, (r, s);
     object_map_snapshot_add := object_map_snapshot_add demo_env;
     remove_object_map_object := remove_object_map_object demo_env |}.

(** The same environment with a data pool that answers every
    [selfmanaged_snap_remove] with [r] and releases nothing. *)
Definition refusing_release (r : Z) : Env Store :=
  {| cluster := cluster demo_env;
     set_protection_status := set_protection_status demo_env;
     snapshot_remove := snapshot_remove demo_env;
     old_snapshot_remove := old_snapshot_remove demo_env;
     remove_child := remove_child demo_env;
     get_children := get_children demo_env;
     object_map_snapshot_remove := object_map_snapshot_remove demo_env;
     selfmanaged_snap_remove := λ _ s, (r, s);
     pool_list2 := pool_list2 demo_env;
     pool_get_base_tier := pool_get_base_tier demo_env;
     ioctx_create2 := ioctx_create2 demo_env;
     selfmanaged_snap_create := selfmanaged_snap_create demo_env;
     snapshot_add := snapshot_add demo_env;
     old_snapshot_add := old_snapshot_add demo_env;
     set_flags := set_flags demo_env;
     set_features := set_features demo_env;
     object_map_snapshot_add := object_map_snapshot_add demo_env;
     remove_object_map_object := remove_object_map_object demo_env |}.

(** The record of "s5" as the handle holds it. *)
Definition demo_s5 : SnapInfo :=
  mkSnapInfo "s5" 100 demo_parent_md RBD_PROTECTION_STATUS_PROTECTED 0.

(** The handle of "child", refreshed from the store. *)
Definition store_child (s : Store) : ImageCtx :=
  handle_after_refresh (store_cluster s) 3 demo_child.

(** The same handle with the watcher that [open_image] registers on
    an image opened for writing. *)
Definition store_child_watched (s : Store) : ImageCtx :=
  set_image_watcher true (store_child s).

End Snapshots.
(** * Image creation

    [detect_format], [create], [create_v1] and [create_v2] work on an
    I/O context, not on a handle.  The calls into [librados] and
    [cls_client] come from an environment over an abstract world, as in
    the previous part; the trace records each call with what it
    answered.  The name of the image and the id it is given identify
    the objects, so the object names built from them
    ([old_header_name], [id_obj_name], [header_name]) are not spelled
    out. *)
Module Creation.
Import Image.

(** include/rbd/features.h and include/rbd_types.h. *)
Definition RBD_FEATURE_STRIPINGV2 : Z := 2.
Definition RBD_FEATURE_EXCLUSIVE_LOCK : Z := 4.
Definition RBD_FEATURE_OBJECT_MAP : Z := 8.
Definition RBD_DEFAULT_OBJ_ORDER : Z := 22.

(** What a store into a [__le32] field keeps of a 64-bit value. *)
Definition to_le32 (x : Z) : Z := x mod 2 ^ 32.

Inductive event : Type :=
| StatOldHeader (name : string) (r : Z)
| StatIdObject (name : string) (r : Z)
| GetInstanceId (bid : Z)
| TmapSet (name : string) (r : Z)
| TmapRm (name : string) (r : Z)
| WriteOldHeader (name : string) (size order bid : Z) (r : Z)
| CreateIdObject (name : string) (r : Z)
| SetId (name id : string) (r : Z)
| DirAddImage (name id : string) (r : Z)
| CreateImage (id : string) (size order features : Z) (r : Z)
| SetStripeUnitCount (id : string) (stripe_unit stripe_count : Z) (r : Z)
| ObjectMapResize (id : string) (num_objs : Z) (r : Z)
| RemoveHeader (id : string) (r : Z)
| DirRemoveImage (name id : string) (r : Z)
| RemoveIdObject (name : string) (r : Z).

(** The configuration values that [create] reads. *)
Record Conf : Type := mkConf {
  rbd_default_order : Z;
  rbd_default_stripe_unit : Z;
  rbd_default_stripe_count : Z
}.

Section WithWorld.
Context {W : Type}.

Record Env : Type := {
  conf : Conf;
  (* librados *)
  stat_old_header : string → W → Z * W;
  stat_id_object : string → W → Z * W;
  get_instance_id : W → Z * W;
  tmap_update_set : string → W → Z * W;
  tmap_update_rm : string → W → Z * W;
  write_old_header : string → Z → Z → Z → W → Z * W;
  create_id_object : string → W → Z * W;
  remove_header : string → W → Z * W;
  remove_id_object : string → W → Z * W;
  (* the id made of the instance id and a random number, in hex *)
  new_image_id : Z → W → string * W;
  (* cls_client *)
  set_id : string → string → W → Z * W;
  dir_add_image : string → string → W → Z * W;
  dir_remove_image : string → string → W → Z * W;
  create_image : string → Z → Z → Z → W → Z * W;
  set_stripe_unit_count : string → Z → Z → W → Z * W;
  object_map_resize : string → Z → W → Z * W;
  (* Striper::get_num_objects, by object size, stripe unit, stripe
     count and image size *)
  get_num_objects : Z → Z → Z → Z → Z
}.

Variable env : Env.

Definition M (A : Type) : Type := W → A * W * list event.

Definition ret {A} (a : A) : M A := λ w, (a, w, []).
Definition bind {A B} (m : M A) (k : A → M B) : M B :=
  λ w, let '(a, w1, t1) := m w in
       let '(b, w2, t2) := k a w1 in
       (b, w2, t1 ++ t2).
Definition call {A} (f : W → A * W) (e : A → list event) : M A :=
  λ w, let '(a, w') := f w in (a, w', e a).

Declare Scope create_scope.
Notation "x ← y ; z" := (bind y (λ x, z))
  (at level 20, y at level 100, z at level 200, only parsing) : create_scope.
Notation "y ;; z" := (bind y (λ _, z))
  (at level 100, z at level 200, only parsing, right associativity)
  : create_scope.
Local Open Scope create_scope.

(** [detect_format], lines 205-226: the result and what is left in
    [*old_format]. *)
Definition detect_format (name : string) : M (Z * bool) :=
  r ← call (stat_old_header env name) (λ r, [StatOldHeader name r]) ;
  if r =? - ENOENT then
    r ← call (stat_id_object env name) (λ r, [StatIdObject name r]) ;
    if r <? 0 then ret (r, false) else ret (0, false)
  else if r <? 0 then ret (r, true)
  else ret (0, true).

(** [tmap_set] and [tmap_rm], lines 396-413. *)
Definition tmap_set (imgname : string) : M Z :=
  call (tmap_update_set env imgname) (λ r, [TmapSet imgname r]).
Definition tmap_rm (imgname : string) : M Z :=
  call (tmap_update_rm env imgname) (λ r, [TmapRm imgname r]).

(** [create_v1], lines 969-1004. *)
Definition create_v1 (imgname : string) (bid size order : Z) : M Z :=
  r ← tmap_set imgname ;
  if r <? 0 then ret r else
  r ← call (write_old_header env imgname size order bid)
        (λ r, [WriteOldHeader imgname size order bid r]) ;
  if r <? 0 then
    tmap_rm imgname ;;
    ret r
  else ret 0.

(** The labels at the end of [create_v2]. *)
Definition err_remove_id (imgname : string) (r : Z) : M Z :=
  call (remove_id_object env imgname) (λ x, [RemoveIdObject imgname x]) ;;
  ret r.
Definition err_remove_from_dir (imgname id : string) (r : Z) : M Z :=
  call (dir_remove_image env imgname id)
    (λ x, [DirRemoveImage imgname id x]) ;;
  err_remove_id imgname r.
Definition err_remove_header (imgname id : string) (r : Z) : M Z :=
  call (remove_header env id) (λ x, [RemoveHeader id x]) ;;
  err_remove_from_dir imgname id r.

(** [create_v2], lines 1006-1119. *)
Definition create_v2 (imgname : string) (bid size order features
  stripe_unit stripe_count : Z) : M Z :=
  r ← call (create_id_object env imgname) (λ r, [CreateIdObject imgname r]) ;
  if r <? 0 then ret r else
  id ← call (new_image_id env bid) (λ _, []) ;
  r ← call (set_id env imgname id) (λ r, [SetId imgname id r]) ;
  if r <? 0 then err_remove_id imgname r else
  r ← call (dir_add_image env imgname id) (λ r, [DirAddImage imgname id r]) ;
  if r <? 0 then err_remove_id imgname r else
  r ← call (create_image env id size order features)
        (λ r, [CreateImage id size order features r]) ;
  if r <? 0 then err_remove_from_dir imgname id r else
  rs ← (if (negb (stripe_unit =? 0) || negb (stripe_count =? 0)) &&
           (negb (stripe_count =? 1) ||
            negb (stripe_unit =? Z.shiftl 1 order))
        then
          r ← call (set_stripe_unit_count env id stripe_unit stripe_count)
                (λ r, [SetStripeUnitCount id stripe_unit stripe_count r]) ;
          ret (r, r <? 0)
        else ret (r, false)) ;
  let '(r, failed) := rs in
  if failed : bool then err_remove_header imgname id r else
  if negb (Z.land features RBD_FEATURE_FAST_DIFF =? 0) &&
     (Z.land features RBD_FEATURE_OBJECT_MAP =? 0)
  then err_remove_header imgname id r
  else if negb (Z.land features RBD_FEATURE_OBJECT_MAP =? 0) then
    if Z.land features RBD_FEATURE_EXCLUSIVE_LOCK =? 0
    then err_remove_header imgname id r
    else
      (* the fields of ceph_file_layout are 32 bits wide *)
      let object_size := to_le32 (Z.shiftl 1 order) in
      let '(su, sc) :=
        if (stripe_unit =? 0) || (stripe_count =? 0)
        then (object_size, 1)
        else (to_le32 stripe_unit, to_le32 stripe_count) in
      let num_objs := get_num_objects env object_size su sc size in
      r ← call (object_map_resize env id num_objs)
            (λ r, [ObjectMapResize id num_objs r]) ;
      if r <? 0 then err_remove_header imgname id r else ret 0
  else ret 0.

(** [create], lines 1130-1210, with [order] the pointer ([None] for
    NULL): the result and what is left in [*order]. *)
Definition create (imgname : string) (size : Z) (old_format : bool)
  (features : Z) (order : option Z) (stripe_unit stripe_count : Z)
  : M (Z * option Z) :=
  match order with
  | None => ret (- EINVAL, None)
  | Some order =>
    if negb (Z.land features (Z.lnot RBD_FEATURES_ALL) =? 0)
    then ret (- ENOSYS, Some order) else
    (* make sure it doesn't already exist, in either format *)
    rd ← detect_format imgname ;
    let r := rd.1 in
    if negb (r =? - ENOENT) then
      if negb (r =? 0) then ret (r, Some order)
      else ret (- EEXIST, Some order)
    else
    let order := if order =? 0 then rbd_default_order (conf env)
                 else order in
    let order := if order =? 0 then RBD_DEFAULT_OBJ_ORDER else order in
    if (25 <? order) || (order <? 12) then ret (- EDOM, Some order) else
    bid ← call (get_instance_id env) (λ bid, [GetInstanceId bid]) ;
    (* if striping is enabled, use possibly custom defaults *)
    let defaults :=
      negb old_format &&
      negb (Z.land features RBD_FEATURE_STRIPINGV2 =? 0) &&
      (stripe_unit =? 0) && (stripe_count =? 0) in
    let stripe_unit' :=
      if defaults then rbd_default_stripe_unit (conf env)
      else stripe_unit in
    let stripe_count' :=
      if defaults then rbd_default_stripe_count (conf env)
      else stripe_count in
    (* normalize for default striping *)
    let normal :=
      (stripe_unit' =? Z.shiftl 1 order) && (stripe_count' =? 1) in
    let stripe_unit := if normal then 0 else stripe_unit' in
    let stripe_count := if normal then 0 else stripe_count' in
    if (negb (stripe_unit =? 0) || negb (stripe_count =? 0)) &&
       (Z.land features RBD_FEATURE_STRIPINGV2 =? 0)
    then ret (- EINVAL, Some order) else
    if (negb (stripe_unit =? 0) && (stripe_count =? 0)) ||
       ((stripe_unit =? 0) && negb (stripe_count =? 0))
    then ret (- EINVAL, Some order) else
    if old_format then
      if negb (stripe_unit =? 0) &&
         negb (stripe_unit =? Z.shiftl 1 order)
      then ret (- EINVAL, Some order) else
      if negb (stripe_count =? 0) && negb (stripe_count =? 1)
      then ret (- EINVAL, Some order) else
      r ← create_v1 imgname bid size order ;
      ret (r, Some order)
    else
      r ← create_v2 imgname bid size order features stripe_unit
            stripe_count ;
      ret (r, Some order)
  end.

End WithWorld.

Arguments Env : clear implicits.

(** ** What a creation leaves behind *)

(** The objects of an image that a trace has created and has not
    tried to remove since: the directory entry, the id object, the
    header, the object map. *)
Record residue : Type := mkResidue {
  in_directory : bool;
  id_object : bool;
  header_object : bool;
  object_map : bool
}.

Definition nothing : residue := mkResidue false false false false.

Definition leave (e : event) (s : residue) : residue :=
  match e with
  | TmapSet _ r | DirAddImage _ _ r =>
    mkResidue (in_directory s || (0 <=? r)) (id_object s) (header_object s)
      (object_map s)
  | TmapRm _ _ | DirRemoveImage _ _ _ =>
    mkResidue false (id_object s) (header_object s) (object_map s)
  | CreateIdObject _ r =>
    mkResidue (in_directory s) (id_object s || (0 <=? r)) (header_object s)
      (object_map s)
  | RemoveIdObject _ _ =>
    mkResidue (in_directory s) false (header_object s) (object_map s)
  | WriteOldHeader _ _ _ _ r | CreateImage _ _ _ _ r =>
    mkResidue (in_directory s) (id_object s) (header_object s || (0 <=? r))
      (object_map s)
  | RemoveHeader _ _ =>
    mkResidue (in_directory s) (id_object s) false (object_map s)
  | ObjectMapResize _ _ r =>
    mkResidue (in_directory s) (id_object s) (header_object s)
      (object_map s || (0 <=? r))
  | _ => s
  end.

Definition left_behind (t : list event) : residue :=
  foldl (λ s e, leave e s) nothing t.

(** The calls that create or write something, and whether all of
    those in a trace succeeded. *)
Definition creates (e : event) : option Z :=
  match e with
  | TmapSet _ r | WriteOldHeader _ _ _ _ r | CreateIdObject _ r
  | SetId _ _ r | DirAddImage _ _ r | CreateImage _ _ _ _ r
  | SetStripeUnitCount _ _ _ r | ObjectMapResize _ _ r => Some r
  | _ => None
  end.

Definition all_created (t : list event) : bool :=
  forallb (λ e, match creates e with
                | Some r => 0 <=? r
                | None => true
                end) t.

(** What [create] hands to [create_v1] or [create_v2]. *)
Definition dispatched (t : list event) : list event :=
  List.filter (λ e, match e with
                    | TmapSet _ _ | CreateIdObject _ _ => true
                    | _ => false
                    end) t.

(** [m] run from [w] ends in a result, a world and a trace that
    satisfy [Q]. *)
Definition wpc {W A} (m : @M W A) (Q : A → W → list event → Prop) (w : W)
  : Prop :=
  let '(a, w', t) := m w in Q a w' t.

(** A pool without the image, in which every call goes through. *)
Definition accepting_env : Env unit := {|
  conf := mkConf 0 0 0;
  stat_old_header := λ _ w, (- ENOENT, w);
  stat_id_object := λ _ w, (- ENOENT, w);
  get_instance_id := λ w, (4121, w);
  tmap_update_set := λ _ w, (0, w);
  tmap_update_rm := λ _ w, (0, w);
  write_old_header := λ _ _ _ _ w, (0, w);
  create_id_object := λ _ w, (0, w);
  remove_header := λ _ w, (0, w);
  remove_id_object := λ _ w, (0, w);
  new_image_id := λ _ w, ("10196b8b4567"%string, w);
  set_id := λ _ _ w, (0, w);
  dir_add_image := λ _ _ w, (0, w);
  dir_remove_image := λ _ _ w, (0, w);
  create_image := λ _ _ _ _ w, (0, w);
  set_stripe_unit_count := λ _ _ _ w, (0, w);
  object_map_resize := λ _ _ w, (0, w);
  get_num_objects := λ object_size _ _ size,
    (size + object_size - 1) / object_size
|}.

End Creation.
(** * Properties *)

(** ** The exclusive-lock coordinator *)

Module CoordinatorProofs.
Import Coordinator.

Section WithWorld.
Context {W : Type}.
Variable env : @Env W.

Lemma run_app {S : Type} (step : S → event → option S) (s : S)
  (t1 t2 : list event) :
  run step s (t1 ++ t2) = run step s t1 ≫= λ s1, run step s1 t2.
Proof.
  revert s. induction t1 as [|e t1 IH]; intros s; simpl; [done|].
  destruct (step s e); simpl; [apply IH|done].
Qed.

Lemma run_snoc {S : Type} (step : S → event → option S) (s : S)
  (t : list event) (e : event) :
  run step s (t ++ [e]) = run step s t ≫= λ s1, step s1 e.
Proof.
  rewrite run_app. destruct (run step s t) as [s1|]; simpl; [|done].
  by destruct (step s1 e).
Qed.

(** Splitting a list that ends in [e] around one of its elements. *)
Lemma snoc_eq_middle {A : Type} (l pre post : list A) (e x : A) :
  l ++ [e] = pre ++ x :: post →
  (post = [] ∧ x = e ∧ pre = l) ∨
  (∃ post', post = post' ++ [e] ∧ l = pre ++ x :: post').
Proof.
  intros H. destruct post as [|y post _] using rev_ind.
  - left. apply (app_inj_tail l pre e x) in H as [-> ->]. done.
  - right. exists post.
    replace (pre ++ x :: post ++ [y]) with ((pre ++ x :: post) ++ [y]) in H
      by (by rewrite <- app_assoc).
    apply app_inj_tail in H as [-> ->]. done.
Qed.

Lemma forallb_snoc {A : Type} (f : A → bool) (l : list A) (x : A) :
  forallb f (l ++ [x]) = forallb f l && f x.
Proof. rewrite forallb_app. simpl. by rewrite andb_true_r. Qed.

(** What the hold monitor's state says about the trace it has read. *)
Lemma hold_run_sound (t : list event) (h : hold) :
  run hold_step (Hold false false) t = Some h →
  dispatch_guarded t ∧
  (held h = true →
   ∃ pre1 mid, t = pre1 ++ OwnerLockGetRead :: mid ∧
               forallb (λ e, negb (owner_lock_event e)) mid = true) ∧
  (owner_seen h = true → ∃ t', t = t' ++ [QueryLockOwner true]).
Proof.
  revert h. induction t as [|e t IH] using rev_ind; intros h Hrun.
  - simpl in Hrun. injection Hrun as <-. split; [|split]; simpl; try done.
    intros pre r post H. by destruct pre.
  - rewrite run_snoc in Hrun.
    destruct (run hold_step (Hold false false) t) as [h0|] eqn:E;
      simpl in Hrun; [|done].
    destruct (IH h0 eq_refl) as (Hg & Hheld & Hseen).
    assert (Hg' : ∀ pre r post,
               t ++ [e] = pre ++ CallLocalRequest r :: post →
               post ≠ [] →
               ∃ pre1 mid,
                 pre = pre1 ++ OwnerLockGetRead :: mid ++ [QueryLockOwner true] ∧
                 forallb (λ e, negb (owner_lock_event e)) mid = true).
    { intros pre r post H Hne.
      apply snoc_eq_middle in H as [(-> & _)|(post' & -> & H)]; [done|].
      by apply (Hg pre r post'). }
    assert (Hkeep : held h = held h0 → held h = true → e ≠ OwnerLockGetRead →
               owner_lock_event e = false →
               ∃ pre1 mid, t ++ [e] = pre1 ++ OwnerLockGetRead :: mid ∧
                 forallb (λ e, negb (owner_lock_event e)) mid = true).
    { intros Heq Hh _ He. rewrite Heq in Hh.
      destruct (Hheld Hh) as (pre1 & mid & -> & Hmid).
      exists pre1, (mid ++ [e]). split; [by rewrite <- app_assoc|].
      rewrite forallb_snoc, Hmid, He. done. }
    assert (Hdisp : ∀ r, e = CallLocalRequest r →
               held h0 = true → owner_seen h0 = true → dispatch_guarded (t ++ [e])).
    { intros r -> Hh Hs pre r' post H.
      destruct post as [|x post]; [|apply (Hg' pre r' (x :: post)); done].
      apply (app_inj_tail t pre) in H as [-> _].
      destruct (Hheld Hh) as (pre1 & mid & Ht & Hmid).
      destruct (Hseen Hs) as (t' & Ht').
      destruct mid as [|y mid _] using rev_ind.
      { rewrite Ht' in Ht. apply app_inj_tail in Ht as [_ ?]. done. }
      exists pre1, mid. rewrite forallb_snoc in Hmid.
      apply andb_true_iff in Hmid as [Hmid _].
      split; [|done].
      rewrite Ht. rewrite Ht in Ht'.
      replace (pre1 ++ OwnerLockGetRead :: mid ++ [y])
        with ((pre1 ++ OwnerLockGetRead :: mid) ++ [y]) in Ht'
        by (by rewrite <- app_assoc).
      apply app_inj_tail in Ht' as [_ ->]. done. }
    assert (Hother : (∀ r, e ≠ CallLocalRequest r) → dispatch_guarded (t ++ [e])).
    { intros Hne pre r post H.
      destruct post as [|x post]; [|apply (Hg' pre r (x :: post)); done].
      apply (app_inj_tail t pre) in H as [_ ->]. by destruct (Hne r). }
    destruct e; simpl in Hrun;
      try (injection Hrun as <-; simpl;
           split; [by apply Hother|];
           split; [|try done]);
      try (intros Hh; by apply Hkeep);
      try done.
    + intros _. exists t, []. done.
    + intros ->. by exists t.
    + destruct (held h0) eqn:Hh; simpl in Hrun; [|done].
      destruct (owner_seen h0) eqn:Hs; simpl in Hrun; [|done].
      injection Hrun as <-. simpl.
      split; [by apply (Hdisp r)|].
      split; [|done]. intros _. by apply Hkeep.
Qed.

(** What the retry monitor's state says about the trace it has read. *)
Lemma retry_run_sound (t : list event) (p : phase) :
  run retry_step Running t = Some p →
  (∀ pre r post, t = pre ++ CallRemoteRequest r :: post →
     if retry_signal r
     then (post = [] ∧ p = Requery) ∨
          (∃ b post', post = QueryLockSupported b :: post')
     else (post = [] ∧ p = Releasing r) ∨
          (post = [OwnerLockPutRead] ∧ p = Finished r)) ∧
  (∀ pre r post, t = pre ++ CallLocalRequest r :: post → r < 0 →
     (post = [] ∧ p = Releasing r) ∨
     (post = [OwnerLockPutRead] ∧ p = Finished r)) ∧
  (∀ pre r post, t = pre ++ CallCtxWait r :: post →
     if r =? - ERESTART
     then (post = [] ∧ p = Reacquire) ∨
          (∃ post', post = OwnerLockGetRead :: post')
     else post = [] ∧ p = Finished r) ∧
  (∀ x, p = Finished x →
     (∃ pre, t = pre ++ [CallRemoteRequest x; OwnerLockPutRead]) ∨
     (∃ pre, t = pre ++ [CallLocalRequest x; OwnerLockPutRead]) ∨
     (∃ pre, t = pre ++ [CallCtxWait x])) ∧
  (∀ x, p = Releasing x →
     (∃ pre, t = pre ++ [CallRemoteRequest x]) ∨
     (∃ pre, t = pre ++ [CallLocalRequest x])).
Proof.
  revert p. induction t as [|e t IH] using rev_ind; intros p Hrun.
  { simpl in Hrun. injection Hrun as <-.
    repeat split; try done; intros pre r post H; by destruct pre. }
  rewrite run_snoc in Hrun.
  destruct (run retry_step Running t) as [p0|] eqn:E; simpl in Hrun; [|done].
  destruct (IH p0 eq_refl) as (I1 & I2 & I3 & I4 & I5). clear IH.
  split; [|split; [|split; [|split]]].
  - intros pre r post H.
    apply snoc_eq_middle in H as [(-> & <- & ->)|(post' & -> & H)].
    + destruct p0; simpl in Hrun; try done. injection Hrun as <-.
      destruct (retry_signal r); naive_solver.
    + specialize (I1 _ _ _ H). destruct (retry_signal r).
      * destruct I1 as [[-> ->]|(b & post'' & ->)].
        -- destruct e; simpl in Hrun; try done. right. by eexists _, [].
        -- right. by eexists _, _.
      * destruct I1 as [[-> ->]|[-> ->]]; [|done].
        destruct e; simpl in Hrun; try done. injection Hrun as <-.
        by right.
  - intros pre r post H Hr.
    apply snoc_eq_middle in H as [(-> & <- & ->)|(post' & -> & H)].
    + destruct p0; simpl in Hrun; try done. injection Hrun as <-.
      apply Z.ltb_lt in Hr. rewrite Hr. by left.
    + destruct (I2 _ _ _ H Hr) as [[-> ->]|[-> ->]]; [|done].
      destruct e; simpl in Hrun; try done. injection Hrun as <-.
      by right.
  - intros pre r post H.
    apply snoc_eq_middle in H as [(-> & <- & ->)|(post' & -> & H)].
    + destruct p0; simpl in Hrun; try done. injection Hrun as <-.
      destruct (r =? - ERESTART); naive_solver.
    + specialize (I3 _ _ _ H). destruct (r =? - ERESTART).
      * destruct I3 as [[-> ->]|(post'' & ->)].
        -- destruct e; simpl in Hrun; try done. right. by eexists [].
        -- right. by eexists _.
      * destruct I3 as [-> ->]. done.
  - intros x ->.
    destruct p0; simpl in Hrun; try done.
    + destruct e; simpl in Hrun; simplify_eq;
        try (destruct (retry_signal r); done);
        try (destruct (r <? 0); done).
      destruct (r =? - ERESTART); simplify_eq. right. right. by exists t.
    + destruct e; simpl in Hrun; simplify_eq.
    + destruct e; simpl in Hrun; simplify_eq.
      destruct (I5 x eq_refl) as [[pre ->]|[pre ->]]; [left|right; left];
        exists pre; by rewrite <- app_assoc.
    + destruct e; simpl in Hrun; simplify_eq.
  - intros x ->.
    destruct p0; simpl in Hrun; try done;
      destruct e; simpl in Hrun; simplify_eq;
      try (destruct (r =? - ERESTART); done).
    + destruct (retry_signal r); simplify_eq. left. by exists t.
    + destruct (r <? 0); simplify_eq. right. by exists t.
Qed.

(** *** One continuous hold from the ownership check to the dispatch *)

Ltac run_call H f w :=
  let a := fresh "a" in let w' := fresh "w" in let E := fresh "E" in
  destruct (f w) as [a w'] eqn:E; simpl in H.

Ltac unfold_m H :=
  unfold bind, peek, q_lock_supported, q_lock_owner, call, emit, act, ret
    in H; simpl in H.

Lemma prepare_image_update_hold (w w' : W) (r : Z) (t : list event)
  (h : hold) :
  prepare_image_update env w = (r, w', t) →
  held h = true →
  ∃ h', run hold_step h t = Some h' ∧ held h' = true.
Proof.
  intros H Hh. unfold prepare_image_update in H. unfold_m H.
  destruct (image_watcher_present env w); simpl in H;
    [|simplify_eq; simpl; eauto].
  run_call H (is_lock_supported env) w.
  destruct a; simpl in H; [|simplify_eq; simpl; eauto].
  run_call H (is_lock_owner env) w0.
  destruct a; simpl in H; [simplify_eq; simpl; eauto|].
  run_call H (is_lock_owner env) w1.
  destruct a; simpl in H; [simplify_eq; simpl; eauto|].
  run_call H (try_lock env) w2.
  run_call H (is_lock_owner env) w3.
  destruct a0; simpl in H; simplify_eq; simpl; eauto.
Qed.

(** *** What is retried and what is returned *)

Lemma prepare_image_update_retry (w w' : W) (r : Z) (t : list event) :
  prepare_image_update env w = (r, w', t) →
  run retry_step Running t = Some Running.
Proof.
  intros H. unfold prepare_image_update in H. unfold_m H.
  destruct (image_watcher_present env w); simpl in H; [|by simplify_eq].
  run_call H (is_lock_supported env) w.
  destruct a; simpl in H; [|by simplify_eq].
  run_call H (is_lock_owner env) w0.
  destruct a; simpl in H; [by simplify_eq|].
  run_call H (is_lock_owner env) w1.
  destruct a; simpl in H; [by simplify_eq|].
  run_call H (try_lock env) w2.
  run_call H (is_lock_owner env) w3.
  destruct a0; simpl in H; by simplify_eq.
Qed.

Lemma lock_loop_retry (fuel : nat) (w w' : W) (o : loop_exit)
  (t : list event) (p0 : phase) :
  lock_loop env fuel w = (o, w', t) →
  p0 = Running ∨ p0 = Requery →
  ∃ p, run retry_step p0 t = Some p ∧
       match o with
       | Proceed => p = Running
       | Leave r => p = Releasing r ∨ (p = Running ∧ r = - EROFS)
       | Exhausted => p = Running ∨ p = Requery
       end.
Proof.
  revert w w' o t p0.
  induction fuel as [|fuel IH]; intros w w' o t p0 H Hp0; simpl in H.
  { unfold_m H. simplify_eq. simpl. eauto. }
  unfold bind at 1 in H. unfold q_lock_supported at 1 in H.
  unfold call at 1 in H.
  run_call H (is_lock_supported env) w.
  assert (Hq : retry_step p0 (QueryLockSupported a) = Some Running)
    by (by destruct Hp0 as [-> | ->]).
  destruct a; simpl in H; [|unfold_m H; simplify_eq; simpl; rewrite Hq; eauto].
  unfold bind at 1 in H.
  destruct (prepare_image_update env w0) as [[r w1] t1] eqn:Ep.
  pose proof (prepare_image_update_retry _ _ _ _ Ep) as Hrun1.
  destruct (r <? 0) eqn:Er; simpl in H.
  { unfold_m H. simplify_eq. simpl. rewrite Hq, app_nil_r, Hrun1. eauto. }
  unfold bind at 1 in H. unfold q_lock_owner at 1 in H.
  unfold call at 1 in H.
  run_call H (is_lock_owner env) w1. destruct a; simpl in H.
  { unfold_m H. simplify_eq. simpl. rewrite Hq, run_app, Hrun1. simpl. eauto. }
  unfold bind at 1 in H. unfold call at 1 in H.
  run_call H (remote_request env) w2.
  destruct (negb (a =? - ETIMEDOUT) && negb (a =? - ERESTART)) eqn:Ea;
    simpl in H.
  { unfold_m H. simplify_eq. simpl. rewrite Hq, run_app, Hrun1. simpl.
    unfold retry_signal. apply andb_true_iff in Ea as [Ea1 Ea2].
    apply negb_true_iff in Ea1, Ea2. rewrite Ea1, Ea2. simpl. eauto. }
  destruct (lock_loop env fuel w3) as [[o' w4] t2] eqn:El.
  destruct (IH _ _ _ _ Requery El (or_intror eq_refl)) as (p2 & Hrun2 & Hp2).
  simplify_eq. simpl. rewrite Hq, run_app, Hrun1. simpl.
  assert (retry_signal a = true) as ->.
  { unfold retry_signal. apply andb_false_iff in Ea as [Ea|Ea];
      apply negb_false_iff in Ea; rewrite Ea; [done|apply orb_true_r]. }
  simpl. rewrite Hrun2. eauto.
Qed.

Lemma invoke_async_request_retry (permit_snapshot : bool) (fuel : nat)
  (w w' : W) (o : outcome) (t : list event) (p0 : phase) :
  invoke_async_request env permit_snapshot fuel w = (o, w', t) →
  p0 = Running ∨ p0 = Reacquire →
  ∃ p, run retry_step p0 t = Some p ∧ ends_well p o.
Proof.
  revert w w' o t p0.
  induction fuel as [|fuel IH]; intros w w' o t p0 H Hp0; simpl in H.
  { unfold_m H. simplify_eq. simpl. exists p0.
    destruct Hp0 as [-> | ->]; simpl; eauto. }
  unfold_m H.
  assert (Hq : retry_step p0 OwnerLockGetRead = Some Running)
    by (by destruct Hp0 as [-> | ->]).
  destruct (read_only env w
            || negb permit_snapshot && negb (snap_id env w =? CEPH_NOSNAP));
    simpl in H.
  { simplify_eq. simpl. rewrite Hq. simpl. (eexists; split; [done|]; simpl; eauto 6). }
  destruct (image_watcher_present env w); simpl in H.
  2: { simplify_eq. simpl. rewrite Hq. simpl. (eexists; split; [done|]; simpl; eauto 6). }
  destruct (lock_loop env fuel w) as [[o1 w1] t1] eqn:El.
  destruct (lock_loop_retry _ _ _ _ _ Running El (or_introl eq_refl))
    as (p1 & Hrun1 & Hp1).
  destruct o1; simpl in H.
  - subst p1. run_call H (local_request env true) w1.
    destruct (a <? 0) eqn:Ea; simpl in H.
    + simplify_eq. simpl. rewrite Hq. simpl. rewrite run_app, Hrun1. simpl.
      rewrite Ea. simpl. (eexists; split; [done|]; simpl; eauto 6).
    + run_call H (ctx_wait env) w0.
      destruct (a0 =? - ERESTART) eqn:Ea0; simpl in H.
      * destruct (invoke_async_request env permit_snapshot fuel w2)
          as [[o' w3] t2] eqn:Ei.
        destruct (IH _ _ _ _ Reacquire Ei (or_intror eq_refl))
          as (p2 & Hrun2 & Hp2).
        simplify_eq. simpl. rewrite Hq. simpl. rewrite run_app, Hrun1. simpl.
        rewrite Ea. simpl. rewrite Ea0. (eexists; split; [done|]; simpl; eauto 6).
      * simplify_eq. simpl. rewrite Hq. simpl. rewrite run_app, Hrun1. simpl.
        rewrite Ea. simpl. rewrite Ea0. simpl. (eexists; split; [done|]; simpl; eauto 6).
  - simplify_eq. simpl. rewrite Hq. simpl. rewrite run_app, Hrun1. simpl.
    destruct Hp1 as [-> | [-> ->]]; simpl; (eexists; split; [done|]; simpl; eauto 6).
  - simplify_eq. simpl. rewrite Hq. simpl. rewrite app_nil_r, Hrun1.
    destruct Hp1 as [-> | ->]; simpl; (eexists; split; [done|]; simpl; eauto 6).
Qed.

Lemma retry_discipline_holds (permit_snapshot : bool) (fuel : nat)
  (w : W) :
  retry_discipline (invoke_async_request env permit_snapshot fuel w).2
                   (invoke_async_request env permit_snapshot fuel w).1.1.
Proof.
  destruct (invoke_async_request env permit_snapshot fuel w)
    as [[o w'] t] eqn:E. simpl.
  destruct (invoke_async_request_retry _ _ _ _ _ _ Running E
              (or_introl eq_refl)) as (p & Hrun & Hend).
  destruct (retry_run_sound _ _ Hrun) as (I1 & I2 & I3 & I4 & I5).
  split; [|split; [|split]].
  - intros pre r post H. specialize (I1 _ _ _ H).
    destruct (retry_signal r).
    + destruct I1 as [[-> ->]|?]; [left|right]; done.
    + destruct I1 as [[-> ->]|[-> ->]]; done.
  - intros pre r post H Hr.
    destruct (I2 _ _ _ H Hr) as [[-> ->]|[-> ->]]; done.
  - intros pre r post H. specialize (I3 _ _ _ H).
    destruct (r =? - ERESTART).
    + destruct I3 as [[-> ->]|?]; [left|right]; done.
    + destruct I3 as [-> ->]. done.
  - intros x ->. destruct p; simpl in Hend; try done.
    + left. destruct Hend as [?|[?|?]]; by simplify_eq.
    + right. apply I4. by simplify_eq.
Qed.

(** The value returned is never a retry signal of the remote request,
    and never the Restart outcome of the awaited handler. *)
Lemma returned_value_provenance (permit_snapshot : bool) (fuel : nat)
  (w : W) (x : Z) :
  (invoke_async_request env permit_snapshot fuel w).1.1 = Returned x →
  let t := (invoke_async_request env permit_snapshot fuel w).2 in
  x = - EROFS ∨
  (∃ pre, t = pre ++ [CallRemoteRequest x; OwnerLockPutRead] ∧
          x ≠ - ETIMEDOUT ∧ x ≠ - ERESTART) ∨
  (∃ pre, t = pre ++ [CallLocalRequest x; OwnerLockPutRead] ∧ x < 0) ∨
  (∃ pre, t = pre ++ [CallCtxWait x] ∧ x ≠ - ERESTART).
Proof.
  intros Hx t.
  destruct (invoke_async_request env permit_snapshot fuel w)
    as [[o w'] t'] eqn:E. simpl in *. subst o t.
  destruct (invoke_async_request_retry _ _ _ _ _ _ Running E
              (or_introl eq_refl)) as (p & Hrun & Hend).
  destruct (retry_run_sound _ _ Hrun) as (I1 & I2 & I3 & I4 & I5).
  destruct p; simpl in Hend; try done.
  { left. destruct Hend as [?|[?|?]]; by simplify_eq. }
  assert (r = x) as -> by congruence. clear Hend. right.
  destruct (I4 x eq_refl) as [[pre Ht]|[[pre Ht]|[pre Ht]]].
  - left. exists pre. split; [done|].
    specialize (I1 pre x [OwnerLockPutRead] Ht).
    unfold retry_signal in I1.
    destruct (x =? - ETIMEDOUT) eqn:E1; simpl in I1;
      [destruct I1 as [[? _]|(? & ? & ?)]; done|].
    destruct (x =? - ERESTART) eqn:E2; simpl in I1;
      [destruct I1 as [[? _]|(? & ? & ?)]; done|].
    apply Z.eqb_neq in E1, E2. done.
  - right. left. exists pre. split; [done|].
    destruct (Z.lt_ge_cases x 0) as [?|Hge]; [done|].
    exfalso. clear I1 I2 I3 I4 I5.
    (* a non-negative dispatch result keeps the monitor running *)
    rewrite Ht, run_app in Hrun.
    destruct (run retry_step Running pre) as [q|]; simpl in Hrun; [|done].
    destruct q; simpl in Hrun; try done.
    apply Z.ltb_ge in Hge. rewrite Hge in Hrun. simpl in Hrun. done.
  - right. right. exists pre. split; [done|].
    specialize (I3 pre x [] Ht).
    destruct (x =? - ERESTART) eqn:E1.
    + destruct I3 as [[_ ?]|(? & ?)]; done.
    + by apply Z.eqb_neq in E1.
Qed.

(** C2, amended.  In every run of [invoke_async_request]: a Timeout or
    Restart answer of the remote request is followed by a new evaluation
    of the loop condition; a Restart outcome of the awaited handler is
    followed by a new acquisition of [owner_lock]; any other answer of
    the remote request, a negative result of the dispatch itself
    (whatever its value) and any other awaited outcome (Timeout
    included) end the call with that value.  So the value returned is
    [-EROFS], a remote answer that is neither Timeout nor Restart, a
    negative dispatch result, or an awaited outcome other than
    Restart. *)
Theorem retry_and_return_discipline (permit_snapshot : bool) (fuel : nat)
  (w : W) :
  let t := (invoke_async_request env permit_snapshot fuel w).2 in
  let o := (invoke_async_request env permit_snapshot fuel w).1.1 in
  retry_discipline t o ∧
  ∀ x, o = Returned x →
    x = - EROFS ∨
    (∃ pre, t = pre ++ [CallRemoteRequest x; OwnerLockPutRead] ∧
            x ≠ - ETIMEDOUT ∧ x ≠ - ERESTART) ∨
    (∃ pre, t = pre ++ [CallLocalRequest x; OwnerLockPutRead] ∧ x < 0) ∨
    (∃ pre, t = pre ++ [CallCtxWait x] ∧ x ≠ - ERESTART).
Proof.
  intros t o. split.
  - apply retry_discipline_holds.
  - intros x Hx. by apply returned_value_provenance.
Qed.

(** *** AlreadyExists from the coordinated run is success *)

(** C9.  When the run of [invoke_async_request] inside [snap_create],
    or inside [snap_remove] on a device with the fast-diff feature,
    returns [-EEXIST], the public operation returns 0. *)
Theorem snap_create_remove_swallow_eexist (snap_name : string)
  (fuel : nat) (w w1 w2 : W) (r0 : Z) (t : list event) :
  read_only env w = false →
  ictx_check env w = (r0, w1) →
  0 ≤ r0 →
  invoke_async_request env true fuel w1 = (Returned (- EEXIST), w2, t) →
  (get_snap_id env snap_name w1 = CEPH_NOSNAP →
   (snap_create env snap_name fuel w).1.1 = Returned 0) ∧
  (get_snap_id env snap_name w1 ≠ CEPH_NOSNAP →
   features_fast_diff env w1 = true →
   (snap_remove env snap_name fuel w).1.1 = Returned 0).
Proof.
  intros Hro Hc Hr0 Hi. apply Z.ltb_ge in Hr0. split.
  - intros Hs. unfold snap_create, bind, peek, call, emit, act, ret.
    rewrite Hro, Hc. simpl. rewrite Hr0. simpl.
    rewrite Hs. simpl. rewrite Hi. done.
  - intros Hs Hf. unfold snap_remove, bind, peek, call, emit, act, ret.
    rewrite Hro, Hc. simpl. rewrite Hr0. simpl.
    apply Z.eqb_neq in Hs. rewrite Hs, Hf. simpl. rewrite Hi. done.
Qed.

Hypothesis lock_supported : ∀ w, (is_lock_supported env w).1 = true.

Lemma lock_loop_hold (fuel : nat) (w w' : W) (o : loop_exit)
  (t : list event) (h : hold) :
  lock_loop env fuel w = (o, w', t) →
  held h = true →
  ∃ h', run hold_step h t = Some h' ∧ held h' = true ∧
        (o = Proceed → owner_seen h' = true).
Proof.
  revert w w' o t h.
  induction fuel as [|fuel IH]; intros w w' o t h H Hh; simpl in H.
  { unfold_m H. simplify_eq. simpl. naive_solver. }
  unfold bind at 1 in H. unfold q_lock_supported at 1 in H.
  unfold call at 1 in H.
  pose proof (lock_supported w) as Hs.
  run_call H (is_lock_supported env) w. simpl in Hs. subst a. simpl in H.
  unfold bind at 1 in H.
  destruct (prepare_image_update env w0) as [[r w1] t1] eqn:Ep.
  destruct (prepare_image_update_hold _ _ _ _ (Hold (held h) false) Ep Hh)
    as (h1 & Hrun1 & Hh1).
  destruct (r <? 0) eqn:Er; simpl in H.
  { unfold_m H. simplify_eq. simpl. rewrite app_nil_r, Hrun1. naive_solver. }
  unfold bind at 1 in H. unfold q_lock_owner at 1 in H.
  unfold call at 1 in H.
  run_call H (is_lock_owner env) w1. destruct a; simpl in H.
  { unfold_m H. simplify_eq. simpl.
    rewrite run_app, Hrun1. simpl. rewrite Hh1. naive_solver. }
  unfold bind at 1 in H. unfold call at 1 in H.
  run_call H (remote_request env) w2.
  destruct (negb (a =? - ETIMEDOUT) && negb (a =? - ERESTART)); simpl in H.
  { unfold_m H. simplify_eq. simpl.
    rewrite run_app, Hrun1. simpl. rewrite Hh1. naive_solver. }
  destruct (lock_loop env fuel w3) as [[o' w4] t2] eqn:El.
  destruct (IH _ _ _ _ (Hold true false) El eq_refl) as (h2 & Hrun2 & Hh2 & Hp).
  simplify_eq. simpl. rewrite run_app, Hrun1. simpl.
  rewrite Hh1. simpl. rewrite Hrun2. naive_solver.
Qed.

Lemma invoke_async_request_hold (permit_snapshot : bool) (fuel : nat)
  (w w' : W) (o : outcome) (t : list event) (h : hold) :
  invoke_async_request env permit_snapshot fuel w = (o, w', t) →
  is_Some (run hold_step h t).
Proof.
  revert w w' o t h.
  induction fuel as [|fuel IH]; intros w w' o t h H; simpl in H.
  { unfold_m H. by simplify_eq. }
  unfold_m H.
  destruct (read_only env w
            || negb permit_snapshot && negb (snap_id env w =? CEPH_NOSNAP));
    simpl in H; [by simplify_eq|].
  destruct (image_watcher_present env w); simpl in H; [|by simplify_eq].
  destruct (lock_loop env fuel w) as [[o1 w1] t1] eqn:El.
  destruct (lock_loop_hold _ _ _ _ _ (Hold true false) El eq_refl)
    as (h1 & Hrun1 & Hh1 & Hp).
  destruct o1; simpl in H.
  - specialize (Hp eq_refl).
    run_call H (local_request env true) w1.
    destruct (a <? 0); simpl in H.
    + simplify_eq. simpl. rewrite run_app, Hrun1. simpl. by rewrite Hh1, Hp.
    + run_call H (ctx_wait env) w0.
      destruct (a0 =? - ERESTART); simpl in H.
      * destruct (invoke_async_request env permit_snapshot fuel w2)
          as [[o' w3] t2] eqn:Ei.
        destruct (IH _ _ _ _ (Hold false false) Ei) as [h2 Hrun2].
        simplify_eq. simpl. rewrite run_app, Hrun1. simpl.
        rewrite Hh1, Hp. simpl. by rewrite Hrun2.
      * simplify_eq. simpl. rewrite run_app, Hrun1. simpl. by rewrite Hh1, Hp.
  - simplify_eq. simpl. rewrite run_app, Hrun1. done.
  - simplify_eq. simpl. rewrite app_nil_r, Hrun1. done.
Qed.

(** C1.  On a device whose lock semantics are supported, every dispatch
    of the local request by [invoke_async_request] directly follows an
    observation "this client is the lock owner", and the observation and
    the dispatch lie in one uninterrupted read-mode hold of
    [owner_lock]. *)
Theorem dispatch_under_one_owner_lock_hold (permit_snapshot : bool)
  (fuel : nat) (w : W) :
  dispatch_guarded (invoke_async_request env permit_snapshot fuel w).2.
Proof.
  destruct (invoke_async_request env permit_snapshot fuel w)
    as [[o w'] t] eqn:E.
  destruct (invoke_async_request_hold _ _ _ _ _ _ (Hold false false) E)
    as [h Hrun].
  by destruct (hold_run_sound _ _ Hrun).
Qed.

End WithWorld.

(** *** Concrete runs *)

(** The client is not the owner, acquires the lock in
    [prepare_image_update], observes itself as owner and dispatches. *)
Example acquire_then_dispatch :
  invoke_async_request (scripted_env true false CEPH_NOSNAP) false 3
    [0; 0; 0; 1; 1; 0; 0]
  = (Returned 0, [],
     [OwnerLockGetRead; SnapLockGetRead; SnapLockPutRead;
      QueryLockSupported true;
      QueryLockSupported true; QueryLockOwner false;
      OwnerLockPutRead; OwnerLockGetWrite; QueryLockOwner false;
      CallTryLock 0; QueryLockOwner true; OwnerLockPutWrite;
      CallFlushAsyncOperations; OwnerLockGetRead;
      QueryLockOwner true; CallLocalRequest 0; OwnerLockPutRead;
      CallCtxWait 0]).
Proof. reflexivity. Qed.

Lemma dispatch_under_one_owner_lock_hold_witness :
  dispatch_guarded
    (invoke_async_request (scripted_env true false CEPH_NOSNAP) false 3
       [0; 0; 0; 1; 1; 0; 0]).2.
Proof.
  apply (dispatch_under_one_owner_lock_hold
           (scripted_env true false CEPH_NOSNAP)).
  intros w. reflexivity.
Defined.

(** Where the lock is not supported the request is dispatched with no
    ownership check at all: the hypothesis of C1 is needed. *)
Example unsupported_lock_dispatches_unchecked :
  (invoke_async_request (scripted_env false false CEPH_NOSNAP) false 2
     [0; 0]).2
  = [OwnerLockGetRead; SnapLockGetRead; SnapLockPutRead;
     QueryLockSupported false; CallLocalRequest 0; OwnerLockPutRead;
     CallCtxWait 0].
Proof. reflexivity. Qed.

(** The owner does not answer in time, then the client finds itself
    owner; the handler is interrupted once and the whole sequence
    starts again. *)
Example timeout_then_restart_then_success :
  invoke_async_request (scripted_env true false CEPH_NOSNAP) false 3
    [0; 0; 0; 0; 0; -110; 1; 1; 0; -85; 1; 1; 0; 0]
  = (Returned 0, [],
     [OwnerLockGetRead; SnapLockGetRead; SnapLockPutRead;
      QueryLockSupported true;
      QueryLockSupported true; QueryLockOwner false;
      OwnerLockPutRead; OwnerLockGetWrite; QueryLockOwner false;
      CallTryLock 0; QueryLockOwner false; OwnerLockPutWrite;
      OwnerLockGetRead;
      QueryLockOwner false; CallRemoteRequest (-110);
      QueryLockSupported true;
      QueryLockSupported true; QueryLockOwner true;
      QueryLockOwner true; CallLocalRequest 0; OwnerLockPutRead;
      CallCtxWait (-85);
      OwnerLockGetRead; SnapLockGetRead; SnapLockPutRead;
      QueryLockSupported true;
      QueryLockSupported true; QueryLockOwner true;
      QueryLockOwner true; CallLocalRequest 0; OwnerLockPutRead;
      CallCtxWait 0]).
Proof. reflexivity. Qed.

(** C2 as stated fails: a Timeout outcome of the awaited handler and a
    Restart result of the dispatch itself are returned to the caller. *)
Lemma timeout_and_restart_escape :
  (invoke_async_request (scripted_env false false CEPH_NOSNAP) true 2
     [0; - ETIMEDOUT]).1.1 = Returned (- ETIMEDOUT) ∧
  (invoke_async_request (scripted_env false false CEPH_NOSNAP) true 2
     [- ERESTART]).1.1 = Returned (- ERESTART).
Proof. split; reflexivity. Qed.

Lemma snap_create_remove_swallow_eexist_witness :
  (snap_create (scripted_env false false CEPH_NOSNAP) "s1" 2
     [0; 0; - EEXIST]).1.1 = Returned 0 ∧
  (snap_remove (scripted_env false true 4) "s1" 2
     [0; 0; - EEXIST]).1.1 = Returned 0.
Proof.
  split.
  - eapply (snap_create_remove_swallow_eexist
              (scripted_env false false CEPH_NOSNAP) "s1" 2
              [0; 0; - EEXIST] [0; - EEXIST] [] 0);
      [reflexivity | reflexivity | lia | reflexivity | reflexivity].
  - eapply (snap_create_remove_swallow_eexist
              (scripted_env false true 4) "s1" 2
              [0; 0; - EEXIST] [0; - EEXIST] [] 0);
      [reflexivity | reflexivity | lia | reflexivity | | reflexivity].
    unfold CEPH_NOSNAP. simpl. lia.
Defined.

(** Without the coordinator (fast-diff disabled) [-EEXIST] from the
    helper is an error of [snap_remove]. *)
Example snap_remove_direct_reports_eexist :
  (snap_remove (scripted_env false false 4) "s1" 2 [0; - EEXIST]).1.1
  = Returned (- EEXIST).
Proof. reflexivity. Qed.

End CoordinatorProofs.

(** ** The device handle, the refresh engine and the parent resolver *)

Module ImageProofs.
Import Image.

(** *** Rules for [wp] *)

Section Wp.
Context {A B : Type}.

Lemma wp_intro (m : M A) (Q : A → ImageCtx → list action → Prop)
  (i : ImageCtx) :
  (∀ a i' l, m i = Some (a, i', l) → Q a i' l) → wp m Q i.
Proof. unfold wp. intros H. destruct (m i) as [[[a i'] l]|]; auto. Qed.

Lemma wp_elim (m : M A) (Q : A → ImageCtx → list action → Prop)
  (i i' : ImageCtx) (a : A) (l : list action) :
  wp m Q i → m i = Some (a, i', l) → Q a i' l.
Proof. unfold wp. intros H E. by rewrite E in H. Qed.

Lemma wp_mono (m : M A) (Q1 Q2 : A → ImageCtx → list action → Prop)
  (i : ImageCtx) :
  wp m Q1 i → (∀ a i' l, Q1 a i' l → Q2 a i' l) → wp m Q2 i.
Proof. unfold wp. destruct (m i) as [[[a i'] l]|]; auto. Qed.

Lemma wp_bind (m : M A) (k : A → M B)
  (Q : B → ImageCtx → list action → Prop) (i : ImageCtx) :
  wp m (λ a i1 l1, wp (k a) (λ b i2 l2, Q b i2 (l1 ++ l2)) i1) i →
  wp (bind m k) Q i.
Proof.
  unfold wp, bind. destruct (m i) as [[[a i1] l1]|]; [|done].
  destruct (k a i1) as [[[b i2] l2]|]; done.
Qed.

Lemma wp_ret (a : A) (Q : A → ImageCtx → list action → Prop)
  (i : ImageCtx) :
  Q a i [] → wp (ret a) Q i.
Proof. done. Qed.

Lemma wp_get (f : ImageCtx → A) (Q : A → ImageCtx → list action → Prop)
  (i : ImageCtx) :
  Q (f i) i [] → wp (get f) Q i.
Proof. done. Qed.

Lemma wp_stuck (Q : A → ImageCtx → list action → Prop) (i : ImageCtx) :
  wp stuck Q i.
Proof. done. Qed.

Lemma wp_on_parent (m : M A) (Q : A → ImageCtx → list action → Prop)
  (i : ImageCtx) :
  (∀ p, parent i = Some p →
        wp m (λ a p' l, Q a (set_parent (Some p') i) l) p) →
  wp (on_parent m) Q i.
Proof.
  unfold wp, on_parent. intros H.
  destruct (parent i) as [p|]; [|done].
  specialize (H p eq_refl). destruct (m p) as [[[a p'] l]|]; done.
Qed.

End Wp.

Lemma wp_modify (f : ImageCtx → ImageCtx)
  (Q : unit → ImageCtx → list action → Prop) (i : ImageCtx) :
  Q tt (f i) [] → wp (modify f) Q i.
Proof. done. Qed.

Lemma wp_log (a : action) (Q : unit → ImageCtx → list action → Prop)
  (i : ImageCtx) :
  Q tt i [a] → wp (log a) Q i.
Proof. done. Qed.

(** One step of symbolic execution. *)
Ltac wp_step :=
  lazymatch goal with
  | |- wp (bind _ _) _ _ => apply wp_bind
  | |- wp (ret _) _ _ => apply wp_ret
  | |- wp (get _) _ _ => apply wp_get
  | |- wp (modify _) _ _ => apply wp_modify
  | |- wp (log _) _ _ => apply wp_log
  | |- wp stuck _ _ => apply wp_stuck
  | |- wp (on_parent _) _ _ =>
    apply wp_on_parent;
    let Hpar := fresh "Hpar" in
    intros ? Hpar; cbn in Hpar; try (injection Hpar as <-)
  | |- wp (if ?b then _ else _) _ _ => destruct b eqn:?
  | |- wp (match ?x with _ => _ end) _ _ => destruct x eqn:?
  end.

Ltac wp_steps := repeat (wp_step; cbn beta).

(** *** Handle bookkeeping *)

Lemma set_parent_parent (i : ImageCtx) : set_parent (parent i) i = i.
Proof. by destruct i. Qed.

Lemma depth_unfold (h : ImageCtx) :
  depth h = 1 + depth_opt (parent h).
Proof. destruct h. simpl. destruct parent0; simpl; lia. Qed.

Lemma depth_pos : ∀ h : ImageCtx, 0 < depth h.
Proof.
  fix IH 1. intros h.
  destruct h as [? ? ? ? ? ? ? ? ? ? ? ? ? ? ? ? ? ? ? ? ? ? ? ? q ? ? ? ? ?].
  destruct q as [q|].
  - specialize (IH q). simpl. lia.
  - simpl. lia.
Qed.

(** Induction along the chain of parent handles. *)
Lemma ImageCtx_chain_ind (P : ImageCtx → Prop) :
  (∀ h, (∀ p, parent h = Some p → P p) → P h) → ∀ h, P h.
Proof.
  intros step h.
  assert (∀ n h, depth h ≤ Z.of_nat n → P h) as H.
  { clear h. induction n as [|n IH]; intros h Hd.
    - pose proof (depth_pos h). lia.
    - apply step. intros p Hp. apply IH.
      rewrite depth_unfold, Hp in Hd. simpl in Hd. lia. }
  apply (H (Z.to_nat (depth h))). pose proof (depth_pos h). lia.
Qed.

Lemma depth_opt_nonneg (o : option ImageCtx) : 0 ≤ depth_opt o.
Proof. destruct o as [p|]; simpl; [|lia]. pose proof (depth_pos p). lia. Qed.

Lemma live_app (l1 l2 : list action) : live (l1 ++ l2) = live l1 + live l2.
Proof.
  induction l1 as [|a l1 IH]; simpl; [lia|]. destruct a; lia.
Qed.

(** *** What the header reads leave alone *)

Ltac cache_blind := repeat split; intros; reflexivity.

Ltac nonneg_result :=
  match goal with
  | H : (?z <? 0) = false |- 0 ≤ ?z => by apply Z.ltb_ge
  end.

(** A result that passed a test [r < 0] is negative. *)
Ltac neg_result :=
  match goal with
  | H : (?z <? 0) && _ = true |- ?z < 0 =>
    apply andb_true_iff in H as [? _]; by apply Z.ltb_lt
  | H : (?z <? 0) = true |- ?z < 0 => by apply Z.ltb_lt
  end.

Section Reads.
Variable c : Cluster.
Context {X : Type} (f : ImageCtx → X) (Hf : cache_blind f).

Lemma read_old_format_frame (i : ImageCtx) :
  wp (read_old_format c)
     (λ rd i' l, f i' = f i ∧ live l = 0 ∧ ∀ r, rd = inl r → r < 0) i.
Proof.
  destruct Hf as (H1 & H2 & H3 & H4 & H5).
  unfold read_old_format. wp_steps; rewrite ?H3, ?H2, ?H1;
    (split; [done|]; split; [done|]; intros ? [= <-]); neg_result.
Qed.

Lemma read_new_format_frame (fuel : nat) (i : ImageCtx) :
  wp (read_new_format c fuel)
     (λ rd i' l, f i' = f i ∧ l = [] ∧ ∀ r, rd = inl r → r < 0) i.
Proof.
  destruct Hf as (H1 & H2 & H3 & H4 & H5).
  revert i. induction fuel as [|fuel IH]; intros i; simpl; [done|].
  wp_steps; rewrite ?H5, ?H4;
    try (eapply wp_mono; [apply IH|]; cbn beta;
         intros ? ? ? (-> & -> & ?); rewrite ?H5, ?H4; done);
    (split; [done|]; split; [done|]; intros ? [= <-]);
    try done; neg_result.
Qed.

End Reads.

(** *** Handles opened and handles closed

    Accounting for the functions that follow the chain of parents:
    what they do to the handle besides its [parent] field (nothing),
    and how many handles their log allocates and deletes. *)

Lemma but_parent_set (q : option ImageCtx) (i : ImageCtx) :
  but_parent (set_parent q i) = but_parent i.
Proof. reflexivity. Qed.

Lemma but_parent_none (i : ImageCtx) :
  parent i = None → but_parent i = i.
Proof. intros H. unfold but_parent. rewrite <- H. apply set_parent_parent. Qed.

Lemma but_parent_eq (i j : ImageCtx) :
  but_parent i = but_parent j → i = set_parent (parent i) j.
Proof.
  intros H. rewrite <- (set_parent_parent i) at 1.
  change (set_parent (parent i) i) with (set_parent (parent i) (but_parent i)).
  by rewrite H.
Qed.

Lemma add_snaps_blind {X : Type} (f : ImageCtx → X) (old : bool)
  (loc : refresh_locals) (i : ImageCtx) :
  (∀ s info ids i, f (set_snap_table s info ids i) = f i) →
  f (add_snaps old loc i) = f i.
Proof.
  intros Hf. unfold add_snaps.
  generalize (List.seq 0 (length (snapc_snaps (new_snapc loc)))).
  intros ks. revert i. induction ks as [|k ks IH]; intros i; simpl; [done|].
  rewrite IH. unfold add_snap. apply Hf.
Qed.

Ltac acct :=
  rewrite ?app_nil_l, ?app_nil_r, ?live_app; simpl;
  repeat match goal with H : live _ = _ |- _ => rewrite H; clear H end;
  simpl; try lia.

Section Knot.
Variable c : Cluster.
Variable op : M Z.
Variable cl : ImageCtx → option (Z * list action).

(** Bound on the chains that [op] builds. *)
Variable N : Z.

Hypothesis op_spec : ∀ i, parent i = None → wp op (op_post N i) i.
Hypothesis cl_spec : ∀ h r l, cl h = Some (r, l) → live l = - depth h.

Lemma close_handle_spec (h i : ImageCtx) :
  wp (Body.close_handle cl h) (λ _ i' l, i' = i ∧ live l = - depth h) i.
Proof.
  apply wp_intro. intros r i' l. unfold Body.close_handle.
  destruct (cl h) as [[r' l']|] eqn:E; [|done].
  intros [= <- <- <-]. split; [done|]. by apply (cl_spec _ r').
Qed.

Lemma close_parent_spec (i : ImageCtx) :
  wp (Body.close_parent cl)
     (λ _ i' l, i' = i ∧ live l = - depth_opt (parent i)) i.
Proof.
  unfold Body.close_parent. wp_steps.
  eapply wp_mono; [apply close_handle_spec|]. cbn beta.
  intros _ i' l [-> Hl]. rewrite app_nil_l. done.
Qed.

Lemma refresh_parent_acct (i : ImageCtx) :
  wp (Body.refresh_parent op cl)
     (λ r i' l, but_parent i' = but_parent i ∧
                live l = depth_opt (parent i') - depth_opt (parent i) ∧
                (r < 0 → parent i' = None) ∧
                (good N (parent i) → good N (parent i'))) i.
Proof.
  unfold Body.refresh_parent. wp_steps.
  - (* get_parent_overlap fails with -ENOENT only *)
    unfold get_parent_overlap in *.
    destruct (get_parent_info (snap_id i) i); simplify_eq; done.
  - (* the parent is closed *)
    eapply wp_mono; [apply close_parent_spec|]. cbn beta.
    intros _ i1 l1 [-> Hl1]. rewrite Heqo in Hl1. wp_steps.
    + eapply wp_mono; [by apply op_spec|]. cbn beta.
      intros r i2 l2 (Hf & Hl2 & Hneg & _ & Hg). wp_steps.
      * split; [done|]. split; [acct|]. split; [|done].
        intros _; apply Hneg; lia.
      * split; [done|]. split; [acct|]. split; [lia|done].
    + split; [done|]. split; [acct|]. split; [lia|done].
  - (* the parent is kept: nothing to open *)
    rewrite ?Heqo in *. simpl in *. by rewrite andb_false_r in *.
  - rewrite ?Heqo. split; [done|]. split; [acct|]. split; [lia|done].
  - (* no parent installed: open it *)
    eapply wp_mono; [by apply op_spec|]. cbn beta.
    intros r i2 l2 (Hf & Hl2 & Hneg & _ & Hg). wp_steps.
    + split; [done|]. split; [acct|]. split; [|done].
      intros _; apply Hneg; lia.
    + split; [done|]. split; [acct|]. split; [lia|done].
  - rewrite ?Heqo. split; [done|]. split; [acct|]. split; [lia|done].
Qed.

Lemma ident_view (i j : ImageCtx) :
  ident i = ident j →
  snap_id i = snap_id j ∧ snap_name i = snap_name j ∧
  refresh_seq i = refresh_seq j.
Proof. unfold ident. intros H. by simplify_eq. Qed.

Lemma but_parent_blind {X : Type} (f : ImageCtx → X) (i j : ImageCtx) :
  (∀ q i, f (set_parent q i) = f i) →
  but_parent i = but_parent j → f i = f j.
Proof.
  intros Hf H. rewrite <- (Hf None i), <- (Hf None j).
  unfold but_parent in H. by rewrite H.
Qed.

Lemma read_header_frame {X : Type} (f : ImageCtx → X) (old : bool)
  (fuel : nat) (i : ImageCtx) :
  cache_blind f →
  wp (if old then read_old_format c else read_new_format c fuel)
     (λ rd i' l, f i' = f i ∧ live l = 0 ∧ ∀ r, rd = inl r → r < 0) i.
Proof.
  intros Hf. destruct old.
  - by apply read_old_format_frame.
  - eapply wp_mono; [by apply read_new_format_frame|]. cbn beta.
    intros rd i' l (? & -> & ?). done.
Qed.

Lemma ictx_refresh_post (fuel : nat) (i : ImageCtx) :
  wp (Body.ictx_refresh c op cl fuel) (refresh_post N i) i.
Proof.
  unfold Body.ictx_refresh, refresh_post.
  apply wp_bind, wp_get, wp_bind, wp_modify, wp_bind, wp_get, wp_bind.
  eapply wp_mono;
    [apply (read_header_frame (λ i, (ident i, parent i, snap_exists i)));
     cache_blind|].
  cbn beta. intros rd i1 l1 (Hf & Hl1 & Hneg).
  pose proof (f_equal (λ t, t.1.1) Hf) as Hid.
  pose proof (f_equal (λ t, t.1.2) Hf) as Hp.
  pose proof (f_equal snd Hf) as He. cbn in Hid, Hp, He. clear Hf.
  destruct rd as [r|loc].
  { specialize (Hneg r eq_refl). wp_steps.
    split; [acct; rewrite Hp; simpl; lia|]. split; [done|].
    split; [by rewrite He|]. split; [lia|]. by rewrite Hp. }
  wp_steps.
  eapply wp_mono; [apply refresh_parent_acct|]. cbn beta.
  intros r2 i2 l2 (Hbp & Hl2 & _ & Hgood).
  rewrite (add_snaps_blind parent) in Hgood by done.
  cbn in Hgood. rewrite Hp in Hgood.
  pose proof (but_parent_blind
                (λ i, (ident i, snap_exists i)) _ _
                (λ _ _, eq_refl) Hbp) as Hf2.
  cbn beta in Hf2.
  rewrite (add_snaps_blind (λ i, (ident i, snap_exists i))) in Hf2
    by done.
  rewrite (add_snaps_blind parent) in Hl2 by done.
  pose proof (f_equal fst Hf2) as Hid2.
  pose proof (f_equal snd Hf2) as He2. cbn in Hid2, He2, Hl2. clear Hf2.
  rewrite Hp in Hl2.
  assert (ident i2 = ident i) as Hident by (etrans; [exact Hid2|exact Hid]).
  destruct (ident_view _ _ Hident) as (Hsid & Hsn & Hrs).
  clear Hid Hid2 Hbp.
  wp_steps; unfold _flush; wp_steps;
    (split; [acct|]); (split; [exact Hident|]);
    (split; [intros; simpl; congruence|]);
    (split; [|exact Hgood]); intros Hr.
  all: try (apply Z.ltb_lt in Heqb; lia).
  all: try (unfold EIO in Hr; lia).
  all: (split; [simpl; congruence|]).
  all: try (intros _ _; reflexivity).
  all: intros Hv Hgone; exfalso.
  all: unfold get_snap_id in *; simpl in *.
  all: rewrite Hsid, Hsn in *.
  all: apply andb_false_iff in Heqb1 as [Hc|Hc];
       apply negb_false_iff, Z.eqb_eq in Hc; done.
Qed.

Lemma fresh_chain_unfold (h : ImageCtx) :
  fresh_chain h ↔
  last_refresh h = refresh_seq h ∧
  match parent h with Some p => fresh_chain p | None => True end.
Proof. by destruct h. Qed.

Lemma ictx_check_post (owner_locked : bool) (fuel : nat) (i : ImageCtx) :
  wp (Body.ictx_check c op cl owner_locked fuel) (check_post N i) i.
Proof.
  unfold Body.ictx_check, check_post. wp_steps.
  - eapply wp_mono; [apply ictx_refresh_post|]. cbn beta.
    intros r i1 l1 (Hl & Hid & He & Hok & Hg).
    apply negb_true_iff, Z.eqb_neq in Heqb.
    wp_steps; (split; [acct|]); (split; [done|]); (split; [done|]);
      (split; [|split; [done|done]]).
    + apply Z.ltb_lt in Heqb0. lia.
    + intros _. apply Hok. apply Z.ltb_ge in Heqb0. lia.
  - apply negb_false_iff, Z.eqb_eq in Heqb.
    split; [simpl; lia|]. done.
Qed.

Lemma flush_post (fuel : nat) (i : ImageCtx) :
  wp (Body.flush c op cl fuel)
     (λ r i' l,
        live l = depth_opt (parent i') - depth_opt (parent i) ∧
        ident i' = ident i ∧
        (good N (parent i) → good N (parent i')) ∧
        (last_refresh i = refresh_seq i → i' = i)) i.
Proof.
  unfold Body.flush. wp_steps.
  eapply wp_mono; [apply ictx_check_post|]. cbn beta.
  intros r i1 l1 (Hl & Hid & _ & _ & Hg & Hfresh).
  unfold _flush. wp_steps; (split; [acct|]); (split; [done|]);
    (split; [done|]); intros Hf; by destruct (Hfresh Hf) as (_ & -> & _).
Qed.

Lemma close_image_body_acct (fuel : nat) (i : ImageCtx) :
  wp (Body.close_image_body c op cl fuel) (λ _ _ l, live l = - depth i) i.
Proof.
  unfold Body.close_image_body.
  assert (wp (if object_cacher i
              then bind (log Flush)
                     (λ _, ret (flush_writes c (md_ctx i) (id i)))
              else Body.flush c op cl fuel)
            (λ _ i' l,
               live l = depth_opt (parent i') - depth_opt (parent i) ∧
               ident i' = ident i) i) as Hflush.
  { destruct (object_cacher i).
    - wp_steps. split; [simpl; lia|done].
    - eapply wp_mono; [apply flush_post|]. cbn beta.
      intros r i1 l1 (? & ? & _). done. }
  apply wp_bind, wp_get, wp_bind, wp_get, wp_bind, wp_get, wp_bind.
  assert (∀ b : bool,
    wp (if b then log PrepareUnlock else ret ())
       (λ _ i' l, i' = i ∧ live l = 0) i) as Hprep
    by (intros []; wp_steps; done).
  eapply wp_mono; [apply Hprep|]. cbn beta. intros _ _ l0 [-> Hl0].
  apply wp_bind, wp_log, wp_bind, wp_get, wp_bind.
  eapply wp_mono; [apply Hflush|]. cbn beta.
  intros r i1 l1 (Hl1 & Hid).
  assert (image_watcher i1 = image_watcher i) as Hw
    by (unfold ident in Hid; by simplify_eq).
  assert (md_ctx i1 = md_ctx i ∧ id i1 = id i) as [Hmd Hi]
    by (unfold ident in Hid; by simplify_eq).
  wp_steps.
  (* with a parent to close *)
  all: try (eapply wp_mono; [apply close_handle_spec|]; cbn beta;
            intros close_r i2 l2 [-> Hl2]; rewrite ?Heqo in Hl1;
            simpl in Hl1; wp_steps; acct; rewrite (depth_unfold i); lia).
  (* and without *)
  all: rewrite ?Heqo in Hl1; simpl in Hl1; wp_steps; acct;
       rewrite (depth_unfold i); lia.
Qed.

Lemma ImageCtx_snap_set_frame (in_snap_name : string) (i : ImageCtx) :
  wp (ImageCtx_snap_set in_snap_name)
     (λ _ i' l, live l = 0 ∧ parent i' = parent i ∧
                last_refresh i' = last_refresh i ∧
                refresh_seq i' = refresh_seq i) i.
Proof. unfold ImageCtx_snap_set. wp_steps; done. Qed.

Lemma _snap_set_post (snap_name : string) (i : ImageCtx) :
  wp (Body._snap_set op cl snap_name)
     (λ _ i' l,
        live l = depth_opt (parent i') - depth_opt (parent i) ∧
        last_refresh i' = last_refresh i ∧
        refresh_seq i' = refresh_seq i ∧
        (good N (parent i) → good N (parent i'))) i.
Proof.
  unfold Body._snap_set.
  apply wp_bind.
  assert (wp (if negb (String.eqb snap_name "")
              then ImageCtx_snap_set snap_name
              else bind ImageCtx_snap_unset (λ _, ret 0))
            (λ _ i' l, live l = 0 ∧ parent i' = parent i ∧
                       last_refresh i' = last_refresh i ∧
                       refresh_seq i' = refresh_seq i) i) as Hset.
  { destruct (negb (String.eqb snap_name "")).
    - apply ImageCtx_snap_set_frame.
    - unfold ImageCtx_snap_unset. wp_steps. done. }
  eapply wp_mono; [apply Hset|]. cbn beta.
  intros r i1 l1 (Hl1 & Hp & Hlr & Hrs). wp_steps.
  { rewrite Hp. split; [acct|]. done. }
  eapply wp_mono; [apply refresh_parent_acct|]. cbn beta.
  intros r2 i2 l2 (Hbp & Hl2 & _ & Hg). wp_steps.
  pose proof (but_parent_blind (λ i, (last_refresh i, refresh_seq i)) _ _
                (λ _ _, eq_refl) Hbp) as Hf.
  cbn in Hf. rewrite Hp in Hl2, Hg.
  split; [acct|]. split; [congruence|]. split; [congruence|done].
Qed.

Lemma open_image_post (fuel : nat) (i : ImageCtx) :
  wp (Body.open_image c op cl fuel)
     (λ r i' l,
        (r < 0 → live l = - depth i) ∧
        (0 ≤ r →
         live l = depth_opt (parent i') - depth_opt (parent i) ∧
         last_refresh i' = refresh_seq i' ∧
         (good N (parent i) → good N (parent i')))) i.
Proof.
  unfold Body.open_image. cbn zeta.
  (* a failure closes the handle as it is at that point *)
  assert (∀ (r : Z) (l0 l1 : list action) (j : ImageCtx),
    (r <? 0) = true →
    live l0 = depth_opt (parent j) - depth_opt (parent i) →
    live l1 = - depth j →
    (r < 0 → live (l0 ++ l1) = - depth i) ∧
    (0 ≤ r →
     live (l0 ++ l1) = depth_opt (parent j) - depth_opt (parent i) ∧
     last_refresh j = refresh_seq j ∧
     (good N (parent i) → good N (parent j)))) as Herr.
  { intros r l0 l1 j Hr Hl0 Hl1. apply Z.ltb_lt in Hr. split; [|lia].
    intros _. rewrite live_app, Hl0, Hl1, (depth_unfold i), (depth_unfold j).
    lia. }
  wp_steps.
  - (* init fails *)
    eapply wp_mono; [apply close_handle_spec|]. cbn beta.
    intros _ j l1 [-> Hl1]. wp_steps.
    rewrite !app_nil_l, app_nil_r.
    apply (Herr z [] l1 i); [done|simpl; lia|done].
  - (* register_watch fails *)
    eapply wp_mono; [apply close_handle_spec|]. cbn beta.
    intros _ j l1 [-> Hl1]. wp_steps.
    rewrite !app_nil_l, app_nil_r.
    apply (Herr _ [] l1 _); [done|simpl; lia|done].
  - eapply wp_mono; [apply ictx_refresh_post|]. cbn beta.
    intros r1 i1 l1 (Hl1 & Hid1 & _ & Hok1 & Hg1). cbn in Hl1, Hg1.
    wp_steps.
    { eapply wp_mono; [apply close_handle_spec|]. cbn beta.
      intros _ j l2 [-> Hl2]. wp_steps.
      rewrite !app_nil_l, app_nil_r. by apply Herr. }
    eapply wp_mono; [apply _snap_set_post|]. cbn beta.
    intros r2 i2 l2 (Hl2 & Hlr & Hrs & Hg2). wp_steps.
    { eapply wp_mono; [apply close_handle_spec|]. cbn beta.
      intros _ j l3 [-> Hl3]. wp_steps.
      rewrite !app_nil_l, app_nil_r, !app_assoc.
      apply Herr; [done|acct|done]. }
    split; [lia|]. intros _. split; [acct|].
    assert (0 ≤ r1) as Hr1 by nonneg_result.
    destruct (Hok1 Hr1) as [Hfr _].
    split; [congruence|]. intros Hg. apply Hg2, Hg1, Hg.
  - eapply wp_mono; [apply close_handle_spec|]. cbn beta.
    intros _ j l1 [-> Hl1]. wp_steps.
    rewrite !app_nil_l, app_nil_r.
    apply (Herr _ [] l1 _); [done|simpl; lia|done].
  - eapply wp_mono; [apply ictx_refresh_post|]. cbn beta.
    intros r1 i1 l1 (Hl1 & Hid1 & _ & Hok1 & Hg1). cbn in Hl1, Hg1.
    wp_steps.
    { eapply wp_mono; [apply close_handle_spec|]. cbn beta.
      intros _ j l2 [-> Hl2]. wp_steps.
      rewrite !app_nil_l, app_nil_r. by apply Herr. }
    eapply wp_mono; [apply _snap_set_post|]. cbn beta.
    intros r2 i2 l2 (Hl2 & Hlr & Hrs & Hg2). wp_steps.
    { eapply wp_mono; [apply close_handle_spec|]. cbn beta.
      intros _ j l3 [-> Hl3]. wp_steps.
      rewrite !app_nil_l, app_nil_r, !app_assoc.
      apply Herr; [done|acct|done]. }
    split; [lia|]. intros _. split; [acct|].
    assert (0 ≤ r1) as Hr1 by nonneg_result.
    destruct (Hok1 Hr1) as [Hfr _].
    split; [congruence|]. intros Hg. apply Hg2, Hg1, Hg.
Qed.

Lemma open_parent_body_spec (fuel : nat) (i : ImageCtx) :
  0 ≤ N →
  parent i = None →
  wp (Body.open_parent_body c op cl fuel) (op_post (N + 1) i) i.
Proof.
  intros HN Hnone. unfold Body.open_parent_body, op_post.
  assert (∀ r l, r < 0 → l = [] →
            but_parent i = but_parent i ∧ live l = depth_opt (parent i) ∧
            (r < 0 → parent i = None) ∧ (0 ≤ r → is_Some (parent i)) ∧
            good (N + 1) (parent i)) as Hearly.
  { intros r l Hr ->. rewrite Hnone. simpl. repeat split; try done. lia. }
  wp_steps.
  1-3: apply Hearly; [done || neg_result|done].
  all: eapply wp_mono; [apply open_image_post|]; cbn beta;
       intros a p1 l1 [Hfail Hok]; cbn in Hfail, Hok.
  all: wp_steps.
  (* open_image fails: the handle is gone, the field is reset *)
  all: try (match goal with
            | Hf : ?z < 0 → live _ = _, H : (?z <? 0) = true |- _ =>
              apply Z.ltb_lt in H; split; [reflexivity|];
              split; [acct; rewrite (Hf H); lia|];
              split; [done|]; split; [lia|done]
            end).
  all: match goal with
       | Hk : 0 ≤ ?z → live _ = _ ∧ _ |- _ =>
         assert (0 ≤ z) as Ha by nonneg_result;
         destruct (Hk Ha) as (Hl1 & Hfr1 & Hg1); specialize (Hg1 I)
       end.
  (* the snapshot of the parent is gone: close and reset *)
  all: try (eapply wp_mono; [apply close_parent_spec|]; cbn beta;
            intros _ i1 l0 [-> Hl0]; cbn in Hl0; wp_steps;
            split; [reflexivity|];
            split; [acct; rewrite (depth_unfold p1); lia|];
            split; [done|]; split; [|done];
            intros ?; exfalso;
            match goal with H : (?z <? 0) = true |- _ =>
              apply Z.ltb_lt in H; lia end).
  (* select the snapshot and refresh the parent's own parent *)
  all: eapply wp_mono; [apply ImageCtx_snap_set_frame|]; cbn beta;
       intros _ p2 l2 (Hl2 & Hp2 & Hlr2 & Hrs2); cbn in Hp2, Hlr2, Hrs2;
       wp_step; wp_step;
       (eapply wp_mono; [apply refresh_parent_acct|]); cbn beta;
       intros r3 p3 l3 (Hbp3 & Hl3 & _ & Hg3);
       rewrite Hp2 in Hl3, Hg3; specialize (Hg3 Hg1);
       pose proof (but_parent_blind (λ i, (last_refresh i, refresh_seq i))
                     _ _ (λ _ _, eq_refl) Hbp3) as Hf3;
       cbn in Hf3; wp_steps.
  (* refresh fails: close and reset *)
  all: try (eapply wp_mono; [apply close_parent_spec|]; cbn beta;
            intros _ i1 l0 [-> Hl0]; cbn in Hl0; wp_steps;
            split; [reflexivity|];
            split; [acct; rewrite (depth_unfold p3); lia|];
            split; [done|]; split; [|done];
            intros ?; exfalso;
            match goal with H : (?z <? 0) = true |- _ =>
              apply Z.ltb_lt in H; lia end).
  (* the parent is installed *)
  all: split; [reflexivity|];
       split; [acct; rewrite (depth_unfold p3); lia|];
       split; [lia|]; split; [by eexists|];
       cbn; rewrite fresh_chain_unfold, (depth_unfold p3);
       split; [split; [congruence|]|];
       destruct (parent p3) as [q|]; cbn in *; try done; try lia.
  all: by destruct Hg3.
Qed.


End Knot.

(** Tying the knot: the budgeted functions satisfy what was assumed of
    the recursive calls. *)
Lemma knot_spec (c : Cluster) (n : nat) :
  (∀ i, parent i = None →
        wp (open_parent c n) (op_post (Z.of_nat n) i) i) ∧
  (∀ h r l, close_image c n h = Some (r, l) → live l = - depth h).
Proof.
  induction n as [|n [IHop IHcl]].
  { split; [intros; apply wp_stuck|done]. }
  split.
  - intros i Hi. simpl. rewrite Nat2Z.inj_succ, <- Z.add_1_r.
    apply (open_parent_body_spec c _ _ (Z.of_nat n)); [done|done|lia|done].
  - intros h r l. simpl.
    destruct (Body.close_image_body c (open_parent c n) (close_image c n) n h)
      as [[[r' h'] l']|] eqn:E; [|done].
    intros [= <- <-].
    apply (wp_elim _ _ _ _ _ _
             (close_image_body_acct c _ _ (Z.of_nat n) IHop IHcl n h) E).
Qed.

Lemma open_parent_post (c : Cluster) (n : nat) (i : ImageCtx) :
  parent i = None → wp (open_parent c n) (op_post (Z.of_nat n) i) i.
Proof. apply knot_spec. Qed.

Lemma close_image_acct (c : Cluster) (n : nat) (h : ImageCtx) (r : Z)
  (l : list action) :
  close_image c n h = Some (r, l) → live l = - depth h.
Proof. apply knot_spec. Qed.

Lemma ictx_refresh_spec (c : Cluster) (n : nat) (i : ImageCtx) :
  wp (ictx_refresh c n) (refresh_post (Z.of_nat n) i) i.
Proof.
  unfold ictx_refresh.
  exact (ictx_refresh_post c (open_parent c n) (close_image c n) (Z.of_nat n)
           (open_parent_post c n) (close_image_acct c n) n i).
Qed.

Lemma ictx_check_spec (c : Cluster) (b : bool) (n : nat) (i : ImageCtx) :
  wp (ictx_check c b n) (check_post (Z.of_nat n) i) i.
Proof.
  unfold ictx_check.
  exact (ictx_check_post c (open_parent c n) (close_image c n) (Z.of_nat n)
           (open_parent_post c n) (close_image_acct c n) b n i).
Qed.

Lemma refresh_parent_spec (c : Cluster) (n : nat) (i : ImageCtx) :
  wp (refresh_parent c n)
     (λ r i' l, but_parent i' = but_parent i ∧
                live l = depth_opt (parent i') - depth_opt (parent i) ∧
                (r < 0 → parent i' = None) ∧
                (good (Z.of_nat n) (parent i) →
                 good (Z.of_nat n) (parent i'))) i.
Proof.
  apply refresh_parent_acct;
    [apply open_parent_post | apply close_image_acct].
Qed.

(** *** Failures of the parent resolver *)

Lemma open_parent_error_from (c : Cluster) (fuel : nat) (i : ImageCtx) :
  wp (open_parent c (S fuel))
     (λ r _ _, r < 0 → open_parent_error_source c fuel i r) i.
Proof.
  simpl. unfold Body.open_parent_body, open_parent_error_source.
  wp_steps.
  1: { intros _. left. split; [|done]. by apply Z.ltb_lt. }
  1: { intros _. right. left. simpl. split; [|done]. by apply Z.ltb_ge. }
  1: { intros _. right. right. left. simpl. rewrite ?Heqp0. simpl.
       split; [by apply Z.ltb_ge|]. split; [by apply Z.ltb_ge|done]. }
  all: apply wp_intro; intros a p' l' E.
  all: assert (open_image c fuel (built_parent i z1) = Some (a, p', l'))
         as Hopen
         by (unfold built_parent, open_image;
             cbn [balance_parent_reads localize_parent_reads set_parent
                  set_read_flags] in *;
             rewrite ?Heqb3, ?Heqb4; exact E).
  all: wp_steps.
  all: try lazymatch goal with
       | |- wp (Body.close_parent _) _ _ =>
         apply wp_intro; intros; wp_steps
       end.
  all: try lazymatch goal with
       | |- wp (ImageCtx_snap_set _) _ _ =>
         apply wp_intro; intros u p2 l2 Eset; wp_step; wp_step;
         apply wp_intro; intros r3 p3 l3 Eref; wp_steps
       end.
  all: try lazymatch goal with
       | |- wp (Body.close_parent _) _ _ =>
         apply wp_intro; intros; wp_steps
       end.
  all: intros Hneg; try lia.
  all: repeat match goal with
       | H : (_ <? 0) = false |- _ => apply Z.ltb_ge in H
       | H : get_snap_name _ _ = _ |- _ => revert H
       end; intros.
  all: do 3 right; cbn [fst snd]; rewrite Heqp0; cbn [fst snd];
       do 3 (split; [done|]);
       exists a, p', l'; (split; [exact Hopen|]).
  all: first
    [ by left
    | right; (split; [done|]);
      match goal with
      | H : get_snap_name _ _ = _ |- _ => rewrite H
      end; cbn [fst snd];
      first
        [ by left
        | right; (split; [done|]);
          exists u, p2, l2, p3, l3; split; [exact Eset | exact Eref] ] ].
Qed.

(** The source of an error is one value: on a given handle and
    cluster, two errors that both come from the step that failed are
    the same error. *)
Lemma open_parent_error_source_unique (c : Cluster) (fuel : nat)
  (i : ImageCtx) (r r' : Z) :
  r < 0 → r' < 0 →
  open_parent_error_source c fuel i r →
  open_parent_error_source c fuel i r' →
  r = r'.
Proof.
  unfold open_parent_error_source. cbv zeta.
  intros Hr Hr'
    [[? ->]|[[? ->]|[(? & ? & ->)|(? & ? & ? & r1 & p1 & l1 & E1 & D1)]]]
    [[? ?]|[[? ?]|[(? & ? & ?)|(? & ? & ? & r2 & p2 & l2 & E2 & D2)]]];
    try lia.
  rewrite E1 in E2. injection E2 as <- <- <-.
  destruct D1 as [->|[? [->|(? & u & q & k & q' & k' & Es & Er)]]];
    destruct D2 as [?|[? [?|(? & u2 & q2 & k2 & q2' & k2' & Es2 & Er2)]]];
    try lia.
  rewrite Es in Es2. injection Es2 as <- <- <-.
  rewrite Er in Er2. by injection Er2.
Qed.

(** C7.  When [open_parent], called with no parent installed, returns
    an error: the [parent] field is unset and the handle is as it was;
    every handle allocated during the call has been deleted again; and
    the error is the result of the step that failed, taken on what the
    steps before it produced ([open_parent_error_source]): the pool
    lookup and the I/O context of the parent pool of this handle,
    [open_image] on the handle built for the parent, [get_snap_name]
    and [refresh_parent] on the handle that [open_image] left. *)
Theorem open_parent_failure_tears_down (c : Cluster) (fuel : nat)
  (i i' : ImageCtx) (r : Z) (l : list action) :
  open_parent c (S fuel) i = Some (r, i', l) →
  parent i = None →
  r < 0 →
  parent i' = None ∧ i' = i ∧ live l = 0 ∧
  open_parent_error_source c fuel i r.
Proof.
  intros E Hnone Hr.
  destruct (wp_elim _ _ _ _ _ _ (open_parent_post c (S fuel) i Hnone) E)
    as (Hbp & Hl & Hneg & _ & _).
  specialize (Hneg Hr).
  split; [done|]. split; [|split].
  - rewrite <- (but_parent_none i Hnone), <- Hbp. symmetry.
    by apply but_parent_none.
  - by rewrite Hl, Hneg.
  - by apply (wp_elim _ _ _ _ _ _ (open_parent_error_from c fuel i) E).
Qed.

Lemma open_parent_failure_tears_down_witness :
  parent demo_child_linked = None ∧
  demo_child_linked = demo_child_linked ∧
  live [NewImageCtx 2 "base"; ObjectMapRefresh CEPH_NOSNAP;
        SetWriteCtx 7 []; SnapSetRead CEPH_NOSNAP;
        ObjectMapRefresh CEPH_NOSNAP; Quiesce; Flush;
        DeleteImageCtx 2 "base"] = 0 ∧
  open_parent_error_source (demo_cluster false) 2 demo_child_linked
    (- ENOENT).
Proof.
  apply (open_parent_failure_tears_down (demo_cluster false) 2
           demo_child_linked demo_child_linked (- ENOENT)).
  - vm_compute. reflexivity.
  - reflexivity.
  - unfold ENOENT. lia.
Defined.

(** On that run the failing step is [get_snap_name] on the opened
    parent, and no other error has a source there. *)
Example open_parent_error_is_pinned (r : Z) :
  r < 0 →
  open_parent_error_source (demo_cluster false) 2 demo_child_linked r →
  r = - ENOENT.
Proof.
  intros Hr Hsrc.
  assert (open_parent (demo_cluster false) 3 demo_child_linked
          = Some (- ENOENT, demo_child_linked,
                  [NewImageCtx 2 "base"; ObjectMapRefresh CEPH_NOSNAP;
                   SetWriteCtx 7 []; SnapSetRead CEPH_NOSNAP;
                   ObjectMapRefresh CEPH_NOSNAP; Quiesce; Flush;
                   DeleteImageCtx 2 "base"])) as E
    by (vm_compute; reflexivity).
  pose proof (wp_elim _ _ _ _ _ _
                (open_parent_error_from (demo_cluster false) 2
                   demo_child_linked) E) as Hsrc'.
  cbn beta in Hsrc'.
  eapply open_parent_error_source_unique;
    [exact Hr| |exact Hsrc|apply Hsrc']; unfold ENOENT; lia.
Qed.

(** With the snapshot of the parent in place the same call installs
    the parent handle. *)
Example open_parent_success :
  match open_parent (demo_cluster true) 3 demo_child_linked with
  | Some (r, i', l) =>
    r = 0 ∧ (snap_name <$> parent i') = Some "golden" ∧ live l = 1
  | None => False
  end.
Proof. vm_compute. done. Qed.

(** *** A view whose snapshot is gone *)

Lemma rollback_on_marked_view (c : Cluster) (snap_name : string)
  (fuel : nat) (j j' : ImageCtx) (r : Z) (l : list action) :
  snap_exists j = false →
  ictx_check c false fuel j = Some (r, j', l) →
  0 ≤ r →
  snap_rollback c snap_name fuel j = Some (- ENOENT, j', l).
Proof.
  intros Hex E Hr.
  destruct (wp_elim _ _ _ _ _ _ (ictx_check_spec c false fuel j) E)
    as (_ & _ & Hex' & _).
  specialize (Hex' Hex).
  unfold snap_rollback, bind. rewrite E.
  apply Z.ltb_ge in Hr. rewrite Hr. unfold get, ret. simpl.
  rewrite Hex'. simpl. by rewrite app_nil_r.
Qed.

Lemma ictx_check_fresh (c : Cluster) (b : bool) (fuel : nat) (i : ImageCtx) :
  last_refresh i = refresh_seq i →
  ictx_check c b fuel i = Some (0, i, []).
Proof.
  intros H. unfold ictx_check, Body.ictx_check, bind, get, ret.
  rewrite H, Z.eqb_refl. reflexivity.
Qed.

(** C8.  A refresh that completes while a snapshot view is selected
    whose name no longer resolves to the recorded id marks the view as
    gone and leaves the selection as it was; a rollback on the
    refreshed handle fails with [-ENOENT] and does nothing; and so does
    every rollback on a marked view that gets past the staleness
    gate. *)
Theorem stale_view_marked_and_rejected (c : Cluster) (fuel : nat)
  (i i1 : ImageCtx) (l : list action) :
  ictx_refresh c fuel i = Some (0, i1, l) →
  snap_id i ≠ CEPH_NOSNAP →
  get_snap_id (snap_name i) i1 ≠ snap_id i →
  snap_exists i1 = false ∧
  snap_id i1 = snap_id i ∧ snap_name i1 = snap_name i ∧
  (∀ name fuel',
     snap_rollback c name fuel' i1 = Some (- ENOENT, i1, [])) ∧
  (∀ name fuel' j j' r l',
     snap_exists j = false →
     ictx_check c false fuel' j = Some (r, j', l') → 0 ≤ r →
     snap_rollback c name fuel' j = Some (- ENOENT, j', l')).
Proof.
  intros E Hview Hgone.
  destruct (wp_elim _ _ _ _ _ _ (ictx_refresh_spec c fuel i) E)
    as (_ & Hid & _ & Hok & _).
  destruct (Hok ltac:(lia)) as [Hfresh Hmark].
  specialize (Hmark Hview Hgone).
  destruct (ident_view _ _ Hid) as (Hsid & Hsn & _).
  split; [done|]. split; [done|]. split; [done|]. split.
  - intros name fuel'.
    apply (rollback_on_marked_view c name fuel' i1 i1 0 []); [done| |lia].
    by apply ictx_check_fresh.
  - intros. by eapply rollback_on_marked_view.
Qed.

Lemma stale_view_marked_and_rejected_witness :
  let i1 := handle_after_refresh (demo_cluster true) 3 demo_child_on_gone in
  snap_exists i1 = false ∧
  snap_id i1 = 9 ∧ snap_name i1 = "gone" ∧
  (∀ name fuel',
     snap_rollback (demo_cluster true) name fuel' i1
     = Some (- ENOENT, i1, [])) ∧
  (∀ name fuel' j j' r l',
     snap_exists j = false →
     ictx_check (demo_cluster true) false fuel' j = Some (r, j', l') →
     0 ≤ r →
     snap_rollback (demo_cluster true) name fuel' j
     = Some (- ENOENT, j', l')).
Proof.
  intros i1.
  apply (stale_view_marked_and_rejected (demo_cluster true) 3
           demo_child_on_gone i1
           [ObjectMapRefresh 9; SetWriteCtx 5 [5; 3]; Flush]).
  - vm_compute. reflexivity.
  - vm_compute. discriminate.
  - vm_compute. discriminate.
Defined.

(** A view whose snapshot is still there is not marked. *)
Example live_view_not_marked :
  snap_exists
    (handle_after_refresh (demo_cluster true) 3
       (set_view 3 "s3" true demo_child)) = true.
Proof. vm_compute. reflexivity. Qed.

(** *** The protection query *)

(** C10.  For a snapshot that is live once the staleness gate is
    passed, [snap_is_protected] succeeds and reports "protected"
    exactly when the status is not [UNPROTECTED]; so it does for
    [PROTECTED] and for [UNPROTECTING]. *)
Theorem snap_is_protected_unless_unprotected (c : Cluster)
  (snap_name : string) (fuel : nat) (i i1 : ImageCtx) (r : Z)
  (l : list action) (sid : Z) (info : SnapInfo) :
  ictx_check c false fuel i = Some (r, i1, l) →
  0 ≤ r →
  snap_ids i1 !! snap_name = Some sid →
  sid ≠ CEPH_NOSNAP →
  snap_info i1 !! sid = Some info →
  ∃ b : bool,
    snap_is_protected c snap_name fuel i = Some ((0, Some b), i1, l) ∧
    (b = true ↔
     si_protection_status info ≠ RBD_PROTECTION_STATUS_UNPROTECTED) ∧
    (si_protection_status info = RBD_PROTECTION_STATUS_PROTECTED ∨
     si_protection_status info = RBD_PROTECTION_STATUS_UNPROTECTING →
     b = true).
Proof.
  intros E Hr Hid Hsid Hinfo.
  exists (negb (si_protection_status info
                =? RBD_PROTECTION_STATUS_UNPROTECTED)).
  split; [|split].
  - unfold snap_is_protected, bind. rewrite E.
    apply Z.ltb_ge in Hr. rewrite Hr. unfold get, ret. simpl.
    unfold get_snap_id. rewrite Hid. simpl.
    apply Z.eqb_neq in Hsid. rewrite Hsid.
    unfold is_snap_unprotected, get_snap_info. rewrite Hinfo. simpl.
    by rewrite app_nil_r.
  - rewrite negb_true_iff, Z.eqb_neq. done.
  - intros [-> | ->]; reflexivity.
Qed.

Lemma snap_is_protected_unless_unprotected_witness :
  ∃ b : bool,
    snap_is_protected (demo_cluster true) "s3" 3 demo_child
    = Some ((0, Some b),
            handle_after_refresh (demo_cluster true) 3 demo_child,
            [NewImageCtx 2 "base"; ObjectMapRefresh CEPH_NOSNAP;
             SetWriteCtx 7 [7]; Flush; SnapSetRead CEPH_NOSNAP;
             ObjectMapRefresh CEPH_NOSNAP; SnapSetRead 7;
             ObjectMapRefresh 7; ObjectMapRefresh CEPH_NOSNAP;
             SetWriteCtx 5 [5; 3]; Flush]) ∧
    (b = true ↔
     RBD_PROTECTION_STATUS_UNPROTECTING ≠ RBD_PROTECTION_STATUS_UNPROTECTED) ∧
    (RBD_PROTECTION_STATUS_UNPROTECTING = RBD_PROTECTION_STATUS_PROTECTED ∨
     RBD_PROTECTION_STATUS_UNPROTECTING = RBD_PROTECTION_STATUS_UNPROTECTING →
     b = true).
Proof.
  apply (snap_is_protected_unless_unprotected (demo_cluster true) "s3" 3
           demo_child _ 0 _ 3
           (mkSnapInfo "s3" 50 demo_parent_md
              RBD_PROTECTION_STATUS_UNPROTECTING 0)).
  - vm_compute. reflexivity.
  - lia.
  - vm_compute. reflexivity.
  - vm_compute. discriminate.
  - vm_compute. reflexivity.
Defined.

(** The three states as the query reports them. *)
Example protection_as_reported :
  (λ x, x.1.1) <$> snap_is_protected (demo_cluster true) "s5" 3 demo_child
    = Some (0, Some true) ∧
  (λ x, x.1.1) <$> snap_is_protected (demo_cluster true) "s3" 3 demo_child
    = Some (0, Some true).
Proof. vm_compute. done. Qed.

(** *** Reads through the parent *)

(** C4 at its failing input: with an overlap of zero, [has_parent]
    still answers "yes" for offset 0 of a clone. *)
Theorem has_parent_zero_overlap_offset_zero :
  has_parent 1 0 0 = true.
Proof. reflexivity. Qed.

(** Off the boundary the predicate is as the claim says. *)
Lemma has_parent_zero_overlap_positive_offset (parent_pool_id off : Z) :
  0 < off → has_parent parent_pool_id off 0 = false.
Proof.
  intros H. unfold has_parent.
  assert ((off <=? 0) = false) as -> by (apply Z.leb_gt; lia).
  apply andb_false_r.
Qed.

Lemma has_parent_no_parent (off overlap : Z) :
  has_parent (-1) off overlap = false.
Proof. reflexivity. Qed.

(** With an overlap of zero [refresh_parent] closes the cached parent
    handle; the parent spec still names a pool, so the very same call
    opens the parent again. *)
Example refresh_parent_zero_overlap_reopens :
  get_parent_overlap (snap_id demo_child_zero_overlap)
    demo_child_zero_overlap = (0, 0) ∧
  (snap_name <$> parent demo_child_zero_overlap) = Some "golden" ∧
  (λ x, (x.1.1, snap_name <$> parent x.1.2, x.2))
    <$> refresh_parent (demo_cluster true) 3 demo_child_zero_overlap
  = Some (0, Some "golden",
          [ClearNonexistenceCache; Quiesce; Flush;
           DeleteImageCtx 2 "base"; NewImageCtx 2 "base";
           ObjectMapRefresh CEPH_NOSNAP; SetWriteCtx 7 [7]; Flush;
           SnapSetRead CEPH_NOSNAP; ObjectMapRefresh CEPH_NOSNAP;
           SnapSetRead 7; ObjectMapRefresh 7]).
Proof. vm_compute. done. Qed.

(** *** Handles are accounted for *)

Lemma bind_get_eq {A B} (f : ImageCtx → A) (k : A → M B) (i : ImageCtx) :
  bind (get f) k i = k (f i) i.
Proof. unfold bind, get. by destruct (k (f i) i) as [[[b i2] l2]|]. Qed.

Lemma bind_last {A B} (m : M A) (k : A → M B) (x : action)
  (i : ImageCtx) (b : B) (i' : ImageCtx) (l : list action) :
  (∀ a i1 b i2 l2, k a i1 = Some (b, i2, l2) → ∃ l', l2 = l' ++ [x]) →
  bind m k i = Some (b, i', l) → ∃ l', l = l' ++ [x].
Proof.
  intros Hk. unfold bind.
  destruct (m i) as [[[a i1] l1]|]; [|done].
  destruct (k a i1) as [[[b' i2] l2]|] eqn:E; [|done].
  intros [= <- <- <-]. destruct (Hk _ _ _ _ _ E) as [l' ->].
  exists (l1 ++ l'). by rewrite app_assoc.
Qed.

Lemma close_image_body_last (c : Cluster) (op : M Z)
  (cl : ImageCtx → option (Z * list action)) (fuel : nat) (h i' : ImageCtx)
  (r : Z) (l : list action) :
  Body.close_image_body c op cl fuel h = Some (r, i', l) →
  ∃ l', l = l' ++ [DeleteImageCtx (md_ctx h) (id h)].
Proof.
  unfold Body.close_image_body.
  rewrite bind_get_eq. cbn beta. rewrite bind_get_eq. cbn beta.
  do 9 (apply bind_last; intros ? ? ? ? ?; cbn beta).
  cbn. intros [= <- <- <-]. by exists [].
Qed.

(** [close_image] deletes the handle it is given last of all, whatever
    flushing and unlocking report, and by then every handle of the
    chain of parents is deleted too: the deletions exceed the
    allocations by the length of the chain. *)
Theorem close_image_deletes_chain (c : Cluster) (n : nat) (h : ImageCtx)
  (r : Z) (l : list action) :
  close_image c n h = Some (r, l) →
  live l = - depth h ∧
  ∃ l', l = l' ++ [DeleteImageCtx (md_ctx h) (id h)].
Proof.
  intros E. split; [by apply (close_image_acct c n h r)|].
  destruct n as [|n]; [done|]. cbn [close_image] in E.
  destruct (Body.close_image_body c (open_parent c n) (close_image c n) n h)
    as [[[r' i'] l0]|] eqn:Eb; [|done].
  injection E as <- <-.
  by apply (close_image_body_last _ _ _ _ _ _ _ _ Eb).
Qed.

Lemma close_image_deletes_chain_witness :
  live [Quiesce; Flush; Quiesce; Flush; DeleteImageCtx 2 "base";
        DeleteImageCtx 1 "child"]
  = - depth (handle_after_refresh (demo_cluster true) 3 demo_child) ∧
  ∃ l', [Quiesce; Flush; Quiesce; Flush; DeleteImageCtx 2 "base";
         DeleteImageCtx 1 "child"]
        = l' ++ [DeleteImageCtx
                   (md_ctx (handle_after_refresh (demo_cluster true) 3
                              demo_child))
                   (id (handle_after_refresh (demo_cluster true) 3
                          demo_child))].
Proof.
  apply (close_image_deletes_chain (demo_cluster true) 3
           (handle_after_refresh (demo_cluster true) 3 demo_child) 0).
  vm_compute. reflexivity.
Defined.

(** A refresh that returns, with success or an error, has opened
    exactly as many more handles than it has deleted as the chain of
    parents has grown; it changes neither the identity of the handle
    nor the selected view nor [refresh_seq]; a view marked as gone stays
    marked; and on success [last_refresh] has caught up with
    [refresh_seq]. *)
Theorem ictx_refresh_frame (c : Cluster) (n : nat) (i i' : ImageCtx)
  (r : Z) (l : list action) :
  ictx_refresh c n i = Some (r, i', l) →
  live l = depth_opt (parent i') - depth_opt (parent i) ∧
  ident i' = ident i ∧
  (snap_exists i = false → snap_exists i' = false) ∧
  (0 ≤ r → last_refresh i' = refresh_seq i').
Proof.
  intros E.
  destruct (wp_elim _ _ _ _ _ _ (ictx_refresh_spec c n i) E)
    as (Hl & Hid & Hex & Hok & _).
  split; [done|]. split; [done|]. split; [done|].
  intros Hr. by destruct (Hok Hr).
Qed.

Lemma ictx_refresh_frame_witness :
  live [NewImageCtx 2 "base"; ObjectMapRefresh CEPH_NOSNAP;
        SetWriteCtx 7 [7]; Flush; SnapSetRead CEPH_NOSNAP;
        ObjectMapRefresh CEPH_NOSNAP; SnapSetRead 7; ObjectMapRefresh 7;
        ObjectMapRefresh CEPH_NOSNAP; SetWriteCtx 5 [5; 3]; Flush]
  = depth_opt (parent (handle_after_refresh (demo_cluster true) 3
                         demo_child))
    - depth_opt (parent demo_child) ∧
  ident (handle_after_refresh (demo_cluster true) 3 demo_child)
  = ident demo_child ∧
  (snap_exists demo_child = false →
   snap_exists (handle_after_refresh (demo_cluster true) 3 demo_child)
   = false) ∧
  (0 ≤ 0 →
   last_refresh (handle_after_refresh (demo_cluster true) 3 demo_child)
   = refresh_seq (handle_after_refresh (demo_cluster true) 3 demo_child)).
Proof.
  apply (ictx_refresh_frame (demo_cluster true) 3 demo_child).
  vm_compute. reflexivity.
Defined.

(** Once [ictx_check] has succeeded, every further [ictx_check] on the
    handle it left returns 0 at once: no read from the cluster, no
    action, the handle untouched. *)
Theorem ictx_check_again_is_noop (c : Cluster) (b : bool) (n : nat)
  (i i1 : ImageCtx) (r : Z) (l : list action) :
  ictx_check c b n i = Some (r, i1, l) →
  0 ≤ r →
  ∀ b' n', ictx_check c b' n' i1 = Some (0, i1, []).
Proof.
  intros E Hr b' n'.
  destruct (wp_elim _ _ _ _ _ _ (ictx_check_spec c b n i) E)
    as (_ & _ & _ & Hok & _).
  apply ictx_check_fresh. by apply Hok.
Qed.

Lemma ictx_check_again_is_noop_witness :
  ictx_check (demo_cluster true) true 0
    (after (ictx_check (demo_cluster true) false 3) demo_child)
  = Some (0, after (ictx_check (demo_cluster true) false 3) demo_child,
          []).
Proof.
  apply (ictx_check_again_is_noop (demo_cluster true) false 3 demo_child
           (after (ictx_check (demo_cluster true) false 3) demo_child) 0
           [NewImageCtx 2 "base"; ObjectMapRefresh CEPH_NOSNAP;
            SetWriteCtx 7 [7]; Flush; SnapSetRead CEPH_NOSNAP;
            ObjectMapRefresh CEPH_NOSNAP; SnapSetRead 7; ObjectMapRefresh 7;
            ObjectMapRefresh CEPH_NOSNAP; SetWriteCtx 5 [5; 3]; Flush]).
  - vm_compute. reflexivity.
  - lia.
Defined.

(** [open_parent] on a handle without a parent, when it succeeds, has
    installed a parent handle and changed nothing else of the child;
    the handles it has opened and not deleted are exactly those of the
    installed chain, every handle of that chain is up to date, and the
    chain is no longer than the budget. *)
Theorem open_parent_success_installs (c : Cluster) (n : nat)
  (i i' : ImageCtx) (r : Z) (l : list action) :
  open_parent c n i = Some (r, i', l) →
  parent i = None →
  0 ≤ r →
  ∃ p, parent i' = Some p ∧
       but_parent i' = but_parent i ∧
       live l = depth p ∧
       fresh_chain p ∧
       depth p ≤ Z.of_nat n.
Proof.
  intros E Hnone Hr.
  destruct (wp_elim _ _ _ _ _ _ (open_parent_post c n i Hnone) E)
    as (Hbut & Hl & _ & Hsome & Hgood).
  destruct (Hsome Hr) as [p Hp]. exists p.
  rewrite Hp in Hl, Hgood. cbn in Hl, Hgood. by destruct Hgood.
Qed.

Lemma open_parent_success_installs_witness :
  ∃ p, parent (after (open_parent (demo_cluster true) 3) demo_child_linked)
       = Some p ∧
       but_parent (after (open_parent (demo_cluster true) 3)
                     demo_child_linked)
       = but_parent demo_child_linked ∧
       live [NewImageCtx 2 "base"; ObjectMapRefresh CEPH_NOSNAP;
             SetWriteCtx 7 [7]; Flush; SnapSetRead CEPH_NOSNAP;
             ObjectMapRefresh CEPH_NOSNAP; SnapSetRead 7;
             ObjectMapRefresh 7] = depth p ∧
       fresh_chain p ∧
       depth p ≤ Z.of_nat 3.
Proof.
  apply (open_parent_success_installs (demo_cluster true) 3
           demo_child_linked
           (after (open_parent (demo_cluster true) 3) demo_child_linked) 0).
  - vm_compute. reflexivity.
  - reflexivity.
  - lia.
Defined.

(** *** Clipping a request to the image *)

(** For a request whose end does not wrap around, on a view that
    exists: an empty request is valid wherever it starts; a non-empty
    one that starts at or past the end of the image is refused with
    [-EINVAL]; any other is accepted with its length cut down to what
    is left of the image, and left alone if it fits. *)
Theorem clip_io_clips (off len : Z) (i : ImageCtx) :
  snap_exists i = true →
  0 ≤ off → 0 ≤ len → off + len < 2 ^ 64 →
  let size := get_image_size (snap_id i) i in
  (len = 0 → clip_io off len i = (0, 0)) ∧
  (0 < len → size ≤ off → clip_io off len i = (- EINVAL, len)) ∧
  (0 < len → off < size →
   clip_io off len i = (0, Z.min len (size - off)) ∧
   off + Z.min len (size - off) ≤ size).
Proof.
  intros Hex Hoff Hlen Hsum size. unfold clip_io. rewrite Hex. cbn [negb].
  fold size. rewrite (Z.mod_small (off + len)) by lia.
  split; [|split].
  - intros ->. reflexivity.
  - intros Hpos Hpast.
    destruct (len =? 0) eqn:E; [apply Z.eqb_eq in E; lia|].
    destruct (size <=? off) eqn:E'; [done|]. apply Z.leb_gt in E'. lia.
  - intros Hpos Hin.
    destruct (len =? 0) eqn:E; [apply Z.eqb_eq in E; lia|].
    destruct (size <=? off) eqn:E'; [apply Z.leb_le in E'; lia|].
    destruct (size <? off + len) eqn:E''.
    + apply Z.ltb_lt in E''. rewrite Z.min_r by lia. split; [done|lia].
    + apply Z.ltb_ge in E''. rewrite Z.min_l by lia. split; [done|lia].
Qed.

Lemma clip_io_clips_witness :
  let size := get_image_size (snap_id demo_child_linked) demo_child_linked in
  (90 = 0 → clip_io 40 90 demo_child_linked = (0, 0)) ∧
  (0 < 90 → size ≤ 40 → clip_io 40 90 demo_child_linked = (- EINVAL, 90)) ∧
  (0 < 90 → 40 < size →
   clip_io 40 90 demo_child_linked = (0, Z.min 90 (size - 40)) ∧
   40 + Z.min 90 (size - 40) ≤ size).
Proof.
  apply (clip_io_clips 40 90 demo_child_linked); [reflexivity|lia|lia|lia].
Defined.

(** A request that starts inside the image and whose end wraps
    around 2^64 is accepted as it is: its length is not cut down,
    though it reaches past the end of the image. *)
Theorem clip_io_wrapped_end_unclipped (off len : Z) (i : ImageCtx) :
  snap_exists i = true →
  0 ≤ off → off < get_image_size (snap_id i) i →
  get_image_size (snap_id i) i < 2 ^ 64 →
  0 < len → len < 2 ^ 64 → 2 ^ 64 ≤ off + len →
  clip_io off len i = (0, len) ∧
  get_image_size (snap_id i) i < off + len.
Proof.
  intros Hex Hoff Hin Hsize Hpos Hlen Hwrap. unfold clip_io.
  rewrite Hex. cbn [negb].
  destruct (len =? 0) eqn:E; [apply Z.eqb_eq in E; lia|].
  destruct (get_image_size (snap_id i) i <=? off) eqn:E';
    [apply Z.leb_le in E'; lia|].
  assert ((off + len) mod 2 ^ 64 = off + len - 2 ^ 64) as ->.
  { symmetry. apply (Z.mod_unique_pos _ _ 1); lia. }
  destruct (get_image_size (snap_id i) i <? off + len - 2 ^ 64) eqn:E''.
  - apply Z.ltb_lt in E''. lia.
  - split; [done|lia].
Qed.

Lemma clip_io_wrapped_end_unclipped_witness :
  clip_io 1 (2 ^ 64 - 1) demo_child_linked = (0, 2 ^ 64 - 1) ∧
  get_image_size (snap_id demo_child_linked) demo_child_linked
  < 1 + (2 ^ 64 - 1).
Proof.
  apply (clip_io_wrapped_end_unclipped 1 (2 ^ 64 - 1) demo_child_linked);
    [reflexivity | lia | vm_compute; reflexivity | vm_compute; reflexivity
     | lia | lia | lia].
Defined.

(** On a view whose snapshot is gone every request is refused, the
    empty one too. *)
Example clip_io_view_gone :
  clip_io 0 0 (set_view 9 "gone" false demo_child_linked) = (- ENOENT, 0).
Proof. reflexivity. Qed.

End ImageProofs.
Module SnapshotsProofs.
Import Image Snapshots.

(** ** The pool scan *)

Lemma scanned_stops_negative (pools : list (Z * string)) (t : list event)
  (e : Z) :
  scanned pools t (Some e) → e < 0.
Proof.
  remember (Some e) as v eqn:Hv. intros H. revert Hv.
  induction H; intros Hv; try discriminate; auto;
    injection Hv as <-; unfold EBUSY; lia.
Qed.

Lemma scanned_child_busy (pools : list (Z * string)) (t : list event)
  (v : option Z) (p : Z) :
  scanned pools t v → GetChildren p 0 ∈ t → v = Some (- EBUSY).
Proof.
  induction 1; intros Hin;
    repeat (apply elem_of_cons in Hin as [Hin|Hin]; [try discriminate|]);
    try (by apply elem_of_nil in Hin); auto;
    injection Hin as _ Hz; unfold ENOENT in *; lia.
Qed.

Lemma scanned_events (pools : list (Z * string)) (t : list event)
  (v : option Z) (e : event) :
  scanned pools t v → e ∈ t →
  match e with
  | PoolGetBaseTier p _ _ | IoctxCreate2 p _ | GetChildren p _ =>
    p ∈ pools.*1
  | _ => False
  end.
Proof.
  induction 1; intros Hin;
    repeat (apply elem_of_cons in Hin as [Heq|Hin];
            [rewrite Heq; cbn; apply elem_of_cons; by left|]);
    try (by apply elem_of_nil in Hin);
    specialize (IHscanned Hin); destruct e; cbn in *; try done;
    apply elem_of_cons; by right.
Qed.

(** ** [scan_for_parents] *)

Lemma scan_loop_true (pspec : parent_spec) (sid : Z)
  (its : list (Z * SnapInfo)) :
  scan_loop pspec sid its = true ↔
  ∃ k info, (k, info) ∈ its ∧ k ≠ sid ∧ spec (si_parent info) = pspec.
Proof.
  induction its as [|[k info] rest IH]; cbn.
  - split; [discriminate|]. intros (k & info & Hin & _).
    by apply elem_of_nil in Hin.
  - destruct (k =? sid) eqn:Hk.
    + apply Z.eqb_eq in Hk. rewrite IH. split.
      * intros (k' & info' & Hin & Hne & Hsp).
        exists k', info'. split; [|done]. apply elem_of_cons. by right.
      * intros (k' & info' & Hin & Hne & Hsp).
        apply elem_of_cons in Hin as [Heq|Hin]; [congruence|].
        by exists k', info'.
    + apply Z.eqb_neq in Hk. case_bool_decide as Hsp.
      * split; [|done]. intros _. exists k, info.
        split; [|done]. apply elem_of_cons. by left.
      * rewrite IH. split.
        -- intros (k' & info' & Hin & Hne & Hsp').
           exists k', info'. split; [|done]. apply elem_of_cons. by right.
        -- intros (k' & info' & Hin & Hne & Hsp').
           apply elem_of_cons in Hin as [Heq|Hin]; [congruence|].
           by exists k', info'.
Qed.

(** [scan_for_parents] answers [-ENOENT] exactly when the spec names
    a parent and no snapshot of the table other than [oursnap_id] has
    that parent; in every other case it answers 0. *)
Theorem scan_for_parents_enoent_iff (i : ImageCtx) (pspec : parent_spec)
  (oursnap_id : Z) :
  (scan_for_parents i pspec oursnap_id = - ENOENT ↔
   pool_id pspec ≠ -1 ∧
   ∀ k info, snap_info i !! k = Some info → k ≠ oursnap_id →
             spec (si_parent info) ≠ pspec) ∧
  (scan_for_parents i pspec oursnap_id = - ENOENT ∨
   scan_for_parents i pspec oursnap_id = 0).
Proof.
  unfold scan_for_parents.
  destruct (pool_id pspec =? -1) eqn:Hp; cbn [negb].
  { apply Z.eqb_eq in Hp. split; [|by right].
    split; [discriminate|]. intros [? _]. done. }
  apply Z.eqb_neq in Hp.
  destruct (scan_loop pspec oursnap_id (map_to_list (snap_info i))) eqn:Hs.
  - split; [|by right]. split; [discriminate|]. intros [_ Hall].
    apply scan_loop_true in Hs as (k & info & Hin & Hne & Hsp).
    apply elem_of_map_to_list in Hin. by destruct (Hall k info Hin Hne).
  - split; [|by left]. split; [|done]. intros _. split; [done|].
    intros k info Hk Hne Hsp.
    assert (scan_loop pspec oursnap_id (map_to_list (snap_info i)) = true)
      as Ht; [|congruence].
    apply scan_loop_true. exists k, info.
    split; [|done]. by apply elem_of_map_to_list.
Qed.

Section Generic.
Context {W : Type}.
Variable env : Env W.

Lemma scan_pools_scanned (pspec : parent_spec) (pools : list (Z * string))
  (w : W) (i : ImageCtx) :
  ∃ v w' t,
    scan_pools env pspec pools w i = Some (v, w', i, t) ∧ scanned pools t v.
Proof.
  revert w. induction pools as [|[pool name] rest IH]; intros w.
  - eexists _, _, _. split; [reflexivity | constructor].
  - cbn [scan_pools]. unfold bind at 1. unfold call at 1.
    destruct (pool_get_base_tier env pool w) as [[r b] w1] eqn:E1. cbn.
    destruct (r =? - ENOENT) eqn:En.
    { apply Z.eqb_eq in En. subst r.
      destruct (IH w1) as (v & w' & t & -> & Hs).
      eexists _, _, _. split; [reflexivity|]. by apply scanned_pool_gone. }
    apply Z.eqb_neq in En.
    destruct (r <? 0) eqn:Hr.
    { apply Z.ltb_lt in Hr.
      eexists _, _, _. split; [reflexivity|]. by apply scanned_tier_failed. }
    apply Z.ltb_ge in Hr.
    destruct (pool =? b) eqn:Hb; cbn.
    2: { apply Z.eqb_neq in Hb.
         destruct (IH w1) as (v & w' & t & -> & Hs).
         eexists _, _, _. split; [reflexivity|].
         apply scanned_cache_tier; auto. }
    apply Z.eqb_eq in Hb. subst b.
    unfold bind at 1. unfold call at 1.
    destruct (ioctx_create2 env pool w1) as [r' w2] eqn:E2.
    destruct (r' =? - ENOENT) eqn:En'.
    { apply Z.eqb_eq in En'. subst r'.
      destruct (IH w2) as (v & w' & t & -> & Hs).
      eexists _, _, _. split; [reflexivity|]. by apply scanned_ioctx_gone. }
    apply Z.eqb_neq in En'.
    destruct (r' <? 0) eqn:Hr'.
    { apply Z.ltb_lt in Hr'.
      eexists _, _, _. split; [reflexivity|]. by apply scanned_ioctx_failed. }
    apply Z.ltb_ge in Hr'.
    unfold bind at 1. unfold call at 1.
    destruct (get_children env pool pspec w2) as [[r'' cs] w3] eqn:E3.
    cbn [fst].
    destruct (r'' <? 0) eqn:Hr''; destruct (r'' =? - ENOENT) eqn:En'';
      cbn [andb negb].
    + apply Z.eqb_eq in En''. subst r''.
      change (- ENOENT =? 0) with false. cbn iota.
      destruct (IH w3) as (v & w' & t & -> & Hs).
      eexists _, _, _. split; [reflexivity|].
      apply scanned_no_child; auto.
    + apply Z.ltb_lt in Hr''. apply Z.eqb_neq in En''.
      eexists _, _, _. split; [reflexivity|].
      by apply scanned_children_failed.
    + apply Z.eqb_eq in En''. apply Z.ltb_ge in Hr''.
      unfold ENOENT in En''. lia.
    + apply Z.ltb_ge in Hr''.
      destruct (r'' =? 0) eqn:Hz.
      * apply Z.eqb_eq in Hz. subst r''.
        eexists _, _, _. split; [reflexivity|].
        by apply scanned_child_found.
      * apply Z.eqb_neq in Hz.
        destruct (IH w3) as (v & w' & t & -> & Hs).
        eexists _, _, _. split; [reflexivity|].
        apply scanned_no_child; auto. right. lia.
Qed.

(** ** [snap_unprotect] *)

Lemma notify_change_run (w : W) (i : ImageCtx) :
  notify_change env w i
  = Some (0, w, set_refresh_seq (refresh_seq i + 1) i, [Handle NotifyChange]).
Proof. reflexivity. Qed.

Lemma reprotect_run (snap r : Z) (w : W) (i : ImageCtx) :
  reprotect_and_return_err env snap r w i
  = Some (r,
          (set_protection_status env snap RBD_PROTECTION_STATUS_PROTECTED w).2,
          set_refresh_seq (refresh_seq i + 1) i,
          [SetProtectionStatus snap RBD_PROTECTION_STATUS_PROTECTED
             (set_protection_status env snap
                RBD_PROTECTION_STATUS_PROTECTED w).1;
           Handle NotifyChange]).
Proof.
  unfold reprotect_and_return_err, bind, call.
  destruct (set_protection_status env snap RBD_PROTECTION_STATUS_PROTECTED w)
    as [r' w'].
  reflexivity.
Qed.

Lemma snap_unprotect_run (name : string) (fuel : nat) (w w1 : W)
  (i i1 : ImageCtx) (rc r0 : Z) (lc : list action) (sid : Z)
  (info : SnapInfo) :
  read_only i = false →
  ictx_check (cluster env w) false fuel i = Some (rc, i1, lc) →
  0 ≤ rc →
  Z.land (features i1) RBD_FEATURE_LAYERING ≠ 0 →
  snap_ids i1 !! name = Some sid →
  sid ≠ CEPH_NOSNAP →
  snap_info i1 !! sid = Some info →
  si_protection_status info ≠ RBD_PROTECTION_STATUS_UNPROTECTED →
  set_protection_status env sid RBD_PROTECTION_STATUS_UNPROTECTING w
  = (r0, w1) →
  ∃ r w' i' t,
    snap_unprotect env name fuel w i = Some (r, w', i', t) ∧
    if r0 <? 0 then
      r = r0 ∧ w' = w1 ∧ i' = i1 ∧
      t = (Handle <$> lc) ++
          [SetProtectionStatus sid RBD_PROTECTION_STATUS_UNPROTECTING r0]
    else
      ∃ scan verdict tail,
        t = (Handle <$> lc) ++
            [SetProtectionStatus sid RBD_PROTECTION_STATUS_UNPROTECTING r0;
             Handle NotifyChange; WaitForLatestOsdmap;
             PoolList2 (pool_list2 env w1).1.1] ++ scan ++ tail ∧
        scanned (pool_list2 env w1).1.2 scan verdict ∧
        closing sid verdict tail r.
Proof.
  intros Hro Hck Hrc Hlay Hid Hsid Hinfo Hst Hset.
  unfold snap_unprotect.
  unfold bind at 1. unfold get at 1. rewrite Hro.
  unfold bind at 1. unfold on_handle at 1. rewrite Hck.
  apply Z.ltb_ge in Hrc. rewrite Hrc.
  unfold bind at 1. unfold get at 1.
  apply Z.eqb_neq in Hlay. rewrite Hlay.
  unfold bind at 1. unfold get at 1.
  assert (get_snap_id name i1 = sid) as ->
    by (unfold get_snap_id; by rewrite Hid).
  pose proof Hsid as Hsid'. apply Z.eqb_neq in Hsid'. rewrite Hsid'.
  unfold bind at 1. unfold get at 1.
  unfold is_snap_unprotected, get_snap_info. rewrite Hinfo.
  change (0 <? 0) with false. cbn iota.
  apply Z.eqb_neq in Hst. rewrite Hst.
  unfold bind at 1. unfold call at 1. rewrite Hset.
  destruct (r0 <? 0) eqn:Hr0.
  { eexists _, _, _, _. split; [reflexivity|].
    cbn. rewrite ?app_nil_r. done. }
  unfold bind at 1. rewrite notify_change_run.
  unfold bind at 1. unfold get at 1.
  unfold bind at 1. unfold get at 1.
  unfold bind at 1. unfold emit at 1.
  unfold bind at 1. unfold call at 1.
  destruct (pool_list2 env w1) as [[rl pools] w2] eqn:Hpl.
  cbn [fst snd].
  unfold bind at 1.
  set (i2 := set_refresh_seq (refresh_seq i1 + 1) i1).
  destruct (scan_pools_scanned
              (ParentSpec (md_ctx i2) (id i2) sid) pools w2 i2)
    as (v & w3 & t & Hscan & Hsc).
  rewrite Hscan.
  destruct v as [e|].
  - rewrite reprotect_run.
    eexists _, _, _, _. split; [reflexivity|].
    eexists t, (Some e), _. split; [|split; [done|apply closing_rollback]].
    cbn. rewrite ?app_nil_r, <- ?app_assoc. reflexivity.
  - unfold bind at 1. unfold call at 1.
    destruct (set_protection_status env sid
                RBD_PROTECTION_STATUS_UNPROTECTED w3) as [r1 w4] eqn:Hun.
    destruct (r1 <? 0) eqn:Hr1.
    + rewrite reprotect_run.
      eexists _, _, _, _. split; [reflexivity|].
      eexists t, None, _.
      split; [|split; [done|apply closing_commit_failed; by apply Z.ltb_lt]].
      cbn. rewrite ?app_nil_r, <- ?app_assoc. reflexivity.
    + unfold bind at 1. rewrite notify_change_run.
      eexists _, _, _, _. split; [reflexivity|].
      eexists t, None, _.
      split; [|split; [done|apply closing_commit; by apply Z.ltb_ge]].
      cbn. rewrite ?app_nil_r, <- ?app_assoc. reflexivity.
Qed.

(** Past its guards [snap_unprotect] writes the transitional status
    first; if that fails it returns the error and does nothing else.
    Otherwise it lists the pools, scans them as [scanned] tells, and
    ends as [closing] tells: on a scan that stops, an attempt to write
    [PROTECTED] back and the error of the scan; on a scan that comes to
    its end, the write of [UNPROTECTED] and 0, or, if that write fails,
    the attempt to write [PROTECTED] back and the error of the
    write. *)
Theorem snap_unprotect_two_phase (name : string) (fuel : nat) (w w1 : W)
  (i i1 : ImageCtx) (rc r0 : Z) (lc : list action) (sid : Z)
  (info : SnapInfo) :
  read_only i = false →
  ictx_check (cluster env w) false fuel i = Some (rc, i1, lc) →
  0 ≤ rc →
  Z.land (features i1) RBD_FEATURE_LAYERING ≠ 0 →
  snap_ids i1 !! name = Some sid →
  sid ≠ CEPH_NOSNAP →
  snap_info i1 !! sid = Some info →
  si_protection_status info ≠ RBD_PROTECTION_STATUS_UNPROTECTED →
  set_protection_status env sid RBD_PROTECTION_STATUS_UNPROTECTING w
  = (r0, w1) →
  ∃ r w' i' t,
    snap_unprotect env name fuel w i = Some (r, w', i', t) ∧
    if r0 <? 0 then
      r = r0 ∧ w' = w1 ∧ i' = i1 ∧
      t = (Handle <$> lc) ++
          [SetProtectionStatus sid RBD_PROTECTION_STATUS_UNPROTECTING r0]
    else
      ∃ scan verdict tail,
        t = (Handle <$> lc) ++
            [SetProtectionStatus sid RBD_PROTECTION_STATUS_UNPROTECTING r0;
             Handle NotifyChange; WaitForLatestOsdmap;
             PoolList2 (pool_list2 env w1).1.1] ++ scan ++ tail ∧
        scanned (pool_list2 env w1).1.2 scan verdict ∧
        closing sid verdict tail r.
Proof. apply snap_unprotect_run. Qed.

(** Once the transitional status is written: if any pool answers
    [get_children] with 0, the call returns [-EBUSY] and its last
    cluster call is the write of [PROTECTED]; the call returns 0 only
    if no pool answered so, and then its last cluster call is a
    successful write of [UNPROTECTED]; and every pool it asks about is
    one of the list that [pool_list2] gave. *)
Theorem snap_unprotect_busy_iff_child_found (name : string) (fuel : nat)
  (w w1 : W) (i i1 : ImageCtx) (rc r0 : Z) (lc : list action) (sid : Z)
  (info : SnapInfo) :
  read_only i = false →
  ictx_check (cluster env w) false fuel i = Some (rc, i1, lc) →
  0 ≤ rc →
  Z.land (features i1) RBD_FEATURE_LAYERING ≠ 0 →
  snap_ids i1 !! name = Some sid →
  sid ≠ CEPH_NOSNAP →
  snap_info i1 !! sid = Some info →
  si_protection_status info ≠ RBD_PROTECTION_STATUS_UNPROTECTED →
  set_protection_status env sid RBD_PROTECTION_STATUS_UNPROTECTING w
  = (r0, w1) →
  0 ≤ r0 →
  ∃ r w' i' t,
    snap_unprotect env name fuel w i = Some (r, w', i', t) ∧
    r ≤ 0 ∧
    ((∃ p, GetChildren p 0 ∈ t) →
     r = - EBUSY ∧
     ∃ pre proterr,
       t = pre ++ [SetProtectionStatus sid RBD_PROTECTION_STATUS_PROTECTED
                     proterr; Handle NotifyChange]) ∧
    (r = 0 →
     (∀ p, GetChildren p 0 ∉ t) ∧
     ∃ pre r1,
       0 ≤ r1 ∧
       t = pre ++ [SetProtectionStatus sid RBD_PROTECTION_STATUS_UNPROTECTED
                     r1; Handle NotifyChange]) ∧
    (∀ p x, GetChildren p x ∈ t → p ∈ (pool_list2 env w1).1.2.*1).
Proof.
  intros Hro Hck Hrc Hlay Hid Hsid Hinfo Hst Hset Hr0.
  destruct (snap_unprotect_run name fuel w w1 i i1 rc r0 lc sid info)
    as (r & w' & i' & t & Hrun & Hshape); auto.
  apply Z.ltb_ge in Hr0. rewrite Hr0 in Hshape.
  destruct Hshape as (scan & v & tail & -> & Hscan & Hclose).
  eexists r, w', i', _. split; [done|].
  assert (Hin : ∀ p x,
    GetChildren p x ∈
      (Handle <$> lc) ++
      [SetProtectionStatus sid RBD_PROTECTION_STATUS_UNPROTECTING r0;
       Handle NotifyChange; WaitForLatestOsdmap;
       PoolList2 (pool_list2 env w1).1.1] ++ scan ++ tail →
    GetChildren p x ∈ scan).
  { intros p x Hin.
    apply elem_of_app in Hin as [Hin|Hin].
    { apply list_elem_of_fmap in Hin as (a & Ha & _). discriminate. }
    apply elem_of_app in Hin as [Hin|Hin].
    { repeat (apply elem_of_cons in Hin as [Hin|Hin]; [discriminate|]).
      by apply elem_of_nil in Hin. }
    apply elem_of_app in Hin as [Hin|Hin]; [done|].
    destruct Hclose;
      repeat (apply elem_of_cons in Hin as [Hin|Hin]; [discriminate|]);
      by apply elem_of_nil in Hin. }
  split; [|split; [|split]].
  - destruct Hclose as [e proterr|r1 Hr1|r1 proterr Hr1]; [|lia|lia].
    apply scanned_stops_negative in Hscan. lia.
  - intros [p Hp]. apply Hin in Hp.
    pose proof (scanned_child_busy _ _ _ _ Hscan Hp) as ->.
    inversion Hclose; subst. split; [done|].
    eexists ((Handle <$> lc) ++
             [SetProtectionStatus sid RBD_PROTECTION_STATUS_UNPROTECTING r0;
              Handle NotifyChange; WaitForLatestOsdmap;
              PoolList2 (pool_list2 env w1).1.1] ++ scan), _.
    rewrite <- !app_assoc. reflexivity.
  - intros ->.
    inversion Hclose as [e proterr|r1 Hr1|r1 proterr Hr1]; subst.
    { apply scanned_stops_negative in Hscan. lia. }
    2: lia.
    split.
    + intros p Hp. apply Hin in Hp.
      by pose proof (scanned_child_busy _ _ _ _ Hscan Hp).
    + eexists ((Handle <$> lc) ++
               [SetProtectionStatus sid RBD_PROTECTION_STATUS_UNPROTECTING r0;
                Handle NotifyChange; WaitForLatestOsdmap;
                PoolList2 (pool_list2 env w1).1.1] ++ scan), r1.
      split; [done|].
      rewrite <- !app_assoc. reflexivity.
  - intros p x Hp. apply Hin in Hp.
    apply (scanned_events _ _ _ _ Hscan Hp).
Qed.

(** A guard of [snap_unprotect] that fails ends the call before any
    call into the cluster: a read-only handle gives [-EROFS] without
    even a refresh; after the refresh, an image without layering gives
    [-ENOSYS], a name the handle does not know [-ENOENT], and a
    snapshot that is unprotected already [-EINVAL]. *)
Theorem snap_unprotect_guards (name : string) (fuel : nat) (w : W)
  (i i1 : ImageCtx) (rc : Z) (lc : list action) :
  ictx_check (cluster env w) false fuel i = Some (rc, i1, lc) →
  (read_only i = true →
   snap_unprotect env name fuel w i = Some (- EROFS, w, i, [])) ∧
  (read_only i = false →
   (rc < 0 →
    snap_unprotect env name fuel w i = Some (rc, w, i1, Handle <$> lc)) ∧
   (0 ≤ rc →
    (Z.land (features i1) RBD_FEATURE_LAYERING = 0 →
     snap_unprotect env name fuel w i
     = Some (- ENOSYS, w, i1, Handle <$> lc)) ∧
    (Z.land (features i1) RBD_FEATURE_LAYERING ≠ 0 →
     (snap_ids i1 !! name = None →
      snap_unprotect env name fuel w i
      = Some (- ENOENT, w, i1, Handle <$> lc)) ∧
     (∀ sid info,
        snap_ids i1 !! name = Some sid → sid ≠ CEPH_NOSNAP →
        snap_info i1 !! sid = Some info →
        si_protection_status info = RBD_PROTECTION_STATUS_UNPROTECTED →
        snap_unprotect env name fuel w i
        = Some (- EINVAL, w, i1, Handle <$> lc))))).
Proof.
  intros Hck. split.
  { intros Hro. unfold snap_unprotect, bind, get. by rewrite Hro. }
  intros Hro.
  assert (Hstart : ∀ k : Z → M Z,
    bind (get read_only)
      (λ ro : bool, if ro then ret (- EROFS) else
         bind (on_handle env (λ c, ictx_check c false fuel)) k) w i
    = match k rc w i1 with
      | Some (b, w2, i2, t2) => Some (b, w2, i2, (Handle <$> lc) ++ t2)
      | None => None
      end).
  { intros k. unfold bind at 1. unfold get at 1. rewrite Hro.
    unfold bind at 1. unfold on_handle at 1. rewrite Hck.
    destruct (k rc w i1) as [[[[b w2] i2] t2]|]; reflexivity. }
  unfold snap_unprotect. rewrite Hstart. clear Hstart.
  split.
  { intros Hneg. apply Z.ltb_lt in Hneg. rewrite Hneg.
    cbn. by rewrite app_nil_r. }
  intros Hpos. apply Z.ltb_ge in Hpos. rewrite Hpos.
  split.
  { intros Hlay. unfold bind at 1. unfold get at 1. rewrite Hlay.
    cbn. by rewrite app_nil_r. }
  intros Hlay. apply Z.eqb_neq in Hlay.
  split.
  { intros Hnone. unfold bind at 1. unfold get at 1. rewrite Hlay.
    unfold bind at 1. unfold get at 1.
    unfold get_snap_id. rewrite Hnone. cbn.
    by rewrite app_nil_r. }
  intros sid info Hid Hsid Hinfo Hst.
  unfold bind at 1. unfold get at 1. rewrite Hlay.
  unfold bind at 1. unfold get at 1.
  assert (get_snap_id name i1 = sid) as ->
    by (unfold get_snap_id; by rewrite Hid).
  apply Z.eqb_neq in Hsid. rewrite Hsid.
  unfold bind at 1. unfold get at 1.
  unfold is_snap_unprotected, get_snap_info. rewrite Hinfo, Hst.
  cbn. by rewrite app_nil_r.
Qed.

(** ** [snap_remove_helper] *)

Lemma snap_remove_helper_start (ctx : bool) (name : string) (fuel : nat)
  (w : W) (i i1 : ImageCtx) (rc : Z) (lc : list action) :
  (Z.land (features i) RBD_FEATURE_FAST_DIFF ≠ 0 →
   lock_held_if_supported (cluster env w) i = true) →
  ictx_check (cluster env w) true fuel i = Some (rc, i1, lc) →
  snap_remove_helper env ctx name fuel w i
  = if rc <? 0 then Some (rc, w, i1, Handle <$> lc) else
    match
      (bind (get (get_snap_id name))
         (λ snap_id,
            if snap_id =? CEPH_NOSNAP then ret (- ENOENT) else
            bind
              (call (object_map_snapshot_remove env snap_id)
                 (ObjectMapSnapshotRemove snap_id))
              (λ r,
                 if r <? 0 then ret r else
                 bind (get (get_parent_spec snap_id))
                   (λ '(r, our_pspec),
                      if r <? 0 then ret r else
                      bind
                        (get (λ i, deregisters i our_pspec snap_id))
                        (λ dereg,
                           bind
                             (if dereg : bool then
                                bind (get id)
                                  (λ child,
                                     bind
                                       (call
                                          (remove_child env our_pspec child)
                                          (RemoveChild our_pspec child))
                                       (λ r,
                                          if (r <? 0) &&
                                             negb (r =? - ENOENT)
                                          then ret (Some r)
                                          else ret None))
                              else ret None)
                             (λ failed,
                                match failed with
                                | Some r => ret r
                                | None =>
                                  bind (rm_snap env name snap_id)
                                    (λ r,
                                       if r <? 0 then ret r else
                                       bind
                                         (call
                                            (selfmanaged_snap_remove env
                                               snap_id)
                                            (SelfmanagedSnapRemove snap_id))
                                         (λ r,
                                            if r <? 0 then ret r else
                                            bind
                                              (if ctx
                                               then emit (Complete 0)
                                               else ret tt)
                                              (λ _, ret 0)))
                                end))))))
        w i1
    with
    | Some (b, w2, i2, t2) => Some (b, w2, i2, (Handle <$> lc) ++ t2)
    | None => None
    end.
Proof.
  intros Hassert Hck. unfold snap_remove_helper.
  unfold bind at 1. unfold get at 1.
  unfold bind at 1.
  assert ((if negb (Z.land (features i) RBD_FEATURE_FAST_DIFF =? 0)
           then
             bind (watcher env watcher_is_lock_supported)
               (λ supported,
                  bind (watcher env watcher_is_lock_owner)
                    (λ owner, assert (negb supported || owner)))
           else ret ()) w i = Some ((), w, i, [])) as ->.
  { destruct (Z.land (features i) RBD_FEATURE_FAST_DIFF =? 0) eqn:Hf;
      cbn [negb]; [reflexivity|].
    apply Z.eqb_neq in Hf. specialize (Hassert Hf).
    unfold lock_held_if_supported in Hassert.
    apply andb_true_iff in Hassert as [Hw Hassert].
    unfold bind, watcher, assert. cbn. rewrite Hw. cbn. rewrite Hw.
    by rewrite Hassert. }
  unfold bind at 1. unfold on_handle at 1. rewrite Hck.
  destruct (rc <? 0).
  - cbn. by rewrite app_nil_r.
  - match goal with
    | |- context [match ?m w i1 with _ => _ end] =>
      destruct (m w i1) as [[[[b w2] i2] t2]|]
    end; reflexivity.
Qed.

Lemma rm_snap_run (name : string) (sid : Z) (w : W) (i1 : ImageCtx) :
  let call_ :=
    if old_format i1 then old_snapshot_remove env name w
    else snapshot_remove env sid w in
  rm_snap env name sid w i1
  = Some (if call_.1 <? 0 then call_.1 else 0, call_.2,
          local_after i1 name sid call_.1,
          [header_deletion (old_format i1) sid name call_.1]).
Proof.
  unfold rm_snap, local_after, header_deletion.
  unfold bind at 1. unfold get at 1.
  destruct (old_format i1).
  - unfold bind, call.
    destruct (old_snapshot_remove env name w) as [r w']. cbn.
    by destruct (r <? 0).
  - unfold bind at 1. unfold bind at 1. unfold call at 1.
    destruct (snapshot_remove env sid w) as [r w']. cbn [fst snd].
    unfold bind at 1.
    destruct (r =? 0); cbn; by destruct (r <? 0).
Qed.

Lemma snap_remove_helper_run (ctx : bool) (name : string) (fuel : nat)
  (w : W) (i i1 : ImageCtx) (rc : Z) (lc : list action) (sid : Z)
  (info : SnapInfo) :
  (Z.land (features i) RBD_FEATURE_FAST_DIFF ≠ 0 →
   lock_held_if_supported (cluster env w) i = true) →
  ictx_check (cluster env w) true fuel i = Some (rc, i1, lc) →
  0 ≤ rc →
  snap_ids i1 !! name = Some sid →
  sid ≠ CEPH_NOSNAP →
  snap_info i1 !! sid = Some info →
  ∃ r w' i' steps,
    snap_remove_helper env ctx name fuel w i
    = Some (r, w', i', (Handle <$> lc) ++ steps) ∧
    removed i1 name sid (spec (si_parent info)) ctx steps r i'.
Proof.
  intros Hassert Hck Hrc Hid Hsid Hinfo.
  rewrite (snap_remove_helper_start ctx name fuel w i i1 rc lc Hassert Hck).
  apply Z.ltb_ge in Hrc. rewrite Hrc.
  unfold bind at 1. unfold get at 1.
  assert (get_snap_id name i1 = sid) as ->
    by (unfold get_snap_id; by rewrite Hid).
  pose proof Hsid as Hsid'. apply Z.eqb_neq in Hsid'. rewrite Hsid'.
  unfold bind at 1. unfold call at 1.
  destruct (object_map_snapshot_remove env sid w) as [ro w1] eqn:Hom.
  destruct (ro <? 0) eqn:Hro.
  { apply Z.ltb_lt in Hro. eexists _, _, _, _. split; [reflexivity|].
    cbn. by apply removed_object_map_failed. }
  apply Z.ltb_ge in Hro.
  unfold bind at 1. unfold get at 1.
  assert (get_parent_spec sid i1 = (0, spec (si_parent info))) as ->.
  { unfold get_parent_spec, get_parent_info, get_snap_info.
    rewrite Hsid', Hinfo. reflexivity. }
  change (0 <? 0) with false. cbn iota.
  unfold bind at 1. unfold get at 1.
  set (pspec := spec (si_parent info)).
  unfold bind at 1.
  assert (Hrest : ∀ w2 dereg,
    deregistration i1 pspec sid dereg →
    ∃ r w' i' tl,
      bind (rm_snap env name sid)
        (λ r,
           if r <? 0 then ret r else
           bind
             (call (selfmanaged_snap_remove env sid)
                (SelfmanagedSnapRemove sid))
             (λ r,
                if r <? 0 then ret r else
                bind (if ctx then emit (Complete 0) else ret ())
                  (λ _, ret 0))) w2 i1
      = Some (r, w', i', tl) ∧
      removed i1 name sid pspec ctx
        (ObjectMapSnapshotRemove sid ro :: dereg ++ tl) r i').
  { intros w2 dereg Hd. unfold bind at 1. rewrite rm_snap_run.
    cbn zeta.
    set (hc := if old_format i1 then old_snapshot_remove env name w2
               else snapshot_remove env sid w2).
    destruct (hc.1 <? 0) eqn:Hh.
    { rewrite Hh. eexists _, _, _, _. split; [reflexivity|].
      cbn. apply Z.ltb_lt in Hh.
      replace (local_after i1 name sid hc.1) with i1.
      - by apply removed_header_refused.
      - unfold local_after. destruct (old_format i1); [done|].
        destruct (hc.1 =? 0) eqn:Hz; [|done].
        apply Z.eqb_eq in Hz. lia. }
    change (0 <? 0) with false. cbn iota.
    apply Z.ltb_ge in Hh.
    unfold bind at 1. unfold call at 1.
    destruct (selfmanaged_snap_remove env sid hc.2) as [x w3] eqn:Hsm.
    destruct (x <? 0) eqn:Hx.
    { apply Z.ltb_lt in Hx. eexists _, _, _, _. split; [reflexivity|].
      cbn. by apply removed_release_failed. }
    apply Z.ltb_ge in Hx.
    destruct ctx; eexists _, _, _, _; (split; [reflexivity|]); cbn.
    - by apply (removed_done i1 name sid pspec true ro dereg hc.1 x).
    - by apply (removed_done i1 name sid pspec false ro dereg hc.1 x). }
  destruct (deregisters i1 pspec sid) eqn:Hd.
  - unfold bind at 1. unfold get at 1.
    unfold bind at 1. unfold call at 1.
    destruct (remove_child env pspec (id i1) w1) as [rd w2] eqn:Hrc'.
    destruct ((rd <? 0) && negb (rd =? - ENOENT)) eqn:Hfail.
    + apply andb_true_iff in Hfail as [H1 H2].
      apply Z.ltb_lt in H1. apply negb_true_iff, Z.eqb_neq in H2.
      eexists _, _, _, _. split; [reflexivity|].
      cbn. by apply removed_deregister_failed.
    + destruct (Hrest w2 [RemoveChild pspec (id i1) rd])
        as (r & w' & i' & tl & Hrun & Hrem).
      { apply deregistration_done; [done|].
        apply andb_false_iff in Hfail as [H1|H2].
        - apply Z.ltb_ge in H1. by left.
        - apply negb_false_iff, Z.eqb_eq in H2. by right. }
      cbn [ret]. rewrite Hrun.
      eexists _, _, _, _. split; [reflexivity|]. exact Hrem.
  - destruct (Hrest w1 []) as (r & w' & i' & tl & Hrun & Hrem).
    { by apply deregistration_skipped. }
    cbn [ret]. rewrite Hrun.
    eexists _, _, _, _. split; [reflexivity|]. exact Hrem.
Qed.

(** For a live snapshot, past the refresh, [snap_remove_helper] runs
    as [removed] tells: the object map of the snapshot is removed
    first; then the image is taken out of the child index of the
    snapshot's parent if [deregisters] says so; then the header record
    is deleted; then the snapshot id is released.  The first step that
    fails ends the call with its error ([-ENOENT] from the child index
    does not count as a failure), and nothing done before is undone. *)
Theorem snap_remove_helper_protocol (ctx : bool) (name : string)
  (fuel : nat) (w : W) (i i1 : ImageCtx) (rc : Z) (lc : list action)
  (sid : Z) (info : SnapInfo) :
  (Z.land (features i) RBD_FEATURE_FAST_DIFF ≠ 0 →
   lock_held_if_supported (cluster env w) i = true) →
  ictx_check (cluster env w) true fuel i = Some (rc, i1, lc) →
  0 ≤ rc →
  snap_ids i1 !! name = Some sid →
  sid ≠ CEPH_NOSNAP →
  snap_info i1 !! sid = Some info →
  ∃ r w' i' steps,
    snap_remove_helper env ctx name fuel w i
    = Some (r, w', i', (Handle <$> lc) ++ steps) ∧
    removed i1 name sid (spec (si_parent info)) ctx steps r i'.
Proof. apply snap_remove_helper_run. Qed.

Lemma deregistration_keeps (i1 : ImageCtx) (pspec : parent_spec) (sid : Z)
  (dereg : list event) (e : event) :
  deregistration i1 pspec sid dereg → e ∈ dereg → deletes_snapshot e = false.
Proof.
  intros [Hd|rd Hd Hrd] Hin.
  - by apply elem_of_nil in Hin.
  - apply elem_of_cons in Hin as [->|Hin]; [done|].
    by apply elem_of_nil in Hin.
Qed.

(** What an error of [snap_remove_helper] leaves, for a live snapshot:
    either the header record is still there, the handle is as the
    refresh left it and the snapshot id is not released, or the error
    is that of the release and the header record is deleted already.
    The call returns 0 only after the header deletion and the release
    both went through, and never a positive value. *)
Theorem snap_remove_helper_error_leaves (ctx : bool) (name : string)
  (fuel : nat) (w : W) (i i1 : ImageCtx) (rc : Z) (lc : list action)
  (sid : Z) (info : SnapInfo) :
  (Z.land (features i) RBD_FEATURE_FAST_DIFF ≠ 0 →
   lock_held_if_supported (cluster env w) i = true) →
  ictx_check (cluster env w) true fuel i = Some (rc, i1, lc) →
  0 ≤ rc →
  snap_ids i1 !! name = Some sid →
  sid ≠ CEPH_NOSNAP →
  snap_info i1 !! sid = Some info →
  ∃ r w' i' steps,
    snap_remove_helper env ctx name fuel w i
    = Some (r, w', i', (Handle <$> lc) ++ steps) ∧
    r ≤ 0 ∧
    (∃ ro rest, steps = ObjectMapSnapshotRemove sid ro :: rest) ∧
    (r < 0 →
     (i' = i1 ∧ ∀ e, e ∈ steps → deletes_snapshot e = false) ∨
     (∃ pre hr,
        0 ≤ hr ∧
        steps = pre ++ [header_deletion (old_format i1) sid name hr;
                        SelfmanagedSnapRemove sid r])) ∧
    (r = 0 →
     ∃ pre hr x,
       0 ≤ hr ∧ 0 ≤ x ∧ i' = local_after i1 name sid hr ∧
       steps = pre ++ [header_deletion (old_format i1) sid name hr;
                       SelfmanagedSnapRemove sid x] ++
               (if ctx then [Complete 0] else [])).
Proof.
  intros Hassert Hck Hrc Hid Hsid Hinfo.
  destruct (snap_remove_helper_run ctx name fuel w i i1 rc lc sid info)
    as (r & w' & i' & steps & Hrun & Hrem); auto.
  exists r, w', i', steps. split; [done|].
  destruct Hrem as [ro Hro|ro rd Hro Hd Hrd Hne|ro dereg r Hro Hd Hr
                   |ro dereg r x Hro Hd Hr Hx|ro dereg r x Hro Hd Hr Hx].
  - split; [lia|]. split; [by eexists _, _|]. split; [|lia].
    intros _. left. split; [done|]. intros e He.
    apply elem_of_cons in He as [->|He]; [done|].
    by apply elem_of_nil in He.
  - split; [lia|]. split; [by eexists _, _|]. split; [|lia].
    intros _. left. split; [done|]. intros e He.
    apply elem_of_cons in He as [->|He]; [done|].
    apply elem_of_cons in He as [->|He]; [done|].
    by apply elem_of_nil in He.
  - split; [lia|]. split; [by eexists _, _|]. split; [|lia].
    intros _. left. split; [done|]. intros e He.
    apply elem_of_cons in He as [->|He]; [done|].
    apply elem_of_app in He as [He|He].
    { by apply (deregistration_keeps _ _ _ _ _ Hd). }
    apply elem_of_cons in He as [->|He]; [|by apply elem_of_nil in He].
    unfold header_deletion. destruct (old_format i1); cbn;
      by apply Z.leb_gt.
  - split; [lia|]. split; [by eexists _, _|]. split; [|lia].
    intros _. right.
    exists (ObjectMapSnapshotRemove sid ro :: dereg), r.
    split; [done|]. by rewrite <- app_comm_cons.
  - split; [lia|]. split; [by eexists _, _|]. split; [lia|].
    intros _.
    exists (ObjectMapSnapshotRemove sid ro :: dereg), r, x.
    split; [done|]. split; [done|]. split; [done|].
    by rewrite <- app_comm_cons.
Qed.

End Generic.

(** ** A program logic for the operations *)

Section Wps.
Context {W : Type}.
Variable env : Env W.
Context {A B : Type}.

Lemma wps_elim (m : M A) (Q : A → W → ImageCtx → list event → Prop)
  (w : W) (i : ImageCtx) :
  wps m Q w i → ∃ a w' i' t, m w i = Some (a, w', i', t) ∧ Q a w' i' t.
Proof.
  unfold wps. destruct (m w i) as [[[[a w'] i'] t]|]; [|done].
  intros H. by exists a, w', i', t.
Qed.

Lemma wps_run (m : M A) (Q : A → W → ImageCtx → list event → Prop)
  (w w' : W) (i i' : ImageCtx) (a : A) (t : list event) :
  m w i = Some (a, w', i', t) → Q a w' i' t → wps m Q w i.
Proof. unfold wps. by intros ->. Qed.

Lemma wps_mono (m : M A) (Q1 Q2 : A → W → ImageCtx → list event → Prop)
  (w : W) (i : ImageCtx) :
  wps m Q1 w i → (∀ a w' i' t, Q1 a w' i' t → Q2 a w' i' t) → wps m Q2 w i.
Proof. unfold wps. destruct (m w i) as [[[[a w'] i'] t]|]; auto. Qed.

Lemma wps_bind (m : M A) (k : A → M B)
  (Q : B → W → ImageCtx → list event → Prop) (w : W) (i : ImageCtx) :
  wps m (λ a w1 i1 t1, wps (k a) (λ b w2 i2 t2, Q b w2 i2 (t1 ++ t2)) w1 i1)
    w i →
  wps (bind m k) Q w i.
Proof.
  unfold wps, bind. destruct (m w i) as [[[[a w1] i1] t1]|]; [|done].
  destruct (k a w1 i1) as [[[[b w2] i2] t2]|]; done.
Qed.

Lemma wps_ret (a : A) (Q : A → W → ImageCtx → list event → Prop)
  (w : W) (i : ImageCtx) :
  Q a w i [] → wps (ret a) Q w i.
Proof. done. Qed.

Lemma wps_get (f : ImageCtx → A) (Q : A → W → ImageCtx → list event → Prop)
  (w : W) (i : ImageCtx) :
  Q (f i) w i [] → wps (get f) Q w i.
Proof. done. Qed.

Lemma wps_ask (f : Cluster → Z → string → A)
  (Q : A → W → ImageCtx → list event → Prop) (w : W) (i : ImageCtx) :
  Q (f (cluster env w) (md_ctx i) (id i)) w i [] → wps (ask env f) Q w i.
Proof. done. Qed.

Lemma wps_call (f : W → A * W) (e : A → event)
  (Q : A → W → ImageCtx → list event → Prop) (w : W) (i : ImageCtx) :
  Q (f w).1 (f w).2 i [e (f w).1] → wps (call f e) Q w i.
Proof. unfold wps, call. by destruct (f w). Qed.

Lemma wps_on_handle (m : Cluster → Image.M A)
  (Q : A → W → ImageCtx → list event → Prop) (w : W) (i i' : ImageCtx)
  (a : A) (l : list action) :
  m (cluster env w) i = Some (a, i', l) →
  Q a w i' (Handle <$> l) → wps (on_handle env m) Q w i.
Proof. unfold wps, on_handle. by intros ->. Qed.

End Wps.

Lemma wps_emit {W} (e : event)
  (Q : unit → W → ImageCtx → list event → Prop) (w : W) (i : ImageCtx) :
  Q tt w i [e] → wps (emit e) Q w i.
Proof. done. Qed.

Lemma wps_modify {W} (f : ImageCtx → ImageCtx)
  (Q : unit → W → ImageCtx → list event → Prop) (w : W) (i : ImageCtx) :
  Q tt w (f i) [] → wps (modify f) Q w i.
Proof. done. Qed.

Lemma wps_act {W} (f : W → W) (e : event)
  (Q : unit → W → ImageCtx → list event → Prop) (w : W) (i : ImageCtx) :
  Q tt (f w) i [e] → wps (act f e) Q w i.
Proof. done. Qed.

Lemma wps_assert {W} (b : bool)
  (Q : unit → W → ImageCtx → list event → Prop) (w : W) (i : ImageCtx) :
  b = true → Q tt w i [] → wps (assert b) Q w i.
Proof. by intros ->. Qed.

Lemma wps_notify_change {W} (env : Env W)
  (Q : Z → W → ImageCtx → list event → Prop) (w : W) (i : ImageCtx) :
  Q 0 w (set_refresh_seq (refresh_seq i + 1) i) [Handle NotifyChange] →
  wps (notify_change env) Q w i.
Proof. done. Qed.

Ltac wps_step :=
  lazymatch goal with
  | |- wps (bind _ _) _ _ _ => apply wps_bind
  | |- wps (ret _) _ _ _ => apply wps_ret
  | |- wps (get _) _ _ _ => apply wps_get
  | |- wps (ask _ _) _ _ _ => apply wps_ask
  | |- wps (call _ _) _ _ _ => apply wps_call
  | |- wps (emit _) _ _ _ => apply wps_emit
  | |- wps (modify _) _ _ _ => apply wps_modify
  | |- wps (act _ _) _ _ _ => apply wps_act
  | |- wps (notify_change _) _ _ _ => apply wps_notify_change
  | |- wps (if ?b then _ else _) _ _ _ => destruct b eqn:?
  | |- wps (match ?x with _ => _ end) _ _ _ => destruct x eqn:?
  | |- wps (let '(_, _) := ?x in _) _ _ _ => destruct x eqn:?
  end.

Ltac wps_steps := repeat (wps_step; cbn beta).

(** Case analysis on the membership of an event in a trace. *)
Ltac split_in Hin :=
  repeat match type of Hin with
  | _ ∈ _ ++ _ => apply elem_of_app in Hin as [Hin|Hin]
  | _ ∈ _ :: _ => apply elem_of_cons in Hin as [Hin|Hin]
  | _ ∈ [] => apply elem_of_nil in Hin; destruct Hin
  end.

(** ** [snap_protect] *)

Section Lifecycle.
Context {W : Type}.
Variable env : Env W.

(** Past its guards [snap_protect] refuses a snapshot that is
    protected with [-EBUSY] and writes nothing; for any other status,
    the transitional one too, it writes [PROTECTED] once, returns the
    error of a failed write without notifying, and else notifies and
    returns 0. *)
Theorem snap_protect_outcome (name : string) (fuel : nat) (w : W)
  (i i1 : ImageCtx) (rc : Z) (lc : list action) (sid : Z) (info : SnapInfo) :
  read_only i = false →
  ictx_check (cluster env w) false fuel i = Some (rc, i1, lc) →
  0 ≤ rc →
  Z.land (features i1) RBD_FEATURE_LAYERING ≠ 0 →
  snap_ids i1 !! name = Some sid →
  sid ≠ CEPH_NOSNAP →
  snap_info i1 !! sid = Some info →
  let upd :=
    set_protection_status env sid RBD_PROTECTION_STATUS_PROTECTED w in
  snap_protect env name fuel w i
  = if si_protection_status info =? RBD_PROTECTION_STATUS_PROTECTED
    then Some (- EBUSY, w, i1, Handle <$> lc)
    else if upd.1 <? 0
    then Some (upd.1, upd.2, i1,
               (Handle <$> lc) ++
               [SetProtectionStatus sid RBD_PROTECTION_STATUS_PROTECTED
                  upd.1])
    else Some (0, upd.2, set_refresh_seq (refresh_seq i1 + 1) i1,
               (Handle <$> lc) ++
               [SetProtectionStatus sid RBD_PROTECTION_STATUS_PROTECTED
                  upd.1; Handle NotifyChange]).
Proof.
  intros Hro Hck Hrc Hlay Hid Hsid Hinfo upd.
  unfold snap_protect.
  unfold bind at 1. unfold get at 1. rewrite Hro.
  unfold bind at 1. unfold on_handle at 1. rewrite Hck.
  apply Z.ltb_ge in Hrc. rewrite Hrc.
  unfold bind at 1. unfold get at 1.
  apply Z.eqb_neq in Hlay. rewrite Hlay.
  unfold bind at 1. unfold get at 1.
  assert (get_snap_id name i1 = sid) as ->
    by (unfold get_snap_id; by rewrite Hid).
  apply Z.eqb_neq in Hsid. rewrite Hsid.
  unfold bind at 1. unfold get at 1.
  unfold is_snap_protected, get_snap_info. rewrite Hinfo.
  change (0 <? 0) with false. cbn iota.
  destruct (si_protection_status info =? RBD_PROTECTION_STATUS_PROTECTED).
  { cbn. by rewrite ?app_nil_r. }
  unfold bind at 1. unfold call at 1. fold upd.
  destruct upd as [r0 w1]. cbn [fst snd].
  destruct (r0 <? 0).
  { cbn. by rewrite ?app_nil_r. }
  unfold bind at 1. rewrite notify_change_run.
  cbn. by rewrite ?app_nil_r.
Qed.

(** ** [add_snap] and [snap_create_helper] *)

Lemma ids_held_app (held : list Z) (t1 t2 : list event) :
  ids_held held (t1 ++ t2) = ids_held (ids_held held t1) t2.
Proof.
  revert held. induction t1 as [|e t1 IH]; intros held; [done|].
  destruct e; cbn; auto.
Qed.

Lemma ids_added_app (t1 t2 : list event) :
  ids_added (t1 ++ t2) = ids_added t1 ++ ids_added t2.
Proof.
  induction t1 as [|e t1 IH]; [done|].
  destruct e; cbn; auto; destruct (r <? 0); cbn; by rewrite ?IH.
Qed.

Lemma ids_held_handle (held : list Z) (l : list action) :
  ids_held held (Handle <$> l) = held.
Proof. induction l as [|a l IH]; [done|]. exact IH. Qed.

Lemma ids_added_handle (l : list action) :
  ids_added (Handle <$> l) = [].
Proof. induction l as [|a l IH]; [done|]. exact IH. Qed.

Lemma release_refused_app (t1 t2 : list event) :
  release_refused (t1 ++ t2) = release_refused t1 ++ release_refused t2.
Proof.
  induction t1 as [|e t1 IH]; [done|].
  destruct e; cbn; auto. destruct (r <? 0); cbn; by rewrite ?IH.
Qed.

Lemma release_refused_handle (l : list action) :
  release_refused (Handle <$> l) = [].
Proof. induction l as [|a l IH]; [done|]. exact IH. Qed.

(** One round: it returns only on a handle that has its watcher; a
    round that fails leaves the handle alone and adds nothing to the
    header, and the id it allocated stays allocated exactly when its
    release was refused. *)
Lemma add_snap_cases (name : string) (w w' : W) (i i' : ImageCtx) (r : Z)
  (t : list event) :
  add_snap env name w i = Some (r, w', i', t) →
  image_watcher i = true ∧ image_watcher i' = true ∧
  completed t = false ∧
  ((r < 0 ∧ i' = i ∧ ids_added t = [] ∧
    ∀ held, ids_held held t = rev (release_refused t) ++ held) ∨
   (r = 0 ∧ release_refused t = [] ∧
    ∃ sid, ids_added t = [sid] ∧ ∀ held, ids_held held t = sid :: held)).
Proof.
  unfold add_snap.
  unfold bind at 1. unfold watcher at 1.
  destruct (image_watcher i) eqn:Hw; [|done].
  unfold bind at 1. unfold watcher at 1. rewrite Hw.
  unfold bind at 1.
  set (owner := watcher_is_lock_owner (cluster env w) (md_ctx i) (id i)).
  match goal with
  | |- context [if ?b then assert _ else ret tt] =>
    destruct b; [unfold assert; destruct owner eqn:Ho; [|done]
                |unfold ret at 1]
  end.
  all: unfold bind at 1; unfold call at 1;
       destruct (selfmanaged_snap_create env w) as [[r0 sid] w1];
       destruct (r0 <? 0) eqn:Hr0;
       [ cbn; intros [= <- <- <- <-]; split; [done|]; split; [done|];
         split; [reflexivity|]; left;
         split; [by apply Z.ltb_lt|]; split; [done|]; split; [done|];
         intros held; cbn; by rewrite Hr0
       | ].
  all: unfold bind at 1; unfold get at 1; unfold bind at 1;
       destruct (old_format i) eqn:Hold; unfold call at 1;
       match goal with
       | |- context [let '(a, w') := ?f in _] =>
         destruct f as [r1 w2]
       end;
       destruct (r1 <? 0) eqn:Hr1.
  (* the addition to the header fails: the id is given back, and
     stays allocated if that is refused *)
  all: try (unfold bind, call;
            destruct (selfmanaged_snap_remove env sid w2) as [x w3];
            cbn; intros [= <- <- <- <-]; split; [done|]; split; [done|];
            split; [reflexivity|]; left;
            apply Z.ltb_lt in Hr1; split; [done|]; split; [done|];
            split; [cbn; by rewrite (proj2 (Z.ltb_lt _ _) Hr1)|];
            intros held; cbn; rewrite Hr0;
            destruct (x <? 0); cbn; by rewrite ?Z.eqb_refl).
  (* the snapshot is in the header *)
  all: try destruct owner; cbn; intros [= <- <- <- <-];
       (split; [done|]); (split; [done|]);
       (split; [reflexivity|]); right;
       (split; [done|]); (split; [done|]); exists sid;
       (split; [cbn; by rewrite Hr1|]);
       intros held; cbn; by rewrite Hr0.
Qed.

Lemma add_snap_retry_accounting (name : string) (fuel : nat)
  (w w' : W) (i i' : ImageCtx) (r : Z) (t : list event) :
  add_snap_retry env name fuel w i = Some (r, w', i', t) →
  image_watcher i = true ∧
  r ≠ - ESTALE ∧ completed t = false ∧
  ((r < 0 ∧ i' = i ∧ ids_added t = [] ∧
    ∀ held, ids_held held t = rev (release_refused t) ++ held) ∨
   (r = 0 ∧ ∃ sid, ids_added t = [sid] ∧
      ∀ held, ids_held held t = sid :: rev (release_refused t) ++ held)).
Proof.
  revert w i t. induction fuel as [|fuel IH]; intros w i t; [done|].
  cbn [add_snap_retry]. unfold bind at 1.
  destruct (add_snap env name w i) as [[[[r1 w1] i1] t1]|] eqn:E1; [|done].
  pose proof (add_snap_cases _ _ _ _ _ _ _ E1) as (Hw & _ & Hn1 & Hc).
  destruct (r1 =? - ESTALE) eqn:Hs.
  - apply Z.eqb_eq in Hs.
    destruct Hc as [(_ & -> & Ha & Hh)|(-> & _)]; [|done].
    destruct (add_snap_retry env name fuel w1 i) as [[[[r2 w2] i2] t2]|]
      eqn:E2; [|done].
    intros [= <- <- <- <-].
    destruct (IH _ _ _ E2) as (_ & Hne & Hn2 & Hc2).
    split; [done|]. split; [done|].
    split; [unfold completed in *; by rewrite existsb_app, Hn1, Hn2|].
    destruct Hc2 as [(Hr & -> & Ha2 & Hh2)|(-> & sid & Ha2 & Hh2)].
    + left. split; [done|]. split; [done|].
      split; [by rewrite ids_added_app, Ha, Ha2|].
      intros held. rewrite ids_held_app, Hh, Hh2, release_refused_app,
        rev_app_distr. by rewrite app_assoc.
    + right. split; [done|]. exists sid.
      split; [by rewrite ids_added_app, Ha, Ha2|].
      intros held. rewrite ids_held_app, Hh, Hh2, release_refused_app,
        rev_app_distr. by rewrite app_assoc.
  - apply Z.eqb_neq in Hs. cbn. rewrite app_nil_r.
    intros [= <- <- <- <-]. split; [done|]. split; [done|].
    split; [done|].
    destruct Hc as [Hc|(-> & Hrr & sid & Ha & Hh)]; [by left|].
    right. split; [done|]. exists sid. split; [done|].
    intros held. by rewrite Hrr, Hh.
Qed.

(** Whenever the retry loop around [add_snap] returns, the handle has
    its watcher and the value is not [-ESTALE] and not positive.  A
    loop that fails leaves the handle alone and adds nothing to the
    header; a loop that returns 0 has added one id to the header and
    keeps it allocated.  [add_snap] asks for the release of the id of
    a round whose addition failed and does not look at the answer, so
    beyond that one id the ids that stay allocated are exactly those
    whose release was refused: nothing leaks when no release is
    refused, and every refused release leaks its id. *)
Theorem add_snap_retry_release_accounting (name : string) (fuel : nat)
  (w w' : W) (i i' : ImageCtx) (r : Z) (t : list event) :
  add_snap_retry env name fuel w i = Some (r, w', i', t) →
  image_watcher i = true ∧
  r ≠ - ESTALE ∧ r ≤ 0 ∧
  (r < 0 → i' = i ∧ ids_added t = [] ∧
           ∀ held, ids_held held t = rev (release_refused t) ++ held) ∧
  (r = 0 → ∃ sid, ids_added t = [sid] ∧
             ∀ held, ids_held held t
                     = sid :: rev (release_refused t) ++ held).
Proof.
  intros E.
  destruct (add_snap_retry_accounting _ _ _ _ _ _ _ _ E)
    as (Hw & Hne & _ & Hc).
  split; [done|]. split; [done|].
  destruct Hc as [(Hr & Hi & Ha & Hh)|(-> & sid & Ha & Hh)].
  - split; [lia|]. split; [done|]. intros ->. lia.
  - split; [lia|]. split; [lia|]. intros _. by exists sid.
Qed.

(** Whenever [snap_create_helper] returns, the handle has its watcher
    and the value is not positive.  On an error nothing was added to
    the header and the context is not completed; on 0 one id was added
    to the header, it stays allocated, and the context is completed if
    one was passed.  Beyond that one id, the ids that stay allocated
    are exactly those whose release was refused: the result of
    [selfmanaged_snap_remove] is not looked at, so an error return
    leaves no id allocated only if no release was refused. *)
Theorem snap_create_helper_id_accounting (ctx : bool) (name : string)
  (fuel : nat) (w w' : W) (i i' : ImageCtx) (r : Z) (t : list event) :
  snap_create_helper env ctx name fuel w i = Some (r, w', i', t) →
  image_watcher i = true ∧
  r ≤ 0 ∧
  (r < 0 → ids_held [] t = rev (release_refused t) ∧
           ids_added t = [] ∧ completed t = false) ∧
  (r = 0 → completed t = ctx ∧
           ∃ sid, ids_held [] t = sid :: rev (release_refused t) ∧
                  ids_added t = [sid]).
Proof.
  assert (Hnc : ∀ l : list action, completed (Handle <$> l) = false).
  { induction l as [|a l IH]; [done|]. exact IH. }
  unfold snap_create_helper.
  unfold bind at 1. unfold watcher at 1.
  destruct (image_watcher i) eqn:Hw; [|done].
  unfold bind at 1. unfold watcher at 1. rewrite Hw.
  unfold bind at 1. unfold assert at 1.
  destruct (negb _ || _); [|done].
  unfold bind at 1. unfold on_handle at 1.
  destruct (ictx_check (cluster env w) true fuel i) as [[[rc i1] lc]|];
    [|done].
  destruct (rc <? 0) eqn:Hrc.
  { cbn. intros [= <- <- <- <-]. apply Z.ltb_lt in Hrc.
    split; [done|]. split; [lia|]. split; [|lia]. intros _.
    by rewrite app_nil_r, ids_held_handle, ids_added_handle,
      release_refused_handle, Hnc. }
  unfold bind at 1. unfold on_handle at 1.
  destruct (_flush (cluster env w) i1) as [[[rf i2] lf]|]; [|done].
  destruct (rf <? 0) eqn:Hrf.
  { cbn. intros [= <- <- <- <-]. apply Z.ltb_lt in Hrf.
    split; [done|]. split; [lia|]. split; [|lia]. intros _.
    rewrite app_nil_r.
    rewrite ids_held_app, !ids_held_handle.
    rewrite ids_added_app, !ids_added_handle.
    rewrite release_refused_app, !release_refused_handle.
    unfold completed. rewrite existsb_app. fold (completed (Handle <$> lc)).
    fold (completed (Handle <$> lf)). by rewrite !Hnc. }
  unfold bind at 1.
  destruct (add_snap_retry env name fuel w i2) as [[[[ra wa] ia] ta]|]
    eqn:Ea; [|done].
  destruct (add_snap_retry_accounting _ _ _ _ _ _ _ _ Ea)
    as (_ & _ & Hn & Hc).
  assert (Hpre : ∀ tl,
    completed ((Handle <$> lc) ++ (Handle <$> lf) ++ ta ++ tl)
    = completed tl).
  { intros tl. unfold completed. rewrite !existsb_app.
    fold (completed (Handle <$> lc)). fold (completed (Handle <$> lf)).
    fold (completed ta). by rewrite !Hnc, Hn. }
  assert (Hrr : ∀ tl,
    release_refused ((Handle <$> lc) ++ (Handle <$> lf) ++ ta ++ tl)
    = release_refused ta ++ release_refused tl).
  { intros tl.
    by rewrite !release_refused_app, !release_refused_handle. }
  destruct Hc as [(Hr & -> & Ha & Hh)|(-> & sid & Ha & Hh)].
  - pose proof Hr as Hr'. apply Z.ltb_lt in Hr'. rewrite Hr'.
    cbn. intros [= <- <- <- <-].
    split; [done|]. split; [lia|]. split; [|lia]. intros _.
    rewrite Hpre, Hrr.
    rewrite !ids_held_app, !ids_held_handle, Hh.
    rewrite !ids_added_app, !ids_added_handle, Ha. cbn.
    by rewrite !app_nil_r.
  - change (0 <? 0) with false. cbn iota.
    destruct ctx; cbn; intros [= <- <- <- <-];
      (split; [done|]); (split; [lia|]); (split; [lia|]); intros _;
      rewrite Hpre, Hrr;
      rewrite !ids_held_app, !ids_held_handle, Hh;
      rewrite !ids_added_app, !ids_added_handle, Ha;
      (split; [done|]); exists sid; cbn; by rewrite !app_nil_r.
Qed.

End Lifecycle.

(** ** Flags and features *)

Lemma flags_set_events (flags mask : Z) (ids : list Z) (t : list event)
  (r : Z) (e : event) :
  flags_set flags mask ids t r → e ∈ t →
  ∃ s x, e = SetFlags s flags mask x ∧ s ∈ ids.
Proof.
  induction 1; intros Hin.
  - by apply elem_of_nil in Hin.
  - apply elem_of_cons in Hin as [->|Hin]; [|by apply elem_of_nil in Hin].
    eexists _, _. split; [done|]. apply elem_of_cons. by left.
  - apply elem_of_cons in Hin as [->|Hin].
    + eexists _, _. split; [done|]. apply elem_of_cons. by left.
    + destruct (IHflags_set Hin) as (s' & x & -> & Hs).
      eexists _, _. split; [done|]. apply elem_of_cons. by right.
Qed.

Lemma flags_set_result (flags mask : Z) (ids : list Z) (t : list event)
  (r : Z) :
  flags_set flags mask ids t r →
  r ≤ 0 ∧ (r = 0 → length t = length ids).
Proof.
  induction 1.
  - split; [lia|done].
  - split; [lia|]. intros ->. lia.
  - destruct IHflags_set as [Hle Hz]. split; [done|]. intros Hv.
    cbn. by rewrite (Hz Hv).
Qed.

Lemma maps_removed_events (ids : list Z) (t : list event) (v : option Z)
  (e : event) :
  maps_removed ids t v → e ∈ t →
  ∃ s x, e = RemoveObjectMapObject s x ∧ s ∈ ids.
Proof.
  induction 1; intros Hin.
  - by apply elem_of_nil in Hin.
  - apply elem_of_cons in Hin as [->|Hin]; [|by apply elem_of_nil in Hin].
    eexists _, _. split; [done|]. apply elem_of_cons. by left.
  - apply elem_of_cons in Hin as [->|Hin].
    + eexists _, _. split; [done|]. apply elem_of_cons. by left.
    + destruct (IHmaps_removed Hin) as (s' & x & -> & Hs).
      eexists _, _. split; [done|]. apply elem_of_cons. by right.
Qed.

Lemma snap_info_keys_spec (i : ImageCtx) :
  Sorted Z.le (snap_info_keys i) ∧
  ∀ k, k ∈ snap_info_keys i ↔ is_Some (snap_info i !! k).
Proof.
  unfold snap_info_keys. split.
  - apply (Sorted_merge_sort Z.le).
  - intros k. rewrite merge_sort_Permutation.
    rewrite list_elem_of_fmap. split.
    + intros ([k' x] & -> & Hin). apply elem_of_map_to_list in Hin.
      by exists x.
    + intros [x Hx]. exists (k, x). split; [done|].
      by apply elem_of_map_to_list.
Qed.

Lemma land_bit (x k : Z) :
  0 ≤ k → Z.land x (2 ^ k) ≠ 0 ↔ Z.testbit x k = true.
Proof.
  intros Hk. split.
  - intros Hne. destruct (Z.testbit x k) eqn:Hb; [done|].
    destruct Hne. apply Z.bits_inj'. intros n Hn.
    rewrite Z.land_spec, Z.pow2_bits_eqb, Z.bits_0 by lia.
    destruct (Z.eqb_spec k n) as [->|]; [by rewrite Hb|].
    by rewrite andb_false_r.
  - intros Hb Hz.
    assert (Z.testbit (Z.land x (2 ^ k)) k = true) as Ht.
    { rewrite Z.land_spec, Z.pow2_bits_eqb, Hb, Z.eqb_refl by lia. done. }
    rewrite Hz, Z.bits_0 in Ht. done.
Qed.

Lemma land_bit_eqb (x k : Z) :
  0 ≤ k → (Z.land x (2 ^ k) =? 0) = negb (Z.testbit x k).
Proof.
  intros Hk. destruct (Z.testbit x k) eqn:Hb; cbn.
  - apply Z.eqb_neq. by apply land_bit.
  - apply Z.eqb_eq. destruct (Z.eq_dec (Z.land x (2 ^ k)) 0) as [|Hne];
      [done|].
    apply land_bit in Hne; [congruence|done].
Qed.

Lemma dependencies_hold_bits (f : Z) :
  dependencies_hold f ↔
  (Z.testbit f 3 = true → Z.testbit f 2 = true) ∧
  (Z.testbit f 4 = true → Z.testbit f 3 = true).
Proof.
  unfold dependencies_hold.
  change RBD_FEATURE_OBJECT_MAP with (2 ^ 3).
  change RBD_FEATURE_EXCLUSIVE_LOCK with (2 ^ 2).
  change RBD_FEATURE_FAST_DIFF with (2 ^ 4).
  rewrite !land_bit by lia. done.
Qed.

Section Features.
Context {W : Type}.
Variable env : Env W.

Lemma set_flags_each_spec (ids : list Z) (flags mask : Z) (w : W)
  (i : ImageCtx) :
  wps (set_flags_each env ids flags mask)
    (λ r _ i' t, i' = i ∧ flags_set flags mask ids t r) w i.
Proof.
  revert w. induction ids as [|s rest IH]; intros w.
  - cbn. split; [done|]. constructor.
  - cbn [set_flags_each]. wps_steps.
    + split; [done|]. cbn. apply flags_set_failed. by apply Z.ltb_lt.
    + eapply wps_mono; [apply IH|]. cbn beta.
      intros r _ i' t [-> Hf]. split; [done|].
      apply flags_set_next; [by apply Z.ltb_ge|done].
Qed.

Lemma update_all_flags_spec (flags mask : Z) (w : W) (i : ImageCtx) :
  wps (update_all_flags env flags mask)
    (λ r _ i' t, i' = i ∧
       flags_set flags mask (CEPH_NOSNAP :: snap_info_keys i) t r) w i.
Proof.
  unfold update_all_flags. wps_steps.
  eapply wps_mono; [apply set_flags_each_spec|]. cbn beta.
  by intros r _ i' t [-> Hf].
Qed.

(** [update_all_flags] sets the flags of the head first and then of
    every snapshot of the table in ascending order of id, one call
    each; it stops at the first call that fails and returns its error,
    leaving the ids after it untouched; it returns 0 when every call
    went through, and never touches the handle. *)
Theorem update_all_flags_in_order (flags mask : Z) (w : W) (i : ImageCtx) :
  ∃ r w' t,
    update_all_flags env flags mask w i = Some (r, w', i, t) ∧
    flags_set flags mask (CEPH_NOSNAP :: snap_info_keys i) t r ∧
    Sorted Z.le (snap_info_keys i) ∧
    (∀ k, k ∈ snap_info_keys i ↔ is_Some (snap_info i !! k)) ∧
    r ≤ 0 ∧
    (r = 0 → length t = S (length (snap_info_keys i))).
Proof.
  destruct (wps_elim _ _ _ _ (update_all_flags_spec flags mask w i))
    as (r & w' & i' & t & Hrun & -> & Hf).
  exists r, w', t. split; [done|]. split; [done|].
  destruct (snap_info_keys_spec i) as [Hs Hk].
  split; [done|]. split; [done|].
  destruct (flags_set_result _ _ _ _ _ Hf) as [Hle Hz].
  split; [done|]. intros Hr. by rewrite (Hz Hr).
Qed.

Lemma remove_object_maps_spec (ids : list Z) (w : W) (i : ImageCtx) :
  wps (remove_object_maps env ids)
    (λ v _ i' t, i' = i ∧ maps_removed ids t v) w i.
Proof.
  revert w. induction ids as [|s rest IH]; intros w.
  - cbn. split; [done|]. constructor.
  - cbn [remove_object_maps]. wps_steps.
    + split; [done|]. cbn.
      apply andb_true_iff in Heqb as [H1 H2].
      apply Z.ltb_lt in H1. apply negb_true_iff, Z.eqb_neq in H2.
      by apply maps_removed_failed.
    + eapply wps_mono; [apply IH|]. cbn beta.
      intros v _ i' t [-> Hf]. split; [done|].
      apply maps_removed_next; [|done].
      apply andb_false_iff in Heqb as [H1|H2].
      * apply Z.ltb_ge in H1. by left.
      * apply negb_false_iff, Z.eqb_eq in H2. by right.
Qed.

Lemma remove_object_map_spec (w : W) (i : ImageCtx) :
  wps (remove_object_map env)
    (λ r _ i' t,
       i' = i ∧
       ∃ tl v, maps_removed (snap_info_keys i) tl v ∧
         match v with
         | Some e => r = e ∧ t = tl
         | None =>
           r = 0 ∧ ∃ x, t = tl ++ [RemoveObjectMapObject CEPH_NOSNAP x]
         end) w i.
Proof.
  unfold remove_object_map. wps_step. wps_step. cbn beta. wps_step.
  eapply wps_mono; [apply remove_object_maps_spec|]. cbn beta.
  intros v w1 i' tl [-> Hm]. destruct v as [e|]; wps_steps.
  - split; [done|]. exists tl, (Some e). split; [done|].
    cbn. by rewrite ?app_nil_r.
  - split; [done|]. exists tl, None. split; [done|]. split; [done|].
    eexists. cbn. reflexivity.
Qed.

(** [remove_object_map] removes the object map of every snapshot in
    ascending order of id, taking [-ENOENT] for done; the first other
    error ends it and is returned, with the head's object map left in
    place.  Once the snapshots are through it removes the head's
    object map and returns 0 whatever that removal answers. *)
Theorem remove_object_map_outcome (w : W) (i : ImageCtx) :
  ∃ r w' t tl v,
    remove_object_map env w i = Some (r, w', i, t) ∧
    maps_removed (snap_info_keys i) tl v ∧
    match v with
    | Some e => r = e ∧ e < 0 ∧ e ≠ - ENOENT ∧ t = tl
    | None => r = 0 ∧ ∃ x, t = tl ++ [RemoveObjectMapObject CEPH_NOSNAP x]
    end.
Proof.
  destruct (wps_elim _ _ _ _ (remove_object_map_spec w i))
    as (r & w' & i' & t & Hrun & -> & tl & v & Hm & Hv).
  exists r, w', t, tl, v. split; [done|]. split; [done|].
  destruct v as [e|]; [|done].
  destruct Hv as [-> ->]. split; [done|].
  assert (∀ ids t v, maps_removed ids t v →
            ∀ e, v = Some e → e < 0 ∧ e ≠ - ENOENT) as Hneg.
  { clear. induction 1; intros e' He; try discriminate; auto.
    by injection He as <-. }
  destruct (Hneg _ _ _ Hm e eq_refl). done.
Qed.

Lemma enable_features_spec (features new_features : Z) (w : W)
  (i : ImageCtx) :
  wps (enable_features env features new_features)
    (λ res _ i' t,
       i' = i ∧
       (∀ e, e ∈ t → ∃ s fl m x, e = SetFlags s fl m x) ∧
       (∀ mask, res = inr mask →
          (Z.testbit features 3 = true →
           Z.testbit new_features 2 = true) ∧
          (Z.testbit features 4 = true →
           Z.testbit new_features 3 = true))) w i.
Proof.
  unfold enable_features.
  change RBD_FEATURE_OBJECT_MAP with (2 ^ 3).
  change RBD_FEATURE_EXCLUSIVE_LOCK with (2 ^ 2).
  change RBD_FEATURE_FAST_DIFF with (2 ^ 4).
  rewrite !land_bit_eqb by lia. rewrite !negb_involutive.
  cbn zeta.
  wps_step.
  { split; [done|]. split; [|done]. intros e He. by apply elem_of_nil in He. }
  wps_step.
  { split; [done|]. split; [|done]. intros e He. by apply elem_of_nil in He. }
  assert (Hchecks :
    (Z.testbit features 3 = true → Z.testbit new_features 2 = true) ∧
    (Z.testbit features 4 = true → Z.testbit new_features 3 = true)).
  { split; intros Hb.
    - rewrite Hb in Heqb. cbn in Heqb. by apply negb_false_iff in Heqb.
    - rewrite Hb in Heqb0. cbn in Heqb0. by apply negb_false_iff in Heqb0. }
  wps_step.
  - wps_step. eapply wps_mono; [apply update_all_flags_spec|]. cbn beta.
    intros r w1 i1 t [-> Hf].
    wps_steps; (split; [done|]); (split; [|done]); intros e He;
      rewrite app_nil_r in He;
      destruct (flags_set_events _ _ _ _ _ _ Hf He) as (s & x & -> & _);
      by eexists _, _, _, _.
  - wps_step. split; [done|]. split; [|done].
    intros e He. by apply elem_of_nil in He.
Qed.

Lemma disable_features_spec (features new_features : Z) (w : W)
  (i : ImageCtx) :
  wps (disable_features env features new_features)
    (λ res _ i' t,
       i' = i ∧
       (∀ e, e ∈ t → ∃ s x, e = RemoveObjectMapObject s x) ∧
       (∀ plan, res = inr plan →
          (Z.testbit features 2 = true →
           Z.testbit new_features 3 = false) ∧
          (Z.testbit features 3 = true →
           Z.testbit new_features 4 = false))) w i.
Proof.
  unfold disable_features.
  change RBD_FEATURE_OBJECT_MAP with (2 ^ 3).
  change RBD_FEATURE_EXCLUSIVE_LOCK with (2 ^ 2).
  change RBD_FEATURE_FAST_DIFF with (2 ^ 4).
  rewrite !land_bit_eqb by lia. rewrite !negb_involutive.
  cbn zeta.
  wps_step.
  { split; [done|]. split; [|done]. intros e He. by apply elem_of_nil in He. }
  wps_step.
  { split; [done|]. split; [|done]. intros e He. by apply elem_of_nil in He. }
  assert (Hchecks :
    (Z.testbit features 2 = true → Z.testbit new_features 3 = false) ∧
    (Z.testbit features 3 = true → Z.testbit new_features 4 = false)).
  { split; intros Hb.
    - by rewrite Hb in Heqb.
    - by rewrite Hb in Heqb0. }
  wps_step. wps_step.
  - eapply wps_mono; [apply remove_object_map_spec|]. cbn beta.
    intros r w1 i1 t (-> & tl & v & Hm & Hv).
    assert (Hev : ∀ e, e ∈ t → ∃ s x, e = RemoveObjectMapObject s x).
    { intros e He. destruct v as [e'|].
      - destruct Hv as [_ ->].
        destruct (maps_removed_events _ _ _ _ Hm He) as (s & x & -> & _).
        by eexists _, _.
      - destruct Hv as (_ & x & ->).
        apply elem_of_app in He as [He|He].
        + destruct (maps_removed_events _ _ _ _ Hm He) as (s & x' & -> & _).
          by eexists _, _.
        + apply elem_of_cons in He as [->|He]; [by eexists _, _|].
          by apply elem_of_nil in He. }
    wps_steps; (split; [done|]); (split; [|done]); intros e He;
      rewrite app_nil_r in He; by apply Hev.
  - wps_steps; (split; [done|]); (split; [|done]); intros e He;
      by apply elem_of_nil in He.
Qed.

Lemma update_features_wps (features : Z) (enabled : bool) (fuel : nat)
  (w : W) (i i1 : ImageCtx) (rc : Z) (lc : list action) :
  ictx_check (cluster env w) false fuel i = Some (rc, i1, lc) →
  dependencies_hold (Image.features i1) →
  wps (update_features env features enabled fuel)
    (λ _ _ _ t,
       ∀ f m x, SetFeatures f m x ∈ t →
         dependencies_hold f ∧
         f = (if enabled then Z.lor (Image.features i1) features
              else Z.land (Image.features i1) (Z.lnot features)) ∧
         f ≠ Image.features i1 ∧
         Z.land features RBD_FEATURES_MUTABLE = features ∧
         features ≠ 0 ∧
         read_only i1 = false ∧ old_format i1 = false ∧ 0 ≤ rc) w i.
Proof.
  intros Hck Hdeps. unfold update_features.
  wps_step. eapply wps_on_handle; [exact Hck|]. cbn beta.
  wps_steps.
  1-6: intros f m x Hin; exfalso; split_in Hin;
       apply list_elem_of_fmap in Hin as (a & Ha & _); discriminate.
  - eapply wps_mono; [apply enable_features_spec|]. cbn beta.
    intros res w1 i0 t1 (-> & Hev & Hchk).
    assert (Hmain : ∀ f m x mask r,
      SetFeatures f m x
      = SetFeatures (Z.lor (Image.features i1) features) mask r →
      (∀ mask', res = inr mask' → True) →
      res = inr mask →
      dependencies_hold f ∧ f = Z.lor (Image.features i1) features ∧
      f ≠ Image.features i1 ∧
      Z.land features RBD_FEATURES_MUTABLE = features ∧ features ≠ 0 ∧
      false = false ∧ false = false ∧ 0 ≤ rc).
    { intros f m x mask r [= -> _ _] _ Hres.
      destruct (Hchk _ Hres) as [C1 C2].
      apply dependencies_hold_bits in Hdeps as [D1 D2].
      split.
      { apply dependencies_hold_bits.
        rewrite !Z.lor_spec in *.
        destruct (Z.testbit (Image.features i1) 2),
                 (Z.testbit (Image.features i1) 3),
                 (Z.testbit (Image.features i1) 4),
                 (Z.testbit features 2), (Z.testbit features 3),
                 (Z.testbit features 4); cbn in *; intuition congruence. }
      split; [done|].
      split; [apply not_eq_sym; by apply Z.eqb_neq|].
      split; [by apply negb_false_iff, Z.eqb_eq in Heqb2|].
      split; [by apply Z.eqb_neq|].
      split; [done|]. split; [done|]. by apply Z.ltb_ge. }
    wps_step. destruct res as [r|mask]; wps_steps.
    + intros f m x Hin; exfalso; split_in Hin.
      * apply list_elem_of_fmap in Hin as (a & Ha & _); discriminate.
      * destruct (Hev _ Hin) as (s & fl & m' & x' & Heq). discriminate.
    + match goal with
      | H : negb (0 =? 0) = true |- _ => cbn in H; discriminate H
      end.
    + intros f m x Hin. split_in Hin; try discriminate.
      * apply list_elem_of_fmap in Hin as (a & Ha & _); discriminate.
      * destruct (Hev _ Hin) as (s & fl & m' & x' & Heq). discriminate.
      * by eapply Hmain.
  - eapply wps_mono; [apply disable_features_spec|]. cbn beta.
    intros res w1 i0 t1 (-> & Hev & Hchk).
    assert (Hmain : ∀ f m x mask r plan,
      SetFeatures f m x
      = SetFeatures (Z.land (Image.features i1) (Z.lnot features)) mask r →
      res = inr plan →
      dependencies_hold f ∧
      f = Z.land (Image.features i1) (Z.lnot features) ∧
      f ≠ Image.features i1 ∧
      Z.land features RBD_FEATURES_MUTABLE = features ∧ features ≠ 0 ∧
      false = false ∧ false = false ∧ 0 ≤ rc).
    { intros f m x mask r plan [= -> _ _] Hres.
      destruct (Hchk _ Hres) as [C1 C2].
      apply dependencies_hold_bits in Hdeps as [D1 D2].
      split.
      { apply dependencies_hold_bits.
        rewrite !Z.land_spec, !Z.lnot_spec in * by lia.
        destruct (Z.testbit (Image.features i1) 2),
                 (Z.testbit (Image.features i1) 3),
                 (Z.testbit (Image.features i1) 4),
                 (Z.testbit features 2), (Z.testbit features 3),
                 (Z.testbit features 4); cbn in *; intuition congruence. }
      split; [done|].
      split; [apply not_eq_sym; by apply Z.eqb_neq|].
      split; [by apply negb_false_iff, Z.eqb_eq in Heqb2|].
      split; [by apply Z.eqb_neq|].
      split; [done|]. split; [done|]. by apply Z.ltb_ge. }
    destruct res as [r|[mask df]]; wps_steps.
    + intros f m x Hin; exfalso; split_in Hin.
      * apply list_elem_of_fmap in Hin as (a & Ha & _); discriminate.
      * destruct (Hev _ Hin) as (s & x' & Heq). discriminate.
    + eapply wps_mono; [apply update_all_flags_spec|]. cbn beta.
      intros r w2 i2 t2 [-> Hf].
      wps_steps; intros f m x Hin; split_in Hin; try discriminate;
        try (apply list_elem_of_fmap in Hin as (a & Ha & _); discriminate);
        try (destruct (Hev _ Hin) as (s & x' & Heq); discriminate);
        try (destruct (flags_set_events _ _ _ _ _ _ Hf Hin)
               as (s & x' & Heq & _); discriminate);
        by eapply Hmain.
    + intros f m x Hin. split_in Hin; try discriminate.
      * apply list_elem_of_fmap in Hin as (a & Ha & _); discriminate.
      * destruct (Hev _ Hin) as (s & x' & Heq). discriminate.
      * by eapply Hmain.
Qed.

(** On a handle whose features respect the dependencies (the object
    map needs the exclusive lock, fast diff the object map),
    [update_features] asks the header for a new feature set only if
    that set respects them too; and only on a writable image of the
    new format, for a non-empty set of mutable features, and for a set
    that differs from the current one. *)
Theorem update_features_keeps_dependencies (features : Z) (enabled : bool)
  (fuel : nat) (w : W) (i i1 : ImageCtx) (rc : Z) (lc : list action) :
  ictx_check (cluster env w) false fuel i = Some (rc, i1, lc) →
  dependencies_hold (Image.features i1) →
  ∃ r w' i' t,
    update_features env features enabled fuel w i = Some (r, w', i', t) ∧
    ∀ f m x, SetFeatures f m x ∈ t →
      dependencies_hold f ∧
      f = (if enabled then Z.lor (Image.features i1) features
           else Z.land (Image.features i1) (Z.lnot features)) ∧
      f ≠ Image.features i1 ∧
      Z.land features RBD_FEATURES_MUTABLE = features ∧
      features ≠ 0 ∧
      read_only i1 = false ∧ old_format i1 = false ∧ 0 ≤ rc.
Proof.
  intros Hck Hdeps.
  apply (wps_elim _ _ _ _
           (update_features_wps features enabled fuel w i i1 rc lc Hck
              Hdeps)).
Qed.


(** What [set_features] answers is not looked at: enabling the
    exclusive lock on a writable image of the new format that does not
    have it yet notifies and returns 0, whether the header took the new
    feature set or refused it. *)
Theorem update_features_ignores_set_features_result (fuel : nat) (w : W)
  (i i1 : ImageCtx) (rc : Z) (lc : list action) :
  ictx_check (cluster env w) false fuel i = Some (rc, i1, lc) →
  0 ≤ rc →
  read_only i1 = false →
  old_format i1 = false →
  Z.land (Image.features i1) RBD_FEATURE_EXCLUSIVE_LOCK = 0 →
  let new_features :=
    Z.lor (Image.features i1) RBD_FEATURE_EXCLUSIVE_LOCK in
  let upd :=
    set_features env new_features RBD_FEATURE_EXCLUSIVE_LOCK w in
  update_features env RBD_FEATURE_EXCLUSIVE_LOCK true fuel w i
  = Some (0, upd.2, set_refresh_seq (refresh_seq i1 + 1) i1,
          (Handle <$> lc) ++
          [SetFeatures new_features RBD_FEATURE_EXCLUSIVE_LOCK upd.1;
           Handle NotifyChange]).
Proof.
  intros Hck Hrc Hro Hold Hoff new_features upd.
  assert (Hne : (Image.features i1 =? new_features) = false).
  { apply Z.eqb_neq. intros Heq.
    assert (Z.testbit new_features 2 = true) as Hb.
    { unfold new_features. rewrite Z.lor_spec.
      change RBD_FEATURE_EXCLUSIVE_LOCK with (2 ^ 2).
      rewrite Z.pow2_bits_eqb by lia. by rewrite orb_true_r. }
    rewrite <- Heq in Hb.
    assert (Z.land (Image.features i1) (2 ^ 2) ≠ 0) as Hc
      by (by apply land_bit).
    by apply Hc. }
  unfold update_features.
  unfold bind at 1. unfold on_handle at 1. rewrite Hck.
  apply Z.ltb_ge in Hrc. rewrite Hrc.
  unfold bind at 1. unfold get at 1. rewrite Hro.
  unfold bind at 1. unfold get at 1. rewrite Hold.
  change (negb (Z.land RBD_FEATURE_EXCLUSIVE_LOCK RBD_FEATURES_MUTABLE
                =? RBD_FEATURE_EXCLUSIVE_LOCK)) with false. cbn iota.
  change (RBD_FEATURE_EXCLUSIVE_LOCK =? 0) with false. cbn iota.
  unfold bind at 1. unfold get at 1.
  fold new_features. rewrite Hne.
  unfold bind at 1.
  assert (bind
            (enable_features env RBD_FEATURE_EXCLUSIVE_LOCK new_features)
            (λ m, ret match m with
                      | inl r => inl r
                      | inr mask => inr (mask, 0)
                      end) w i1
          = Some (inr (RBD_FEATURE_EXCLUSIVE_LOCK, 0), w, i1, [])) as ->
    by reflexivity.
  unfold bind at 1. unfold call at 1. fold upd.
  destruct upd as [x w1]. cbn. by rewrite ?app_nil_r.
Qed.

End Features.

(** ** The operations on the example store *)

Lemma snap_unprotect_two_phase_witness :
  ∃ r w' i' t,
    snap_unprotect demo_env "s5" 3 demo_store (store_child demo_store)
    = Some (r, w', i', t) ∧
    if 0 <? 0 then
      r = 0 ∧
      w' = (set_protection_status demo_env 5
              RBD_PROTECTION_STATUS_UNPROTECTING demo_store).2 ∧
      i' = store_child demo_store ∧
      t = (Handle <$> []) ++
          [SetProtectionStatus 5 RBD_PROTECTION_STATUS_UNPROTECTING 0]
    else
      ∃ scan verdict tail,
        t = (Handle <$> []) ++
            [SetProtectionStatus 5 RBD_PROTECTION_STATUS_UNPROTECTING 0;
             Handle NotifyChange; WaitForLatestOsdmap;
             PoolList2
               (pool_list2 demo_env
                  (set_protection_status demo_env 5
                     RBD_PROTECTION_STATUS_UNPROTECTING demo_store).2).1.1]
            ++ scan ++ tail ∧
        scanned
          (pool_list2 demo_env
             (set_protection_status demo_env 5
                RBD_PROTECTION_STATUS_UNPROTECTING demo_store).2).1.2
          scan verdict ∧
        closing 5 verdict tail r.
Proof.
  apply (snap_unprotect_two_phase demo_env "s5" 3 demo_store
           (set_protection_status demo_env 5
              RBD_PROTECTION_STATUS_UNPROTECTING demo_store).2
           (store_child demo_store) (store_child demo_store) 0 0 [] 5
           demo_s5).
  - reflexivity.
  - vm_compute. reflexivity.
  - lia.
  - vm_compute. discriminate.
  - vm_compute. reflexivity.
  - vm_compute. discriminate.
  - vm_compute. reflexivity.
  - vm_compute. discriminate.
  - reflexivity.
Defined.

Lemma snap_unprotect_busy_iff_child_found_witness :
  ∃ r w' i' t,
    snap_unprotect demo_env "s5" 3 demo_store (store_child demo_store)
    = Some (r, w', i', t) ∧
    r ≤ 0 ∧
    ((∃ p, GetChildren p 0 ∈ t) →
     r = - EBUSY ∧
     ∃ pre proterr,
       t = pre ++ [SetProtectionStatus 5 RBD_PROTECTION_STATUS_PROTECTED
                     proterr; Handle NotifyChange]) ∧
    (r = 0 →
     (∀ p, GetChildren p 0 ∉ t) ∧
     ∃ pre r1,
       0 ≤ r1 ∧
       t = pre ++ [SetProtectionStatus 5 RBD_PROTECTION_STATUS_UNPROTECTED
                     r1; Handle NotifyChange]) ∧
    (∀ p x, GetChildren p x ∈ t →
            p ∈ (pool_list2 demo_env
                   (set_protection_status demo_env 5
                      RBD_PROTECTION_STATUS_UNPROTECTING
                      demo_store).2).1.2.*1).
Proof.
  apply (snap_unprotect_busy_iff_child_found demo_env "s5" 3 demo_store
           (set_protection_status demo_env 5
              RBD_PROTECTION_STATUS_UNPROTECTING demo_store).2
           (store_child demo_store) (store_child demo_store) 0 0 [] 5
           demo_s5).
  - reflexivity.
  - vm_compute. reflexivity.
  - lia.
  - vm_compute. discriminate.
  - vm_compute. reflexivity.
  - vm_compute. discriminate.
  - vm_compute. reflexivity.
  - vm_compute. discriminate.
  - reflexivity.
  - lia.
Defined.

Lemma snap_unprotect_guards_witness :
  (read_only (store_child demo_store) = true →
   snap_unprotect demo_env "s9" 3 demo_store (store_child demo_store)
   = Some (- EROFS, demo_store, store_child demo_store, [])) ∧
  (read_only (store_child demo_store) = false →
   (0 < 0 →
    snap_unprotect demo_env "s9" 3 demo_store (store_child demo_store)
    = Some (0, demo_store, store_child demo_store, Handle <$> [])) ∧
   (0 ≤ 0 →
    (Z.land (features (store_child demo_store)) RBD_FEATURE_LAYERING = 0 →
     snap_unprotect demo_env "s9" 3 demo_store (store_child demo_store)
     = Some (- ENOSYS, demo_store, store_child demo_store, Handle <$> [])) ∧
    (Z.land (features (store_child demo_store)) RBD_FEATURE_LAYERING ≠ 0 →
     (snap_ids (store_child demo_store) !! "s9" = None →
      snap_unprotect demo_env "s9" 3 demo_store (store_child demo_store)
      = Some (- ENOENT, demo_store, store_child demo_store,
              Handle <$> [])) ∧
     (∀ sid info,
        snap_ids (store_child demo_store) !! "s9" = Some sid →
        sid ≠ CEPH_NOSNAP →
        snap_info (store_child demo_store) !! sid = Some info →
        si_protection_status info = RBD_PROTECTION_STATUS_UNPROTECTED →
        snap_unprotect demo_env "s9" 3 demo_store (store_child demo_store)
        = Some (- EINVAL, demo_store, store_child demo_store,
                Handle <$> []))))).
Proof.
  apply (snap_unprotect_guards demo_env "s9" 3 demo_store
           (store_child demo_store) (store_child demo_store) 0 []).
  vm_compute. reflexivity.
Defined.

(** On the example store: "grandchild" is a clone of "s5", so the
    unprotection is refused and the status written back; without the
    clone it goes through, although pool 3 could not be asked. *)
Example snap_unprotect_on_store :
  (λ y, (y.1.1.1, status_of 5 y.1.1.2))
    <$> snap_unprotect demo_env "s5" 3 demo_store (store_child demo_store)
  = Some (- EBUSY, Some RBD_PROTECTION_STATUS_PROTECTED) ∧
  (λ y, (y.1.1.1, status_of 5 y.1.1.2))
    <$> snap_unprotect demo_env "s5" 3 demo_store_no_clone
          (store_child demo_store_no_clone)
  = Some (0, Some RBD_PROTECTION_STATUS_UNPROTECTED) ∧
  (λ y, (y.1.1.1, status_of 5 y.1.1.2))
    <$> snap_unprotect
          (store_env demo_pools demo_base_tier
             (λ st, if st =? RBD_PROTECTION_STATUS_PROTECTED
                    then - EIO else 0))
          "s5" 3 demo_store (store_child demo_store)
  = Some (- EBUSY, Some RBD_PROTECTION_STATUS_UNPROTECTING).
Proof. vm_compute. done. Qed.

Lemma snap_remove_helper_protocol_witness :
  ∃ r w' i' steps,
    snap_remove_helper demo_env true "s5" 3 demo_store
      (store_child demo_store)
    = Some (r, w', i', (Handle <$> []) ++ steps) ∧
    removed (store_child demo_store) "s5" 5 (spec (si_parent demo_s5)) true
      steps r i'.
Proof.
  apply (snap_remove_helper_protocol demo_env true "s5" 3 demo_store
           (store_child demo_store) (store_child demo_store) 0 [] 5
           demo_s5).
  - intros H. vm_compute in H. by destruct H.
  - vm_compute. reflexivity.
  - lia.
  - vm_compute. reflexivity.
  - vm_compute. discriminate.
  - vm_compute. reflexivity.
Defined.

Lemma snap_remove_helper_error_leaves_witness :
  ∃ r w' i' steps,
    snap_remove_helper demo_env true "s5" 3 demo_store
      (store_child demo_store)
    = Some (r, w', i', (Handle <$> []) ++ steps) ∧
    r ≤ 0 ∧
    (∃ ro rest, steps = ObjectMapSnapshotRemove 5 ro :: rest) ∧
    (r < 0 →
     (i' = store_child demo_store ∧
      ∀ e, e ∈ steps → deletes_snapshot e = false) ∨
     (∃ pre hr,
        0 ≤ hr ∧
        steps = pre ++ [header_deletion
                          (old_format (store_child demo_store)) 5 "s5" hr;
                        SelfmanagedSnapRemove 5 r])) ∧
    (r = 0 →
     ∃ pre hr x,
       0 ≤ hr ∧ 0 ≤ x ∧
       i' = local_after (store_child demo_store) "s5" 5 hr ∧
       steps = pre ++ [header_deletion
                         (old_format (store_child demo_store)) 5 "s5" hr;
                       SelfmanagedSnapRemove 5 x] ++
               (if true then [Complete 0] else [])).
Proof.
  apply (snap_remove_helper_error_leaves demo_env true "s5" 3 demo_store
           (store_child demo_store) (store_child demo_store) 0 [] 5
           demo_s5).
  - intros H. vm_compute in H. by destruct H.
  - vm_compute. reflexivity.
  - lia.
  - vm_compute. reflexivity.
  - vm_compute. discriminate.
  - vm_compute. reflexivity.
Defined.

(** On the example store the header refuses to delete the protected
    "s5": the call fails with [-EBUSY] and the record stays, but the
    object map of "s5" is gone and "child" is no longer registered as
    a child of "base". *)
Example snap_remove_helper_on_store :
  (λ y, (y.1.1.1, status_of 5 y.1.1.2, object_maps y.1.1.2,
         children y.1.1.2, rados_snaps y.1.1.2, y.2))
    <$> snap_remove_helper demo_env false "s5" 3 demo_store
          (store_child demo_store)
  = Some (- EBUSY, Some RBD_PROTECTION_STATUS_PROTECTED, [],
          [(4, ParentSpec 1 "child" 5, "grandchild")], [5],
          [ObjectMapSnapshotRemove 5 0;
           RemoveChild (ParentSpec 2 "base" 7) "child" 0;
           SnapshotRemove 5 (- EBUSY)]).
Proof. vm_compute. reflexivity. Qed.

Lemma snap_protect_outcome_witness :
  let upd :=
    set_protection_status demo_env 5 RBD_PROTECTION_STATUS_PROTECTED
      demo_store in
  snap_protect demo_env "s5" 3 demo_store (store_child demo_store)
  = if si_protection_status demo_s5 =? RBD_PROTECTION_STATUS_PROTECTED
    then Some (- EBUSY, demo_store, store_child demo_store, Handle <$> [])
    else if upd.1 <? 0
    then Some (upd.1, upd.2, store_child demo_store,
               (Handle <$> []) ++
               [SetProtectionStatus 5 RBD_PROTECTION_STATUS_PROTECTED
                  upd.1])
    else Some (0, upd.2,
               set_refresh_seq (refresh_seq (store_child demo_store) + 1)
                 (store_child demo_store),
               (Handle <$> []) ++
               [SetProtectionStatus 5 RBD_PROTECTION_STATUS_PROTECTED
                  upd.1; Handle NotifyChange]).
Proof.
  apply (snap_protect_outcome demo_env "s5" 3 demo_store
           (store_child demo_store) (store_child demo_store) 0 [] 5
           demo_s5).
  - reflexivity.
  - vm_compute. reflexivity.
  - lia.
  - vm_compute. discriminate.
  - vm_compute. reflexivity.
  - vm_compute. discriminate.
  - vm_compute. reflexivity.
Defined.

Lemma add_snap_retry_release_accounting_witness :
  let t := [SelfmanagedSnapCreate 0 6; SnapshotAdd 6 "s5" (- EEXIST);
            SelfmanagedSnapRemove 6 (- EIO)] in
  image_watcher (store_child_watched demo_store) = true ∧
  - EEXIST ≠ - ESTALE ∧ - EEXIST ≤ 0 ∧
  (- EEXIST < 0 →
   store_child_watched demo_store = store_child_watched demo_store ∧
   ids_added t = [] ∧
   ∀ held, ids_held held t = rev (release_refused t) ++ held) ∧
  (- EEXIST = 0 →
   ∃ sid, ids_added t = [sid] ∧
          ∀ held, ids_held held t = sid :: rev (release_refused t) ++ held).
Proof.
  eapply (add_snap_retry_release_accounting (refusing_release (- EIO)) "s5"
            3 demo_store _ (store_child_watched demo_store)
            (store_child_watched demo_store) (- EEXIST)).
  vm_compute. reflexivity.
Defined.

(** On that run the release of id 6 is refused with [-EIO], which
    [add_snap] does not look at: the loop returns [-EEXIST] and the
    data pool keeps snapshot 6, which no header mentions. *)
Example add_snap_leaks_refused_release :
  match add_snap_retry (refusing_release (- EIO)) "s5" 3 demo_store
          (store_child_watched demo_store) with
  | Some (r, s, _, t) =>
    r = - EEXIST ∧ rados_snaps s = [6; 5] ∧ hs_id <$> header_snaps s = [5] ∧
    ids_held [] t = [6] ∧ release_refused t = [6]
  | None => False
  end.
Proof. vm_compute. done. Qed.

(** Without its watcher the handle stops the program at the first
    question to the watcher. *)
Example snap_create_helper_needs_watcher :
  snap_create_helper demo_env true "s6" 3 demo_store (store_child demo_store)
  = None.
Proof. reflexivity. Qed.

Lemma snap_create_helper_id_accounting_witness :
  let t := [Handle Flush; SelfmanagedSnapCreate 0 6;
            SnapshotAdd 6 "s6" 0; ObjectMapSnapshotAdd 6; Complete 0] in
  image_watcher (store_child_watched demo_store) = true ∧
  0 ≤ 0 ∧
  (0 < 0 →
   ids_held [] t = rev (release_refused t) ∧ ids_added t = [] ∧
   completed t = false) ∧
  (0 = 0 →
   completed t = true ∧
   ∃ sid, ids_held [] t = sid :: rev (release_refused t) ∧
          ids_added t = [sid]).
Proof.
  eapply (snap_create_helper_id_accounting demo_env true "s6" 3 demo_store
            _ (store_child_watched demo_store) _ 0).
  vm_compute. reflexivity.
Defined.

Lemma update_features_keeps_dependencies_witness :
  ∃ r w' i' t,
    update_features demo_env RBD_FEATURE_EXCLUSIVE_LOCK true 3 demo_store
      (store_child demo_store) = Some (r, w', i', t) ∧
    ∀ f m x, SetFeatures f m x ∈ t →
      dependencies_hold f ∧
      f = (if true
           then Z.lor (Image.features (store_child demo_store))
                  RBD_FEATURE_EXCLUSIVE_LOCK
           else Z.land (Image.features (store_child demo_store))
                  (Z.lnot RBD_FEATURE_EXCLUSIVE_LOCK)) ∧
      f ≠ Image.features (store_child demo_store) ∧
      Z.land RBD_FEATURE_EXCLUSIVE_LOCK RBD_FEATURES_MUTABLE
      = RBD_FEATURE_EXCLUSIVE_LOCK ∧
      RBD_FEATURE_EXCLUSIVE_LOCK ≠ 0 ∧
      read_only (store_child demo_store) = false ∧
      old_format (store_child demo_store) = false ∧ 0 ≤ 0.
Proof.
  apply (update_features_keeps_dependencies demo_env
           RBD_FEATURE_EXCLUSIVE_LOCK true 3 demo_store
           (store_child demo_store) (store_child demo_store) 0 []).
  - vm_compute. reflexivity.
  - split; intros H; vm_compute in H; by destruct H.
Defined.

Lemma update_features_ignores_set_features_result_witness :
  let new_features :=
    Z.lor (Image.features (store_child demo_store))
      RBD_FEATURE_EXCLUSIVE_LOCK in
  let upd :=
    set_features (refusing_features (- EIO)) new_features
      RBD_FEATURE_EXCLUSIVE_LOCK demo_store in
  update_features (refusing_features (- EIO)) RBD_FEATURE_EXCLUSIVE_LOCK
    true 3 demo_store (store_child demo_store)
  = Some (0, upd.2,
          set_refresh_seq (refresh_seq (store_child demo_store) + 1)
            (store_child demo_store),
          (Handle <$> []) ++
          [SetFeatures new_features RBD_FEATURE_EXCLUSIVE_LOCK upd.1;
           Handle NotifyChange]).
Proof.
  apply (update_features_ignores_set_features_result
           (refusing_features (- EIO)) 3 demo_store
           (store_child demo_store) (store_child demo_store) 0 []).
  - vm_compute. reflexivity.
  - lia.
  - reflexivity.
  - reflexivity.
  - reflexivity.
Defined.

(** With a header that refuses the new feature set with [-EIO] the
    call still returns 0. *)
Example update_features_refused_returns_zero :
  (λ y, (y.1.1.1, y.2))
    <$> update_features (refusing_features (- EIO))
          RBD_FEATURE_EXCLUSIVE_LOCK true 3 demo_store
          (store_child demo_store)
  = Some (0, [SetFeatures 5 4 (- EIO); Handle NotifyChange]).
Proof. vm_compute. reflexivity. Qed.

(** Enabling the object map on an image without the exclusive lock is
    refused before anything is written. *)
Example update_features_object_map_needs_lock :
  (λ y, (y.1.1.1, y.2))
    <$> update_features demo_env RBD_FEATURE_OBJECT_MAP true 3 demo_store
          (store_child demo_store)
  = Some (- EINVAL, []).
Proof. vm_compute. reflexivity. Qed.

End SnapshotsProofs.
Module CreationProofs.
Import Image Creation.

Section Wpc.
Context {W A B : Type}.

Lemma wpc_bind (m : @M W A) (k : A → @M W B) (Q : B → W → list event → Prop)
  (w : W) :
  wpc m (λ a w1 t1, wpc (k a) (λ b w2 t2, Q b w2 (t1 ++ t2)) w1) w →
  wpc (bind m k) Q w.
Proof.
  unfold wpc, bind. destruct (m w) as [[a w1] t1].
  by destruct (k a w1) as [[b w2] t2].
Qed.

Lemma wpc_ret (a : A) (Q : A → W → list event → Prop) (w : W) :
  Q a w [] → wpc (ret a) Q w.
Proof. done. Qed.

Lemma wpc_call (f : W → A * W) (e : A → list event)
  (Q : A → W → list event → Prop) (w : W) :
  Q (f w).1 (f w).2 (e (f w).1) → wpc (call f e) Q w.
Proof. unfold wpc, call. by destruct (f w). Qed.

Lemma wpc_mono (m : @M W A) (Q1 Q2 : A → W → list event → Prop) (w : W) :
  wpc m Q1 w → (∀ a w' t, Q1 a w' t → Q2 a w' t) → wpc m Q2 w.
Proof. unfold wpc. destruct (m w) as [[a w'] t]. auto. Qed.

End Wpc.

Ltac wpc_step :=
  lazymatch goal with
  | |- wpc (bind _ _) _ _ => apply wpc_bind
  | |- wpc (ret _) _ _ => apply wpc_ret
  | |- wpc (call _ _) _ _ => apply wpc_call
  | |- wpc (tmap_set _ _) _ _ => unfold tmap_set
  | |- wpc (tmap_rm _ _) _ _ => unfold tmap_rm
  | |- wpc (err_remove_id _ _ _) _ _ => unfold err_remove_id
  | |- wpc (err_remove_from_dir _ _ _ _) _ _ => unfold err_remove_from_dir
  | |- wpc (err_remove_header _ _ _ _) _ _ => unfold err_remove_header
  | |- wpc (if ?b then _ else _) _ _ => destruct b eqn:?
  | |- wpc (let '(_, _) := ?x in _) _ _ => destruct x eqn:?
  end.

Ltac wpc_steps := repeat (wpc_step; cbn beta).

(** Case analysis on the membership of an event in a trace. *)
Ltac split_in Hin :=
  repeat match type of Hin with
  | _ ∈ _ ++ _ => apply elem_of_app in Hin as [Hin|Hin]
  | _ ∈ _ :: _ => apply elem_of_cons in Hin as [Hin|Hin]
  | _ ∈ [] => apply elem_of_nil in Hin; destruct Hin
  end.

Lemma nonneg_leb (r : Z) : (0 <=? r) = negb (r <? 0).
Proof. destruct (r <? 0) eqn:E; cbn; lia. Qed.

(** Turn the tests on results that a run has passed into facts that
    [cbn] and [lia] can use. *)
Ltac results :=
  repeat match goal with
  | H : (_ <? _) = true |- _ => apply Z.ltb_lt in H
  | H : (_ <? _) = false |- _ => apply Z.ltb_ge in H
  | H : (_ =? _) = true |- _ => apply Z.eqb_eq in H
  | H : (_ =? _) = false |- _ => apply Z.eqb_neq in H
  end.

Section Generic.
Context {W : Type}.
Variable env : Env W.

(** ** [create_v1] *)

(** [create_v1] leaves either nothing or the whole image: when the
    header cannot be written the directory entry is taken out again
    and the error of the write is returned, whatever the removal
    answers; the value returned is negative or 0, and 0 exactly when
    both the directory entry and the header are there. *)
Theorem create_v1_all_or_nothing (imgname : string) (bid size order : Z)
  (w : W) :
  wpc (create_v1 env imgname bid size order)
    (λ r _ t,
       r ≤ 0 ∧
       (r < 0 → left_behind t = nothing ∧ all_created t = false) ∧
       (r = 0 → left_behind t = mkResidue true false true false ∧
                all_created t = true) ∧
       (∀ n s o b x, WriteOldHeader n s o b x ∈ t → x < 0 → r = x)) w.
Proof.
  unfold create_v1. wpc_steps; unfold left_behind, all_created; cbn;
    rewrite ?nonneg_leb, ?Heqb, ?Heqb0; cbn; results;
    (split; [lia|]); (split; [intros; by try lia|]);
    (split; [intros; by try lia|]);
    intros n s o b x Hin Hx; split_in Hin; try discriminate;
    injection Hin as -> -> -> -> ->; lia.
Qed.

(** ** [create_v2] *)

(** What [create_v2] leaves: nothing, or the whole image. *)
Lemma create_v2_cleanup (imgname : string)
  (bid size order features stripe_unit stripe_count : Z) (w : W) :
  wpc (create_v2 env imgname bid size order features stripe_unit
         stripe_count)
    (λ r _ t,
       (r < 0 → left_behind t = nothing ∧ all_created t = false) ∧
       (left_behind t = nothing ∨
        r = 0 ∧ all_created t = true ∧
        left_behind t
        = mkResidue true true true
            (negb (Z.land features RBD_FEATURE_OBJECT_MAP =? 0)))) w.
Proof.
  unfold create_v2. wpc_steps.
  all: unfold left_behind, all_created; cbn.
  all: rewrite ?nonneg_leb.
  all: repeat match goal with
       | H : (_ <? 0) = _ |- _ => rewrite ?H; revert H
       end; intros; cbn.
  all: results.
  all: split; [intros; first [lia | by split] |]; auto.
Qed.

(** The step of [create_v2] that fails is the last one that creates
    something, and its result is what is returned. *)
Lemma create_v2_returns_failure (imgname : string)
  (bid size order features stripe_unit stripe_count : Z) (w : W) :
  wpc (create_v2 env imgname bid size order features stripe_unit
         stripe_count)
    (λ r _ t,
       ∀ e x, e ∈ t → creates e = Some x → x < 0 → r = x) w.
Proof.
  unfold create_v2. wpc_steps.
  all: results.
  all: intros e x Hin He Hx; cbn in Hin; split_in Hin; subst e;
       cbn in He; try discriminate; injection He as <-; lia.
Qed.

Lemma step_here (e : event) (l : list event) (r : Z) :
  creates e = Some r → ∃ e', e' ∈ e :: l ∧ creates e' = Some r.
Proof. intros He. exists e. split; [apply elem_of_cons; by left | done]. Qed.

Lemma step_further (e : event) (l : list event) (r : Z) :
  (∃ e', e' ∈ l ∧ creates e' = Some r) →
  ∃ e', e' ∈ e :: l ∧ creates e' = Some r.
Proof.
  intros (e' & Hin & He). exists e'.
  split; [apply elem_of_cons; by right | done].
Qed.

(** A negative value returned by [create_v2] is the result of one of
    its creating steps. *)
Lemma create_v2_result_is_a_step (imgname : string)
  (bid size order features stripe_unit stripe_count : Z) (w : W) :
  wpc (create_v2 env imgname bid size order features stripe_unit
         stripe_count)
    (λ r _ t, r < 0 → ∃ e, e ∈ t ∧ creates e = Some r) w.
Proof.
  unfold create_v2. wpc_steps.
  all: results.
  all: intros Hr; try lia.
  all: cbn [app];
       repeat first [ by apply step_here | apply step_further ].
Qed.

(** [create_v2] leaves either nothing or the whole image.  After a
    step that fails every object created before has had its removal
    attempted, in reverse order of creation, and the error of the
    failed step is returned whatever the removals answer; the whole
    image, with the object map if that feature is asked for, is left
    only if 0 is returned and every step went through. *)
Theorem create_v2_all_or_nothing (imgname : string)
  (bid size order features stripe_unit stripe_count : Z) (w : W) :
  wpc (create_v2 env imgname bid size order features stripe_unit
         stripe_count)
    (λ r _ t,
       (r < 0 → left_behind t = nothing ∧ all_created t = false) ∧
       (left_behind t = nothing ∨
        r = 0 ∧ all_created t = true ∧
        left_behind t
        = mkResidue true true true
            (negb (Z.land features RBD_FEATURE_OBJECT_MAP =? 0))) ∧
       (∀ e x, e ∈ t → creates e = Some x → x < 0 → r = x) ∧
       (r < 0 → ∃ e, e ∈ t ∧ creates e = Some r)) w.
Proof.
  pose proof (create_v2_cleanup imgname bid size order features stripe_unit
                stripe_count w) as H1.
  pose proof (create_v2_returns_failure imgname bid size order features
                stripe_unit stripe_count w) as H2.
  pose proof (create_v2_result_is_a_step imgname bid size order features
                stripe_unit stripe_count w) as H3.
  unfold wpc in *.
  destruct (create_v2 env imgname bid size order features stripe_unit
              stripe_count w) as [[r w'] t].
  destruct H1 as [Ha Hb]. done.
Qed.

(** Fast diff asked for without the object map: [create_v2] finds out
    only after the header is written, removes the header, the
    directory entry and the id object again, and returns the value of
    the last step that went through, which is not negative.  So the
    call never leaves the image, and when every step that creates
    something succeeds it still does not report an error. *)
Theorem create_v2_fast_diff_needs_object_map (imgname : string)
  (bid size order features stripe_unit stripe_count : Z) (w : W) :
  Z.land features RBD_FEATURE_FAST_DIFF ≠ 0 →
  Z.land features RBD_FEATURE_OBJECT_MAP = 0 →
  wpc (create_v2 env imgname bid size order features stripe_unit
         stripe_count)
    (λ r _ t,
       left_behind t = nothing ∧
       (all_created t = true →
        0 ≤ r ∧
        ∃ pre id x y z,
          t = pre ++ [RemoveHeader id x; DirRemoveImage imgname id y;
                      RemoveIdObject imgname z])) w.
Proof.
  intros Hfd Hom. apply Z.eqb_neq in Hfd. apply Z.eqb_eq in Hom.
  unfold create_v2. rewrite Hfd, Hom. cbn [negb andb].
  wpc_steps.
  all: unfold left_behind, all_created; cbn.
  all: rewrite ?nonneg_leb.
  all: repeat match goal with
       | H : (_ <? 0) = _ |- _ => rewrite ?H; revert H
       end; intros; cbn.
  all: results.
  all: split; [done|]; intros Hall; try discriminate.
  all: split; [lia|].
  all: first [ by eexists [_; _; _; _; _], _, _, _, _
             | by eexists [_; _; _; _], _, _, _, _ ].
Qed.



(** ** [create] *)

Lemma dispatched_elem (t : list event) :
  dispatched t ≠ [] →
  ∃ e, e ∈ t ∧
    match e with
    | TmapSet _ _ | CreateIdObject _ _ => True
    | _ => False
    end.
Proof.
  induction t as [|e t IH]; [done|]. cbn.
  destruct e; try (intros [e' [Hin He]]%IH; exists e'; split;
                   [by apply elem_of_cons; right | done]);
    intros _; eexists; (split; [apply elem_of_cons; by left | done]).
Qed.

(** A run of [create] that has only asked whether the image exists,
    and for the instance id, has started nothing. *)
Ltac quiet Hstat :=
  cbn;
  (split; [intros [? [? ?]]%dispatched_elem|
   split; [intros ? ? ? ? ? ?|
   split; [intros ? ? ? ? ? ?|intros ? ? ? ? ?]]]);
  match goal with
  | H : _ ∈ _ |- _ =>
    split_in H; try (apply Hstat in H); subst;
    repeat match goal with x : event |- _ => destruct x end; done
  end.

Lemma create_v1_events (imgname : string) (bid size order : Z) (w : W) :
  wpc (create_v1 env imgname bid size order)
    (λ _ _ t,
       ∃ x tl, t = TmapSet imgname x :: tl ∧
       ∀ e, e ∈ t →
         match e with
         | WriteOldHeader _ s o _ _ => s = size ∧ o = order
         | TmapSet _ _ | TmapRm _ _ => True
         | _ => False
         end) w.
Proof.
  unfold create_v1. wpc_steps; (eexists _, _; split; [reflexivity|]);
    intros e Hin; cbn in Hin; split_in Hin; subst e; done.
Qed.

Lemma create_v2_events (imgname : string)
  (bid size order features stripe_unit stripe_count : Z) (w : W) :
  wpc (create_v2 env imgname bid size order features stripe_unit
         stripe_count)
    (λ _ _ t,
       ∃ x tl, t = CreateIdObject imgname x :: tl ∧
       ∀ e, e ∈ t →
         match e with
         | CreateImage _ s o f _ => s = size ∧ o = order ∧ f = features
         | SetStripeUnitCount _ u c _ =>
           u = stripe_unit ∧ c = stripe_count ∧ (u ≠ 0 ∨ c ≠ 0)
         | WriteOldHeader _ _ _ _ _ | TmapSet _ _ | TmapRm _ _
         | StatOldHeader _ _ | StatIdObject _ _ | GetInstanceId _ => False
         | _ => True
         end) w.
Proof.
  unfold create_v2. wpc_steps; (eexists _, _; split; [reflexivity|]);
    intros e Hin; cbn in Hin; split_in Hin; subst e; try done;
    (split; [done|]); (split; [done|]);
    match goal with
    | H : (_ || _) && _ = true |- _ =>
      apply andb_true_iff in H as [H _];
      apply orb_true_iff in H as [H|H];
      apply negb_true_iff, Z.eqb_neq in H; auto
    end.
Qed.

Lemma detect_format_enoent (name : string) (w : W) :
  wpc (detect_format env name)
    (λ rd _ t,
       (∀ e, e ∈ t →
          match e with
          | StatOldHeader _ _ | StatIdObject _ _ => True
          | _ => False
          end) ∧
       (rd.1 = - ENOENT →
        t = [StatOldHeader name (- ENOENT); StatIdObject name (- ENOENT)]))
    w.
Proof.
  unfold detect_format. wpc_steps; results;
    (split; [intros e Hin; cbn in Hin; split_in Hin; by subst e|]);
    cbn; intros Hr; try (unfold ENOENT in *; lia).
  by rewrite Heqb, Hr.
Qed.

(** [create] starts to create an image only after both stats have
    answered [-ENOENT], with an order from 12 to 25 that it leaves in
    [*order], with features that [RBD_FEATURES_ALL] covers, and in the
    format asked for.  An image of the old format gets no striping
    set; striping parameters are set only if both are non-zero and the
    features include STRIPINGV2. *)
Theorem create_validates (imgname : string) (size : Z) (old_format : bool)
  (features : Z) (order : option Z) (stripe_unit stripe_count : Z) (w : W) :
  wpc (create env imgname size old_format features order stripe_unit
         stripe_count)
    (λ ro _ t,
       (dispatched t ≠ [] →
        ∃ o tl,
          ro.2 = Some o ∧ 12 ≤ o ≤ 25 ∧
          Z.land features (Z.lnot RBD_FEATURES_ALL) = 0 ∧
          t = StatOldHeader imgname (- ENOENT) ::
              StatIdObject imgname (- ENOENT) :: tl) ∧
       (∀ id s o f r, CreateImage id s o f r ∈ t →
          old_format = false ∧ s = size ∧ f = features ∧
          ro.2 = Some o) ∧
       (∀ n s o b r, WriteOldHeader n s o b r ∈ t →
          old_format = true ∧ s = size ∧ ro.2 = Some o) ∧
       (∀ id u c r, SetStripeUnitCount id u c r ∈ t →
          old_format = false ∧ u ≠ 0 ∧ c ≠ 0 ∧
          Z.land features RBD_FEATURE_STRIPINGV2 ≠ 0)) w.
Proof.
  unfold create. destruct order as [order|].
  2: { cbn. repeat split; try done;
       intros; by match goal with H : _ ∈ [] |- _ =>
                    apply elem_of_nil in H end. }
  wpc_step.
  { cbn. repeat split; try done;
    intros; by match goal with H : _ ∈ [] |- _ =>
                 apply elem_of_nil in H end. }
  wpc_step.
  eapply wpc_mono; [apply detect_format_enoent|]. cbn beta.
  intros rd w1 t1 [Hstat Hnone].
  wpc_step; [wpc_step; wpc_step; quiet Hstat|].
  apply negb_false_iff, Z.eqb_eq in Heqb0. specialize (Hnone Heqb0).
  wpc_step; [wpc_step; quiet Hstat|].
  wpc_step. wpc_step.
  match goal with
  | |- context [(negb (?u =? 0) || negb (?c =? 0)) && _] =>
    generalize u c; intros su sc
  end.
  match type of Heqb1 with
  | (25 <? ?x) || _ = _ => revert Heqb1; generalize x; intros o Heqb1
  end.
  apply orb_false_iff in Heqb1 as [Hhi Hlo]. results.
  wpc_steps; try quiet Hstat.
  - eapply wpc_mono; [apply create_v1_events|]. cbn beta.
    intros r w2 t2 (x & tl & Ht2 & Hev). wpc_step. cbn.
    rewrite app_nil_r.
    split; [intros _; exists o; eexists; rewrite Hnone;
            apply negb_false_iff, Z.eqb_eq in Heqb; cbn;
            split; [done|split; [lia|split; [done|reflexivity]]]|].
    assert (∀ e, e ∈ t1 ++ GetInstanceId (get_instance_id env w1).1 :: t2 →
              match e with
              | WriteOldHeader _ s o' _ _ => s = size ∧ o' = o
              | CreateImage _ _ _ _ _ | SetStripeUnitCount _ _ _ _ => False
              | _ => True
              end) as Hall.
    { intros e Hin. split_in Hin.
      - apply Hstat in Hin. by destruct e.
      - by subst e.
      - apply Hev in Hin. by destruct e. }
    split; [intros ? ? ? ? ? Hin; by apply Hall in Hin|].
    split; [intros ? ? ? ? ? Hin; apply Hall in Hin as [-> ->]; done|].
    intros ? ? ? ? Hin; by apply Hall in Hin.
  - eapply wpc_mono; [apply create_v2_events|]. cbn beta.
    intros r w2 t2 (x & tl & Ht2 & Hev). wpc_step. cbn.
    rewrite app_nil_r.
    split; [intros _; exists o; eexists; rewrite Hnone;
            apply negb_false_iff, Z.eqb_eq in Heqb; cbn;
            split; [done|split; [lia|split; [done|reflexivity]]]|].
    assert (∀ e, e ∈ t1 ++ GetInstanceId (get_instance_id env w1).1 :: t2 →
              match e with
              | CreateImage _ s o' f _ => s = size ∧ o' = o ∧ f = features
              | SetStripeUnitCount _ u c _ =>
                u = su ∧ c = sc ∧ (u ≠ 0 ∨ c ≠ 0)
              | WriteOldHeader _ _ _ _ _ => False
              | _ => True
              end) as Hall.
    { intros e Hin. split_in Hin.
      - apply Hstat in Hin. by destruct e.
      - by subst e.
      - apply Hev in Hin. by destruct e. }
    split; [intros ? ? ? ? ? Hin; apply Hall in Hin as (-> & -> & ->); done|].
    split; [intros ? ? ? ? ? Hin; by apply Hall in Hin|].
    intros ? ? ? ? Hin. apply Hall in Hin as (-> & -> & Hsome).
    destruct (Z.eqb_spec su 0), (Z.eqb_spec sc 0),
      (Z.eqb_spec (Z.land features RBD_FEATURE_STRIPINGV2) 0);
      cbn in Heqb1, Heqb2; try discriminate; try tauto.
Qed.

End Generic.

Lemma create_v2_fast_diff_needs_object_map_witness :
  wpc (create_v2 accepting_env "img" 4121 1024 22 RBD_FEATURE_FAST_DIFF 0 0)
    (λ r _ t,
       left_behind t = nothing ∧
       (all_created t = true →
        0 ≤ r ∧
        ∃ pre id x y z,
          t = pre ++ [RemoveHeader id x; DirRemoveImage "img" id y;
                      RemoveIdObject "img" z])) tt.
Proof.
  apply (create_v2_fast_diff_needs_object_map accepting_env "img" 4121 1024
           22 RBD_FEATURE_FAST_DIFF 0 0 tt);
    [vm_compute; discriminate | reflexivity].
Defined.

(** On a pool where every call goes through, asking for fast diff
    alone creates the image, takes it away again and returns 0. *)
Example create_fast_diff_alone_returns_zero :
  let '(ro, _, t) :=
    create accepting_env "img" 1024 false RBD_FEATURE_FAST_DIFF (Some 0) 0 0
      tt in
  ro = (0, Some 22) ∧ left_behind t = nothing ∧ all_created t = true.
Proof. vm_compute. done. Qed.

End CreationProofs.
